(** * drizzle-solid: the query layer over a Solid Pod, embedded in Rocq

    A shallow embedding of the parts of [src/core] that the specification's
    properties are about:

    - [pod-table.ts]       tables, columns, predicate resolution;
    - [query-conditions.ts] the condition tree;
    - [aggregates.ts]      aggregate descriptors;
    - [ast-to-sparql.ts]   the SPARQL translator (predicates, subject URIs,
                           LIKE patterns, filter expressions, update and
                           delete templates);
    - [pod-session.ts]     the fluent builders and the in-memory fallback
                           (joins, join filters, aggregates);
    - [pod-dialect.ts]     the executor (preflight, dispatch, read-modify-write).

    JavaScript strings are modelled by [string] (one [ascii] per code unit),
    numbers by the kernel's binary64 floats, objects used as dictionaries by
    [gmap string _] or, where the insertion order is observable
    ([Object.entries], [Object.keys]), by association lists.  What the
    host language computes and the repository does not define ([String(n)],
    [Number(s)], [JSON.stringify], [Date.now()], the HTTP server, the SPARQL
    engine, the sparqljs generator) is a parameter: a field of [JsHost] or of
    [World]. *)

From Stdlib Require Import ZArith Ascii.
From Stdlib Require Import Floats.PrimFloat Floats.SpecFloat Floats.FloatOps.
From Stdlib Require Import Numbers.Cyclic.Int63.Uint63.
From stdpp Require Import gmap strings list fin_maps pretty.

Set Default Proof Using "Type".
Local Set Warnings "-register-all".

(* ===================================================================== *)
(** * JavaScript strings *)
(* ===================================================================== *)

Module Js.

(** [s.startsWith(p)] *)
Definition startsWith (s p : string) : bool := String.prefix p s.

(** [s.endsWith(p)] *)
Definition endsWith (s p : string) : bool :=
  String.prefix (String.rev p) (String.rev s).

(** [s.replace(/\/$/, '')]: drops one trailing slash. *)
Fixpoint dropTrailingSlash (s : string) : string :=
  match s with
  | "" => ""
  | String c "" => if Ascii.eqb c "/"%char then "" else s
  | String c t => String c (dropTrailingSlash t)
  end.

(** [s.replace(/^\//, '')]: drops one leading slash. *)
Definition dropLeadingSlash (s : string) : string :=
  match s with
  | String c t => if Ascii.eqb c "/"%char then t else s
  | "" => ""
  end.

(** [s.replace(/^\/+/, '')]: drops every leading slash. *)
Fixpoint dropLeadingSlashes (s : string) : string :=
  match s with
  | String c t => if Ascii.eqb c "/"%char then dropLeadingSlashes t else s
  | "" => ""
  end.

(** [s.includes(c)] for a one-character needle. *)
Fixpoint includesChar (c : ascii) (s : string) : bool :=
  match s with
  | "" => false
  | String d t => Ascii.eqb c d || includesChar c t
  end.

(** [s.replace(/c/g, r)] generalised: every character is replaced by
    [f c]; the three global replacements of the LIKE translation are
    instances. *)
Fixpoint replaceEach (f : ascii → string) (s : string) : string :=
  match s with
  | "" => ""
  | String c t => f c +:+ replaceEach f t
  end.

(** [s.trim()], on the ASCII white space. *)
Fixpoint trimStart (s : string) : string :=
  match s with
  | String c t => if Ascii.is_space c then trimStart t else s
  | "" => ""
  end.
Definition trim (s : string) : string :=
  String.rev (trimStart (String.rev (trimStart s))).

(** [s.split('.', 2)]: the pieces between dots, at most two of them. *)
Fixpoint splitDot_go (cur : string) (s : string) : list string :=
  match s with
  | "" => [String.rev cur]
  | String c t =>
      if Ascii.eqb c "."%char then String.rev cur :: splitDot_go "" t
      else splitDot_go (String c cur) t
  end.
Definition splitDot (s : string) : list string := splitDot_go "" s.
Definition splitDot2 (s : string) : list string := take 2 (splitDot s).

(** [arr.join(sep)] *)
Definition join (sep : string) (l : list string) : string := String.concat sep l.

(** [s.toUpperCase()], on the ASCII letters. *)
Definition upperChar (c : ascii) : ascii :=
  let n := Ascii.nat_of_ascii c in
  if (97 <=? n)%nat && (n <=? 122)%nat then Ascii.ascii_of_nat (n - 32) else c.
Fixpoint toUpperCase (s : string) : string :=
  match s with
  | "" => ""
  | String c t => String (upperChar c) (toUpperCase t)
  end.

(** [s.trimEnd()], on the ASCII white space. *)
Definition trimEnd (s : string) : string := String.rev (trimStart (String.rev s)).

(** [Number.isInteger(x)] *)
Definition numberIsInteger (x : float) : bool :=
  match Prim2SF x with
  | S754_zero _ => true
  | S754_finite _ m e => (0 <=? e)%Z || (Z.pos m mod 2 ^ (- e) =? 0)%Z
  | _ => false
  end.

(** [s.includes(sub)] *)
Definition includes (s sub : string) : bool :=
  match String.index 0 sub s with Some _ => true | None => false end.

(** The line feed and the double quote, which a string literal cannot
    hold. *)
Definition nl : string := String (Ascii.ascii_of_nat 10) "".
Definition dq : string := String (Ascii.ascii_of_nat 34) "".

End Js.

(* ===================================================================== *)
(** * JavaScript values *)
(* ===================================================================== *)

(** The values that travel through rows, where-maps and set-maps.  Arrays
    carry their elements; any other object is opaque to the query layer and
    is known by its reference only. *)
Inductive JsValue : Type :=
| VUndefined
| VNull
| VBool (b : bool)
| VNum (n : float)
| VStr (s : string)
| VArr (l : list JsValue)
| VObj (ref : nat).

(** What the host computes. *)
Class JsHost := {
  (** [String(n)] for a number *)
  NumberToString : float → string;
  (** [Number(s)] for a string *)
  StringToNumber : string → float;
  (** [Number(o)] for an array or object *)
  ObjectToNumber : JsValue → float;
  (** [String(o)] for an array or object *)
  ObjectToString : JsValue → string;
  (** [JSON.stringify(v)] *)
  JSON_stringify : JsValue → string;
  (** [JSON.stringify(row)] for a row object *)
  RowToJSON : gmap string JsValue → string;
  (** [o.value] for an object the engine returned *)
  ValueProperty : JsValue → JsValue;
  (** [Date.now()] rendered by a template literal *)
  DateNow : string;
  (** [o instanceof Date], and then [o.toISOString()] *)
  DateToISOString : JsValue → option string;
  (** [new RegExp(source, flags).test(s)]; [None] when the constructor
      throws a [SyntaxError] *)
  RegExpTest : string → string → string → option bool;
}.

Module Value.

(** Truthiness, as [if (v)], [v || d] and [!v] see it. *)
Definition truthy (v : JsValue) : bool :=
  match v with
  | VUndefined | VNull => false
  | VBool b => b
  | VNum n => negb (PrimFloat.is_nan n || PrimFloat.is_zero n)
  | VStr s => negb (String.eqb s "")
  | VArr _ | VObj _ => true
  end.

(** [v === undefined] *)
Definition isUndefined (v : JsValue) : bool :=
  match v with VUndefined => true | _ => false end.

(** [v === undefined || v === null] *)
Definition isNullish (v : JsValue) : bool :=
  match v with VUndefined | VNull => true | _ => false end.

(** [typeof v === 'object'] ([null] included). *)
Definition isObjectType (v : JsValue) : bool :=
  match v with VNull | VArr _ | VObj _ => true | _ => false end.

Section WithHost.
Context `{JsHost}.

(** [String(v)], also what a template literal does. *)
Definition toString (v : JsValue) : string :=
  match v with
  | VUndefined => "undefined"
  | VNull => "null"
  | VBool true => "true"
  | VBool false => "false"
  | VNum n => NumberToString n
  | VStr s => s
  | VArr _ | VObj _ => ObjectToString v
  end.

(** [Number(v)] *)
Definition toNumber (v : JsValue) : float :=
  match v with
  | VUndefined => PrimFloat.nan
  | VNull => PrimFloat.zero
  | VBool true => PrimFloat.one
  | VBool false => PrimFloat.zero
  | VNum n => n
  | VStr s => StringToNumber s
  | VArr _ | VObj _ => ObjectToNumber v
  end.
End WithHost.

(** [a === b].  Two objects are the same when they are the same reference;
    an array literal is a fresh reference, so it equals nothing. *)
Definition strictEq (a b : JsValue) : bool :=
  match a, b with
  | VUndefined, VUndefined => true
  | VNull, VNull => true
  | VBool x, VBool y => Bool.eqb x y
  | VNum x, VNum y => PrimFloat.eqb x y
  | VStr x, VStr y => String.eqb x y
  | VObj x, VObj y => Nat.eqb x y
  | _, _ => false
  end.

(** SameValueZero, the comparison of [Array.prototype.includes]. *)
Definition sameValueZero (a b : JsValue) : bool :=
  match a, b with
  | VNum x, VNum y => PrimFloat.eqb x y || (PrimFloat.is_nan x && PrimFloat.is_nan y)
  | _, _ => strictEq a b
  end.

(** [arr.includes(v)] *)
Definition includes (l : list JsValue) (v : JsValue) : bool :=
  existsb (fun x => sameValueZero x v) l.

End Value.

(** A JavaScript object whose property order is observable
    ([Object.entries], [Object.keys]): the properties in insertion order. *)
Abbreviation JsObject := (list (string * JsValue)).

Module Obj.
(** [o[k]] for a dictionary kept in insertion order. *)
Fixpoint get {A} (o : list (string * A)) (k : string) : option A :=
  match o with
  | [] => None
  | (k', v) :: rest => if String.eqb k' k then Some v else get rest k
  end.

(** [o.k], [undefined] when the property is absent. *)
Definition prop (o : JsObject) (k : string) : JsValue :=
  match get o k with Some v => v | None => VUndefined end.

(** [Object.keys(o)] *)
Definition keys {A} (o : list (string * A)) : list string := o.*1.

(** [k in o] *)
Definition has {A} (o : list (string * A)) (k : string) : bool :=
  match get o k with Some _ => true | None => false end.
End Obj.

(** A result or a thrown [Error(message)]. *)
Inductive Res (A : Type) : Type :=
| Ok (a : A)
| Throw (message : string).
Arguments Ok {A} a.
Arguments Throw {A} message.

Definition res_bind {A B} (r : Res A) (k : A → Res B) : Res B :=
  match r with
  | Ok a => k a
  | Throw m => Throw m
  end.

#[global] Instance Res_ret : MRet Res := fun A a => Ok a.
#[global] Instance Res_bind : MBind Res := fun A B k r => res_bind r k.

(** [for (const x of l) { ... }] with a body that may throw. *)
Fixpoint res_mapM {A B} (f : A → Res B) (l : list A) : Res (list B) :=
  match l with
  | [] => Ok []
  | x :: rest =>
      match f x with
      | Throw m => Throw m
      | Ok y =>
          match res_mapM f rest with
          | Throw m => Throw m
          | Ok ys => Ok (y :: ys)
          end
      end
  end.

(** [s] as a condition: the empty string and an absent one are falsy. *)
Definition truthyStr (o : option string) : option string :=
  match o with
  | Some s => if String.eqb s "" then None else Some s
  | None => None
  end.

(* ===================================================================== *)
(** * pod-table.ts: the schema model *)
(* ===================================================================== *)

Record NamespaceConfig := {
  ns_prefix : string;
  ns_uri : string;
}.

Definition COMMON_NAMESPACES_schema : NamespaceConfig :=
  {| ns_prefix := "schema"; ns_uri := "https://schema.org/" |}.

Record PodColumnOptions := {
  primaryKey : bool;
  required : bool;
  defaultValue : option JsValue;
  predicate : option string;
  referenceTarget : option string;
  notNull : bool;
}.

Definition noOptions : PodColumnOptions :=
  {| primaryKey := false; required := false; defaultValue := None;
     predicate := None; referenceTarget := None; notNull := false |}.

Record PodColumnBase := {
  col_name : string;
  col_dataType : string;
  col_options : PodColumnOptions;
  (** set by the [PodTable] constructor *)
  col_tableName : option string;
}.

Record TableConfig := {
  tbl_name : string;
  containerPath : string;
  rdfClass : string;
  namespace : option NamespaceConfig;
  autoRegister : bool;
}.

(** A table is an object: [tbl_ref] is its identity, the key of the
    builders' [Map<PodTable, string>]. *)
Record PodTable := {
  tbl_ref : nat;
  config : TableConfig;
  columns : list (string * PodColumnBase);
}.

(** [PodColumnBase.getPredicate(tableNamespace)] *)
Definition getPredicate (c : PodColumnBase) (tableNamespace : option NamespaceConfig) : string :=
  match truthyStr (predicate (col_options c)) with
  | Some p => p
  | None =>
      match tableNamespace with
      | Some ns => ns_uri ns +:+ col_name c
      | None => ns_uri COMMON_NAMESPACES_schema +:+ col_name c
      end
  end.

(** [PodColumnBase.isReference()] *)
Definition isReference (c : PodColumnBase) : bool :=
  match truthyStr (referenceTarget (col_options c)) with Some _ => true | None => false end.

(** [PodTable.getColumn(name)] *)
Definition getColumn (t : PodTable) (name : string) : option PodColumnBase :=
  Obj.get (columns t) name.

(* ===================================================================== *)
(** * ast-to-sparql.ts: predicates and subject URIs *)
(* ===================================================================== *)

(** The translator takes its columns as [any].  [ColumnObject] is what it
    looks at: the own property [predicate] when that is a string, the
    [options] bag, and the method [getPredicate] when there is one. *)
Record ColumnObject := {
  co_name : string;
  co_predicate : option string;
  co_options : option PodColumnOptions;
  co_getPredicate : option (option NamespaceConfig → string);
}.

(** A column of a table is a [PodColumnBase]: its [predicate] property is the
    chaining method, not a string, and it has [getPredicate]. *)
Definition columnObject (c : PodColumnBase) : ColumnObject :=
  {| co_name := col_name c;
     co_predicate := None;
     co_options := Some (col_options c);
     co_getPredicate := Some (getPredicate c) |}.

(** The literal table inside [getPredicateForColumn]. *)
Definition defaultPredicates : list (string * string) :=
  [ ("id", "http://www.w3.org/1999/02/22-rdf-syntax-ns#about");
    ("name", "http://xmlns.com/foaf/0.1/name");
    ("title", "http://purl.org/dc/terms/title");
    ("description", "http://purl.org/dc/terms/description");
    ("content", "http://purl.org/dc/terms/description");
    ("createdAt", "https://schema.org/dateCreated");
    ("updatedAt", "https://schema.org/dateModified");
    ("created_at", "https://schema.org/dateCreated");
    ("updated_at", "https://schema.org/dateModified");
    ("email", "http://xmlns.com/foaf/0.1/mbox");
    ("url", "http://xmlns.com/foaf/0.1/homepage");
    ("homepage", "http://xmlns.com/foaf/0.1/homepage") ].

(** [ASTToSPARQLConverter.getPredicateForColumn(column, table)].  The
    template [`${namespace}${column.name}`] renders the namespace object
    itself, which a template literal prints as [[object Object]]. *)
Definition getPredicateForColumn (column : ColumnObject) (table : PodTable) : string :=
  match truthyStr (co_predicate column) with
  | Some p => p
  | None =>
  match truthyStr (co_options column ≫= predicate) with
  | Some p => p
  | None =>
  match co_getPredicate column with
  | Some getPred => getPred (namespace (config table))
  | None =>
  match namespace (config table) with
  | Some _ => "[object Object]" +:+ co_name column
  | None =>
  match truthyStr (Obj.get defaultPredicates (co_name column)) with
  | Some defaultUri => defaultUri
  | None => "http://example.org/" +:+ co_name column
  end end end end end.

(** The translator, as the executor constructs it.  [cv_userPath] is what
    [extractUserPathFromWebId()] returns: the empty string when there is
    no parsable webId, else the first path segment of the webId between
    slashes. *)
Record Converter := {
  cv_podUrl : string;
  cv_userPath : string;
  cv_prefixes : list (string * string);
}.

Definition initialPrefixes : list (string * string) :=
  [ ("rdf", "http://www.w3.org/1999/02/22-rdf-syntax-ns#");
    ("rdfs", "http://www.w3.org/2000/01/rdf-schema#");
    ("schema", "https://schema.org/");
    ("foaf", "http://xmlns.com/foaf/0.1/");
    ("dc", "http://purl.org/dc/terms/");
    ("solid", "http://www.w3.org/ns/solid/terms#");
    ("ldp", "http://www.w3.org/ns/ldp#") ].

(** [x || d] on strings *)
Definition orElse (s d : string) : string := if String.eqb s "" then d else s.

(** [ASTToSPARQLConverter.generateSubjectUri(record, table)] *)
Definition generateSubjectUri `{JsHost} (cv : Converter) (record : JsObject) (table : PodTable) : string :=
  let userPath := cv_userPath cv in
  let containerPath := orElse (containerPath (config table)) "/data/" in
  let cleanContainerPath := Js.dropTrailingSlash containerPath in
  let fullContainerPath :=
    if Js.startsWith cleanContainerPath userPath then cleanContainerPath
    else userPath +:+ Js.dropLeadingSlash cleanContainerPath in
  let id :=
    if Value.truthy (Obj.prop record "id") then Value.toString (Obj.prop record "id")
    else DateNow in
  let baseUri := cv_podUrl cv +:+ fullContainerPath in
  baseUri +:+ "#" +:+ id.

(* ===================================================================== *)
(** * pod-session.ts: the id of a row *)
(* ===================================================================== *)

(** The class [[^/#]] of the regular expression in [extractIdFromSubject]. *)
Definition isIdChar (c : ascii) : bool :=
  negb (Ascii.eqb c "/"%char || Ascii.eqb c "#"%char).

Fixpoint allIdChars (s : string) : bool :=
  match s with
  | "" => true
  | String c t => isIdChar c && allIdChars t
  end.

(** [subject.match(/[^/#]+$/)]: the leftmost position from which the rest
    of the string is a non-empty run of [[^/#]]. *)
Fixpoint matchIdSuffix (s : string) : option string :=
  match s with
  | "" => None
  | String _ t => if allIdChars s then Some s else matchIdSuffix t
  end.

(** [SelectQueryBuilder.extractIdFromSubject(subject)] *)
Definition extractIdFromSubject (subject : option string) : option string :=
  match truthyStr subject with
  | None => None
  | Some s => Some (match matchIdSuffix s with Some m => m | None => s end)
  end.

(* ===================================================================== *)
(** * query-conditions.ts: the condition tree *)
(* ===================================================================== *)

Inductive CondType := binary_expr | unary_expr | logical_expr.

(** [QueryCondition].  [left] is [{ column }] for a comparison and the
    negated condition for [not]; [right] is [{ value }]. *)
Inductive QueryCondition : Type :=
| Cond (type : CondType) (operator : string) (left : CondLeft)
       (right : option JsValue) (column : option string) (value : JsValue)
       (conditions : option (list QueryCondition)) (table : option string)
with CondLeft : Type :=
| LeftNone
| LeftColumn (column : string)
| LeftCond (inner : QueryCondition).

Definition qc_type (c : QueryCondition) := let 'Cond t _ _ _ _ _ _ _ := c in t.
Definition qc_operator (c : QueryCondition) := let 'Cond _ o _ _ _ _ _ _ := c in o.
Definition qc_left (c : QueryCondition) := let 'Cond _ _ l _ _ _ _ _ := c in l.
Definition qc_right (c : QueryCondition) := let 'Cond _ _ _ r _ _ _ _ := c in r.
Definition qc_column (c : QueryCondition) := let 'Cond _ _ _ _ k _ _ _ := c in k.
Definition qc_value (c : QueryCondition) := let 'Cond _ _ _ _ _ v _ _ := c in v.
Definition qc_conditions (c : QueryCondition) := let 'Cond _ _ _ _ _ _ cs _ := c in cs.
Definition qc_table (c : QueryCondition) := let 'Cond _ _ _ _ _ _ _ t := c in t.

(** A column handed to the API: the column object and its back reference
    [column.table] (there is none before the column is put in a table). *)
Record ColumnHandle := {
  ch_column : PodColumnBase;
  ch_table : option PodTable;
}.

(** [PodColumnBase | string] *)
Inductive ColumnArg :=
| ByColumn (c : ColumnHandle)
| ByName (s : string).

(** [resolveColumnAndTable]: the column name and the table name. *)
Definition resolveColumnAndTable (column : ColumnArg) : string * option string :=
  match column with
  | ByName s =>
      if Js.includesChar "."%char s then
        match Js.splitDot2 s with
        | [tbl; col] => (col, Some tbl)
        | _ => (s, None)
        end
      else (s, None)
  | ByColumn h => (col_name (ch_column h), col_tableName (ch_column h))
  end.

Definition createBinaryCondition (column : ColumnArg) (operator : string) (value : JsValue)
  : QueryCondition :=
  let '(columnName, tableName) := resolveColumnAndTable column in
  Cond binary_expr operator (LeftColumn columnName) (Some value) (Some columnName) value
       None tableName.

Definition eq_ column value := createBinaryCondition column "=" value.
Definition ne column value := createBinaryCondition column "!=" value.
Definition gt column value := createBinaryCondition column ">" value.
Definition gte column value := createBinaryCondition column ">=" value.
Definition lt column value := createBinaryCondition column "<" value.
Definition lte column value := createBinaryCondition column "<=" value.
Definition like column (pattern : string) := createBinaryCondition column "LIKE" (VStr pattern).
Definition inArray column (values : list JsValue) :=
  createBinaryCondition column "IN" (VArr values).
Definition notInArray column (values : list JsValue) :=
  createBinaryCondition column "NOT IN" (VArr values).

Definition createUnaryCondition (column : ColumnArg) (operator : string) : QueryCondition :=
  let '(columnName, tableName) := resolveColumnAndTable column in
  Cond unary_expr operator (LeftColumn columnName) None (Some columnName) VUndefined
       None tableName.

Definition isNull column := createUnaryCondition column "IS NULL".
Definition isNotNull column := createUnaryCondition column "IS NOT NULL".

Definition and_ (conditions : list QueryCondition) : QueryCondition :=
  Cond logical_expr "AND" LeftNone None None VUndefined (Some conditions) None.
Definition or_ (conditions : list QueryCondition) : QueryCondition :=
  Cond logical_expr "OR" LeftNone None None VUndefined (Some conditions) None.
Definition not_ (condition : QueryCondition) : QueryCondition :=
  Cond unary_expr "NOT" (LeftCond condition) None None VUndefined None None.

(** A [where] argument: a condition tree or a plain key/value map.  The
    code tells them apart by [isQueryCondition]: an object with both a [type]
    and an [operator] property is a tree.  So [WhereMap] stands for the
    objects that lack one of the two ([looksLikeCondition], below, is
    [false] of them). *)
Inductive WhereArg :=
| WhereTree (c : QueryCondition)
| WhereMap (m : JsObject).

(** [isQueryCondition(obj)] on a where argument. *)
Definition isQueryCondition (w : WhereArg) : bool :=
  match w with
  | WhereTree _ => true
  | WhereMap _ => false
  end.

(* ===================================================================== *)
(** * aggregates.ts *)
(* ===================================================================== *)

Inductive AggregateFunction := count | sum | avg | min | max.

Record AggregateExpression := {
  func : AggregateFunction;
  agg_column : option ColumnArg;
  distinct : bool;
}.

(** [PodColumnBase | string | AggregateExpression] *)
Inductive SelectField :=
| FieldColumn (c : ColumnHandle)
| FieldName (s : string)
| FieldAggregate (a : AggregateExpression).

Definition isAggregateExpression (f : SelectField) : bool :=
  match f with FieldAggregate _ => true | _ => false end.

(* ===================================================================== *)
(** * LIKE patterns (ast-to-sparql.ts and pod-session.ts) *)
(* ===================================================================== *)

(** The class [[.+^${}()|[\]\\]] that both LIKE translations escape. *)
Definition isEscapedChar (c : ascii) : bool :=
  match c with
  | "." | "+" | "^" | "$" | "{" | "}" | "(" | ")" | "|" | "[" | "]" | "\" => true
  | _ => false
  end%char.

Definition char1 (c : ascii) : string := String c "".

(** [.replace(/([.+^${}()|\[\]\\])/g, '\\$1')] and [.replace(/[...]/g, '\\$&')] *)
Definition escapeChar (c : ascii) : string :=
  if isEscapedChar c then String "\"%char (char1 c) else char1 c.

(** [.replace(/%/g, '.*')] *)
Definition percentChar (c : ascii) : string :=
  if Ascii.eqb c "%"%char then ".*" else char1 c.

(** [.replace(/_/g, '.')] *)
Definition underscoreChar (c : ascii) : string :=
  if Ascii.eqb c "_"%char then "." else char1 c.

(** [ASTToSPARQLConverter.convertLikePattern(pattern)]: [{ regex, flags }] *)
Definition convertLikePattern (pattern : string) : string * option string :=
  let escaped :=
    Js.replaceEach underscoreChar
      (Js.replaceEach percentChar
         (Js.replaceEach escapeChar pattern)) in
  ("^" +:+ escaped +:+ "$", Some "i").

(** The source of the [RegExp] that [computeLikeMatch] builds. *)
Definition likeRegExpSource (pattern : string) : string :=
  let escaped := Js.replaceEach escapeChar pattern in
  "^" +:+ Js.replaceEach underscoreChar (Js.replaceEach percentChar escaped) +:+ "$".

(** [SelectQueryBuilder.computeLikeMatch(value, pattern)]; [None] when
    building the [RegExp] throws. *)
Definition computeLikeMatch `{JsHost} (value pattern : string) : option bool :=
  RegExpTest (likeRegExpSource pattern) "i" value.

(* ===================================================================== *)
(** * ast-to-sparql.ts: filter expressions *)
(* ===================================================================== *)

(** The sparqljs terms and expressions the translator builds. *)
Inductive Term :=
| Variable_ (value : string)
| NamedNode (value : string)
| Literal (value : string) (datatype : option string).

Inductive Expr :=
| ETerm (t : Term)
| ETerms (l : list Term)
| EOperation (operator : string) (args : list Expr).

Definition xsd (local : string) : string := "http://www.w3.org/2001/XMLSchema#" +:+ local.

Section Translator.
Context `{JsHost}.

(** [buildLiteralTerm(value)] *)
Definition buildLiteralTerm (value : JsValue) : Term :=
  match value with
  | VStr s => Literal s (Some (xsd "string"))
  | VNum n =>
      Literal (NumberToString n)
              (Some (if Js.numberIsInteger n then xsd "integer" else xsd "decimal"))
  | VBool b => Literal (Value.toString value) (Some (xsd "boolean"))
  | _ =>
      match DateToISOString value with
      | Some iso => Literal iso (Some (xsd "dateTime"))
      | None => Literal (Value.toString value) None
      end
  end.

(** [condition.left?.column] *)
Definition leftColumn (l : CondLeft) : option string :=
  match l with
  | LeftNone => None
  | LeftColumn c => Some c
  | LeftCond q => qc_column q
  end.

(** [condition.column || condition.left?.column] *)
Definition conditionColumnName (c : QueryCondition) : option string :=
  match truthyStr (qc_column c) with
  | Some k => Some k
  | None => truthyStr (leftColumn (qc_left c))
  end.

(** [condition.value ?? condition.right?.value] *)
Definition conditionRawValue (c : QueryCondition) : JsValue :=
  if Value.isNullish (qc_value c) then
    match qc_right c with Some v => v | None => VUndefined end
  else qc_value c.

Definition idRecord (v : JsValue) : JsObject := [("id", v)].

(** [buildBinaryExpression(condition, table)]; [None] is [null]. *)
Definition buildBinaryExpression (cv : Converter) (condition : QueryCondition)
    (table : PodTable) : option Expr :=
  match conditionColumnName condition with
  | None => None
  | Some columnName =>
      let operator := Js.toUpperCase (orElse (qc_operator condition) "=") in
      let rawValue := conditionRawValue condition in
      if String.eqb columnName "id" then
        let subjectVariable := ETerm (Variable_ "subject") in
        if String.eqb operator "=" || String.eqb operator "!=" || String.eqb operator "<>" then
          let resourceUri := generateSubjectUri cv (idRecord rawValue) table in
          Some (EOperation (if String.eqb operator "<>" then "!=" else operator)
                           [subjectVariable; ETerm (NamedNode resourceUri)])
        else
          match rawValue with
          | VArr items =>
              if String.eqb operator "IN" || String.eqb operator "NOT IN" then
                let uris :=
                  (fun v => NamedNode (generateSubjectUri cv (idRecord v) table)) <$> items in
                Some (EOperation (if String.eqb operator "NOT IN" then "notin" else "in")
                                 [subjectVariable; ETerms uris])
              else None
          | _ => None
          end
      else
        match rawValue with
        | VUndefined => None
        | _ =>
            let variable := ETerm (Variable_ columnName) in
            let literalSingle :=
              match rawValue with VArr _ => None | _ => Some (buildLiteralTerm rawValue) end in
            let literalList :=
              match rawValue with VArr items => Some (buildLiteralTerm <$> items) | _ => None end in
            if String.eqb operator "=" || String.eqb operator "!=" || String.eqb operator ">"
               || String.eqb operator "<" || String.eqb operator ">=" || String.eqb operator "<="
            then
              literal ← literalSingle;
              Some (EOperation operator [variable; ETerm literal])
            else if String.eqb operator "LIKE" then
              _ ← literalSingle;
              let '(regex, flags) :=
                convertLikePattern
                  (Value.toString (if Value.isNullish rawValue then VStr "" else rawValue)) in
              let args :=
                [EOperation "str" [variable]; ETerm (Literal regex None)]
                ++ match truthyStr flags with
                   | Some f => [ETerm (Literal f None)]
                   | None => []
                   end in
              Some (EOperation "regex" args)
            else if String.eqb operator "IN" then
              items ← literalList;
              Some (EOperation "in" [variable; ETerms items])
            else if String.eqb operator "NOT IN" then
              items ← literalList;
              Some (EOperation "notin" [variable; ETerms items])
            else None
        end
  end.

(** [expressions.reduce((acc, expr) => op(acc, expr))] without a seed. *)
Definition reduceOperation (operator : string) (first : Expr) (rest : list Expr) : Expr :=
  fold_left (fun acc expr => EOperation operator [acc; expr]) rest first.

(** [buildConditionExpression], with [buildLogicalExpression] and
    [buildUnaryExpression] inlined at their cases. *)
Fixpoint buildConditionExpression (cv : Converter) (condition : QueryCondition)
    (table : PodTable) {struct condition} : option Expr :=
  match condition with
  | Cond binary_expr _ _ _ _ _ _ _ => buildBinaryExpression cv condition table
  | Cond logical_expr operator _ _ _ _ conditions _ =>
      match conditions with
      | None | Some [] => None
      | Some children =>
          let expressions :=
            (fix each (l : list QueryCondition) : list Expr :=
               match l with
               | [] => []
               | child :: more =>
                   match buildConditionExpression cv child table with
                   | Some e => e :: each more
                   | None => each more
                   end
               end) children in
          match expressions with
          | [] => None
          | [single] => Some single
          | first :: rest =>
              Some (reduceOperation (if String.eqb operator "AND" then "&&" else "||")
                                    first rest)
          end
      end
  | Cond unary_expr operator lft _ _ _ _ _ =>
      let notOfInner :=
        match lft with
        | LeftCond inner =>
            if String.eqb operator "NOT" then
              Some (match buildConditionExpression cv inner table with
                    | Some e => Some (EOperation "!" [e])
                    | None => None
                    end)
            else None
        | _ => None
        end in
      match notOfInner with
      | Some result => result
      | None =>
          match conditionColumnName condition with
          | None => None
          | Some columnName =>
              let variable :=
                ETerm (Variable_ (if String.eqb columnName "id" then "subject" else columnName)) in
              let boundExpression := EOperation "bound" [variable] in
              if String.eqb operator "IS NULL" then Some (EOperation "!" [boundExpression])
              else if String.eqb operator "IS NOT NULL" then Some boundExpression
              else None
          end
      end
  end.

(** [buildFilterPatterns(whereConditions, table)]: the filter expressions. *)
Definition buildFilterPatterns (cv : Converter) (whereConditions : option WhereArg)
    (table : PodTable) : list Expr :=
  match whereConditions with
  | None => []
  | Some (WhereTree c) =>
      match buildConditionExpression cv c table with Some e => [e] | None => [] end
  | Some (WhereMap m) =>
      omap (fun '(columnName, value) =>
              match value with
              | VUndefined => None
              | VNull =>
                  buildConditionExpression cv
                    (Cond unary_expr "IS NULL" LeftNone None (Some columnName) VUndefined None None)
                    table
              | _ =>
                  buildConditionExpression cv
                    (Cond binary_expr "=" (LeftColumn columnName) (Some value)
                          (Some columnName) value None None)
                    table
              end) m
  end.

End Translator.

(* ===================================================================== *)
(** * ast-to-sparql.ts: the statement templates *)
(* ===================================================================== *)

Inductive QueryKind := SELECT | INSERT | DELETE | UPDATE.

Inductive Direction := asc | desc.

(** The sparqljs query objects handed to [generator.stringify]. *)
Inductive SelectVariable :=
| SelVar (name : string)
| SelAs (expression : string) (variable : string)
| SelAggregate (aggregation : AggregateFunction) (distinct_ : bool)
               (expression : option string) (variable : string).

Inductive Pattern :=
| PBgp (subject predicate object : Term)
| POptional (subject predicate object : Term)
| PFilter (expression : Expr).

Record SelectQueryJson := {
  sq_variables : list SelectVariable;
  sq_where : list Pattern;
  sq_limit : option float;
  sq_offset : option float;
  sq_order : list (string * bool);
  sq_distinct : bool;
}.

(** The text of a statement: written by a string template, or the
    sparqljs rendering of a query object. *)
Inductive QueryText :=
| Text (s : string)
| GeneratedSelect (q : SelectQueryJson)
| GeneratedInsert (triples : list (Term * Term * Term)).

Record SPARQLQuery := {
  sp_type : QueryKind;
  sp_query : QueryText;
  sp_prefixes : list (string * string);
}.

(** The select part of an operation, as [convertSelect] reads it. *)
Record SelectAst := {
  ast_select : option (list (string * SelectField));
  ast_where : option WhereArg;
  ast_limit : option float;
  ast_offset : option float;
  ast_orderBy : option (list (string * Direction));
  ast_distinct : bool;
}.

Definition rdfType : string := "http://www.w3.org/1999/02/22-rdf-syntax-ns#type".

Section Templates.
Context `{JsHost}.

(** [Object.entries(prefixes).map(...).join('\n')] *)
Definition prefixLines (prefixes : list (string * string)) : string :=
  Js.join Js.nl ((fun '(prefix, uri) => "PREFIX " +:+ prefix +:+ ": <" +:+ uri +:+ ">") <$> prefixes).

(** [.replace(/"/g, '\\"')] *)
Definition escapeQuotes (s : string) : string :=
  Js.replaceEach (fun c => if String.eqb (char1 c) Js.dq then "\" +:+ Js.dq else char1 c) s.

(** [formatValue(value, column)] *)
Definition formatValue (value : JsValue) (column : option PodColumnBase) : string :=
  if Value.isNullish value then "NULL" else
  let dataType := from_option col_dataType "" column in
  if String.eqb dataType "json" || String.eqb dataType "object" then
    Js.dq +:+ escapeQuotes (JSON_stringify value) +:+ Js.dq
    +:+ "^^<http://www.w3.org/2001/XMLSchema#json>"
  else
    let reference := from_option isReference false column in
    match value with
    | VStr s =>
        if reference then "<" +:+ s +:+ ">"
        else Js.dq +:+ escapeQuotes s +:+ Js.dq
    | VNum n =>
        if reference then
          "<" +:+ from_option (fun c => default "undefined" (referenceTarget (col_options c))) "" column
          +:+ "/" +:+ NumberToString n +:+ ">"
        else NumberToString n
    | VBool _ =>
        Js.dq +:+ Value.toString value +:+ Js.dq
        +:+ "^^<http://www.w3.org/2001/XMLSchema#boolean>"
    | _ =>
        match DateToISOString value with
        | Some iso => Js.dq +:+ iso +:+ Js.dq +:+ "^^<http://www.w3.org/2001/XMLSchema#dateTime>"
        | None => Js.dq +:+ Value.toString value +:+ Js.dq
        end
    end.

(** The entries of a set-map with their positions, as
    [Object.entries(setData).forEach(([columnName, value], index) => ...)]
    sees them. *)
Definition indexed {A} (l : list A) : list (nat * A) := imap (fun i x => (i, x)) l.

(** [convertUpdate(setData, whereConditions, table)] *)
Definition convertUpdate (cv : Converter) (setData whereConditions : JsObject)
    (table : PodTable) : SPARQLQuery :=
  let resourceUri := generateSubjectUri cv whereConditions table in
  let statements :=
    omap (fun '(index, (columnName, value)) =>
            column ← getColumn table columnName;
            let predicate := getPredicateForColumn (columnObject column) table in
            let formattedValue := formatValue value (Some column) in
            let variableName := "?value" +:+ pretty index in
            Some ("DELETE WHERE {" +:+ Js.nl +:+ "  <" +:+ resourceUri +:+ "> <" +:+ predicate
                    +:+ "> " +:+ variableName +:+ " ." +:+ Js.nl +:+ "}",
                  "  <" +:+ resourceUri +:+ "> <" +:+ predicate +:+ "> " +:+ formattedValue +:+ " ."))
         (indexed setData) in
  let deleteStatements := statements.*1 in
  let insertTriples := statements.*2 in
  let deleteBlock :=
    match deleteStatements with
    | [] => ""
    | _ => Js.join (";" +:+ Js.nl) deleteStatements +:+ Js.nl +:+ ";" +:+ Js.nl
    end in
  let insertBlock :=
    match insertTriples with
    | [] => ""
    | _ => "INSERT DATA {" +:+ Js.nl +:+ Js.join Js.nl insertTriples +:+ Js.nl +:+ "}"
    end in
  {| sp_type := UPDATE;
     sp_query := Text (Js.trimEnd (prefixLines (cv_prefixes cv) +:+ Js.nl +:+ deleteBlock +:+ insertBlock));
     sp_prefixes := cv_prefixes cv |}.

(** [convertDelete(whereConditions, table)]; [None] is an absent where. *)
Definition convertDelete (cv : Converter) (whereConditions : option JsObject)
    (table : PodTable) : SPARQLQuery :=
  let text :=
    match whereConditions with
    | Some ((_ :: _) as w) =>
        let resourceUri := generateSubjectUri cv w table in
        prefixLines (cv_prefixes cv) +:+ Js.nl +:+ "DELETE WHERE {" +:+ Js.nl
        +:+ "  <" +:+ resourceUri +:+ "> ?p ?o ." +:+ Js.nl +:+ "}"
    | _ =>
        prefixLines (cv_prefixes cv) +:+ Js.nl +:+ "DELETE WHERE {" +:+ Js.nl
        +:+ "  ?subject rdf:type <" +:+ rdfClass (config table) +:+ "> ." +:+ Js.nl
        +:+ "  ?subject ?p ?o ." +:+ Js.nl +:+ "}"
    end in
  {| sp_type := DELETE; sp_query := Text text; sp_prefixes := cv_prefixes cv |}.

(** [resolveColumn(field, table)] *)
Definition resolveColumn (field : ColumnArg) (table : PodTable) : Res PodColumnBase :=
  match field with
  | ByColumn h => Ok (ch_column h)
  | ByName s =>
      match getColumn table s with
      | Some c => Ok c
      | None => Throw ("Unable to resolve column reference for select field: " +:+ s)
      end
  end.

(** [buildSelectEntry(alias, field, table)] *)
Definition buildSelectEntry (alias : string) (field : SelectField) (table : PodTable)
  : Res SelectVariable :=
  match field with
  | FieldAggregate a =>
      match agg_column a with
      | Some c =>
          column ← resolveColumn c table;
          Ok (SelAggregate (func a) (distinct a) (Some (col_name column)) alias)
      | None => Ok (SelAggregate (func a) (distinct a) None alias)
      end
  | FieldColumn h =>
      let columnVariable := col_name (ch_column h) in
      Ok (if String.eqb alias columnVariable then SelVar columnVariable
          else SelAs columnVariable alias)
  | FieldName s =>
      column ← resolveColumn (ByName s) table;
      let columnVariable := col_name column in
      Ok (if String.eqb alias columnVariable then SelVar columnVariable
          else SelAs columnVariable alias)
  end.

(** [buildSelectVariables(ast, table)] (the executor never sets
    [ast.columns]). *)
Definition buildSelectVariables (ast : SelectAst) (table : PodTable)
  : Res (list SelectVariable) :=
  match ast_select ast with
  | Some ((_ :: _) as selectFields) =>
      mapped ← res_mapM (fun '(alias, field) => buildSelectEntry alias field table) selectFields;
      Ok (SelVar "subject" :: mapped)
  | _ =>
      Ok (SelVar "subject"
            :: (SelVar <$> filter (fun col => col ≠ "id") (Obj.keys (columns table))))
  end.

(** The triple pattern of a column, plain when the column is required and
    optional otherwise. *)
Definition columnPatterns (table : PodTable) : list Pattern :=
  omap (fun '(columnName, column) =>
          if String.eqb columnName "id" then None
          else
            let predicate := getPredicateForColumn (columnObject column) table in
            let s := Variable_ "subject" in
            let p := NamedNode predicate in
            let o := Variable_ columnName in
            Some (if required (col_options column) then PBgp s p o else POptional s p o))
       (columns table).

(** [buildWherePatterns(ast, table)] *)
Definition buildWherePatterns (cv : Converter) (ast : SelectAst) (table : PodTable)
  : list Pattern :=
  PBgp (Variable_ "subject") (NamedNode rdfType) (NamedNode (rdfClass (config table)))
  :: columnPatterns table
  ++ (PFilter <$> buildFilterPatterns cv (ast_where ast) table).

(** [convertSelect(ast, table)] *)
Definition convertSelect (cv : Converter) (ast : SelectAst) (table : PodTable)
  : Res SPARQLQuery :=
  variables ← buildSelectVariables ast table;
  Ok {| sp_type := SELECT;
         sp_query :=
           GeneratedSelect
             {| sq_variables := variables;
                sq_where := buildWherePatterns cv ast table;
                sq_limit := ast_limit ast;
                sq_offset := ast_offset ast;
                sq_order :=
                  (fun '(column, direction) =>
                     (column, match direction with desc => true | asc => false end))
                  <$> default [] (ast_orderBy ast);
                sq_distinct := ast_distinct ast |};
         sp_prefixes := cv_prefixes cv |}.

End Templates.

(* ===================================================================== *)
(** * pod-dialect.ts: the executor *)
(* ===================================================================== *)

(** A row: a loose key/value object. *)
Abbreviation Row := (gmap string JsValue).

Inductive Method := HEAD | GET | PUT.

Record Request := {
  rq_method : Method;
  rq_url : string;
  rq_headers : list (string * string);
  rq_body : option string;
}.

Record Response := {
  status : nat;
  statusText : string;
  body : string;
}.

(** [response.ok] *)
Definition ok (r : Response) : bool := (200 <=? status r)%nat && (status r <=? 299)%nat.

(** What leaves the process, in the order it leaves. *)
Inductive Event :=
| Fetch (rq : Request)
| Sparql (resourceUrl : string) (q : SPARQLQuery).

(** The collaborators the specification leaves out: the Pod server behind
    [session.fetch] (a thrown [Throw] is a network failure), the SPARQL
    engine behind [sparqlExecutor.queryContainer], and the sparqljs
    generator as [filterPatternToString] uses it.  Each answers from what
    has happened so far. *)
Record World := {
  w_fetch : list Event → Request → Res Response;
  w_queryContainer : list Event → string → SPARQLQuery → Res (list Row);
  w_filterToString : Expr → option string;
}.

Record DialectState := {
  connected : bool;
  trace : list Event;
}.

(** Computations over a mutable state [S] that return or throw: the
    builders mutate themselves, the executor its connection flag and what it
    has sent. *)
Definition SR (S A : Type) : Type := S → Res A * S.

#[global] Instance SR_ret {S} : MRet (SR S) := fun A a st => (Ok a, st).
#[global] Instance SR_bind {S} : MBind (SR S) := fun A B k m st =>
  match m st with
  | (Ok a, st') => k a st'
  | (Throw msg, st') => (Throw msg, st')
  end.

Definition throw {S A} (message : string) : SR S A := fun st => (Throw message, st).
Definition liftRes {S A} (r : Res A) : SR S A := fun st => (r, st).
Definition getState {S} : SR S S := fun st => (Ok st, st).
Definition putState {S} (st : S) : SR S unit := fun _ => (Ok (), st).

(** [try { m } catch (e) { ... }]: the outcome of [m], not thrown. *)
Definition attempt {S A} (m : SR S A) : SR S (Res A) := fun st =>
  let '(r, st') := m st in (Ok r, st').

(** The executor's computations. *)
Abbreviation M := (SR DialectState).

Definition isConnected : M bool := fun st => (Ok (connected st), st).
Definition setConnected (b : bool) : M unit := fun st =>
  (Ok (), {| connected := b; trace := trace st |}).

(** [for (const x of l) { await f(x) }], collecting what the body yields. *)
Fixpoint forEachM {S A B} (f : A → SR S (option B)) (l : list A) : SR S (list B) :=
  match l with
  | [] => mret []
  | x :: rest =>
      y ← f x;
      ys ← forEachM f rest;
      mret (from_option (fun b => b :: ys) ys y)
  end.

Inductive OpType := OpSelect | OpInsert | OpUpdate | OpDelete.

(** [operation.values]: one record or an array of records. *)
Inductive InsertValues :=
| OneRow (r : JsObject)
| ManyRows (l : list JsObject).

(** [PodOperation], without the Drizzle SQL object (the builders set it only
    when they are handed one). *)
Record PodOperation := {
  op_type : OpType;
  op_table : PodTable;
  op_data : option JsObject;
  op_where : option WhereArg;
  op_select : option (list (string * SelectField));
  op_values : option InsertValues;
  op_limit : option float;
  op_offset : option float;
  op_orderBy : option (list (string * Direction));
  op_distinct : bool;
}.

(** The object a where argument is when it is read as a plain record
    ([Object.keys], [.id]): a tree has its own properties and no [id]. *)
Definition whereRecord (w : WhereArg) : JsObject :=
  match w with
  | WhereMap m => m
  | WhereTree c => [("type", VObj 0); ("operator", VStr (qc_operator c))]
  end.

Definition resultRow (entries : list (string * JsValue)) : Row := list_to_map entries.

Section Dialect.
Context `{JsHost}.
Variable w : World.
(** [this.sparqlConverter], which also holds [podUrl] and the user path. *)
Variable cv : Converter.

(** [session.fetch(url, init)] *)
Definition fetch (rq : Request) : M Response := fun st =>
  (w_fetch w (trace st) rq,
   {| connected := connected st; trace := trace st ++ [Fetch rq] |}).

(** [executeOnResource(resourceUrl, sparqlQuery)] *)
Definition executeOnResource (resourceUrl : string) (q : SPARQLQuery) : M (list Row) := fun st =>
  (w_queryContainer w (trace st) resourceUrl q,
   {| connected := connected st; trace := trace st ++ [Sparql resourceUrl q] |}).

Definition request (m : Method) (url : string) : Request :=
  {| rq_method := m; rq_url := url; rq_headers := []; rq_body := None |}.

Definition acceptTurtle (url : string) : Request :=
  {| rq_method := GET; rq_url := url; rq_headers := [("Accept", "text/turtle")];
     rq_body := None |}.

(** [connect()] *)
Definition connect : M unit :=
  c ← isConnected;
  if c : bool then mret ()
  else
    response ← fetch (request GET (cv_podUrl cv));
    if ok response then setConnected true
    else throw ("Failed to connect to Pod: " +:+ pretty (status response) +:+ " "
                +:+ statusText response).

(** [resolveTableUrls(table)]: [(containerUrl, resourceUrl)] *)
Definition resolveTableUrls (table : PodTable) : string * string :=
  let containerPath := orElse (containerPath (config table)) "/data/" in
  if Js.startsWith containerPath "http://" || Js.startsWith containerPath "https://" then
    let normalizedContainer :=
      if Js.endsWith containerPath "/" then containerPath else containerPath +:+ "/" in
    (normalizedContainer, normalizedContainer +:+ tbl_name (config table) +:+ ".ttl")
  else
    let userPath := cv_userPath cv in
    let normalizedPath :=
      if Js.startsWith containerPath userPath then containerPath
      else userPath +:+ Js.dropLeadingSlashes containerPath in
    let containerUrl :=
      if Js.endsWith (cv_podUrl cv) "/" then cv_podUrl cv +:+ Js.dropLeadingSlashes normalizedPath
      else cv_podUrl cv +:+ normalizedPath in
    let containerUrl :=
      if Js.endsWith containerUrl "/" then containerUrl else containerUrl +:+ "/" in
    (containerUrl, containerUrl +:+ tbl_name (config table) +:+ ".ttl").

(** [resourceExists(resourceUrl)] *)
Definition resourceExists (resourceUrl : string) : M bool :=
  let fallback : M bool :=
    g ← attempt (fetch (acceptTurtle resourceUrl));
    match g with
    | Ok getResponse => mret (ok getResponse)
    | Throw _ => mret false
    end in
  r ← attempt (fetch (request HEAD resourceUrl));
  match r with
  | Throw _ => fallback
  | Ok response =>
      if ok response || (status response =? 409)%nat then mret true
      else if (status response =? 404)%nat then mret false
      else if (status response =? 405)%nat then
        g ← attempt (fetch (acceptTurtle resourceUrl));
        match g with
        | Ok getResponse => mret (ok getResponse)
        | Throw _ => fallback
        end
      else if (status response =? 401)%nat || (status response =? 403)%nat then mret true
      else mret (ok response)
  end.

(** [ensureResourceExists(resourceUrl, { createIfMissing })] *)
Definition ensureResourceExists (resourceUrl : string) (createIfMissing : bool) : M unit :=
  exists_ ← resourceExists resourceUrl;
  if exists_ : bool then mret ()
  else if negb createIfMissing then throw ("Resource not found: " +:+ resourceUrl)
  else
    response ← fetch {| rq_method := PUT; rq_url := resourceUrl;
                        rq_headers := [("Content-Type", "text/turtle")];
                        rq_body := Some "" |};
    if negb (ok response)
       && negb (bool_decide (status response ∈ [201; 202; 204; 409]))
    then throw ("Failed to create resource: " +:+ pretty (status response) +:+ " "
                +:+ statusText response)
    else mret ().

(** [ensureContainerExists(containerUrl)] *)
Definition ensureContainerExists (containerUrl : string) : M unit :=
  checkResponse ← fetch (request HEAD containerUrl);
  if (status checkResponse =? 404)%nat then
    createResponse ←
      fetch {| rq_method := PUT; rq_url := containerUrl;
               rq_headers :=
                 [("Content-Type", "text/turtle");
                  ("Link", "<http://www.w3.org/ns/ldp#BasicContainer>; rel=" +:+ Js.dq
                           +:+ "type" +:+ Js.dq)];
               rq_body := None |};
    if ok createResponse then mret ()
    else if (status createResponse =? 409)%nat then mret ()
    else throw ("Failed to create container: " +:+ pretty (status createResponse) +:+ " "
                +:+ statusText createResponse)
  else if (status checkResponse =? 200)%nat then mret ()
  else if (status checkResponse =? 409)%nat then mret ()
  else if negb (ok checkResponse) then
    throw ("Failed to check container: " +:+ pretty (status checkResponse) +:+ " "
           +:+ statusText checkResponse)
  else mret ().

(** [checkResourceExistence(values, table, containerUrl)] *)
Definition checkResourceExistence (values : list JsObject) (table : PodTable)
    (containerUrl : string) : M bool :=
  response ← fetch (acceptTurtle containerUrl);
  if negb (ok response) then
    if (status response =? 404)%nat then mret true
    else throw ("HTTP " +:+ pretty (status response) +:+ ": " +:+ statusText response)
  else
    let turtleData := body response in
    mret (forallb (fun record =>
                     negb (Js.includes turtleData (generateSubjectUri cv record table)))
                  values).

(** [buildWhereClause({ where }, table)], which is
    [buildWhereClauseForCondition] *)
Definition buildWhereClauseForCondition (whereAst : QueryCondition) (table : PodTable) : string :=
  let subject := "?subject" in
  let typeTriple := subject +:+ " rdf:type <" +:+ rdfClass (config table) +:+ "> ." in
  let columnTriples :=
    omap (fun '(columnName, column) =>
            if String.eqb columnName "id" then None
            else
              let predicate := getPredicateForColumn (columnObject column) table in
              let variable := "?" +:+ columnName in
              Some (if required (col_options column)
                    then subject +:+ " <" +:+ predicate +:+ "> " +:+ variable +:+ " ."
                    else "OPTIONAL { " +:+ subject +:+ " <" +:+ predicate +:+ "> " +:+ variable
                         +:+ " } ."))
         (columns table) in
  let filters :=
    omap (fun e => truthyStr (w_filterToString w e))
         (buildFilterPatterns cv (Some (WhereTree whereAst)) table) in
  let result := Js.join (Js.nl +:+ "  ") (typeTriple :: columnTriples) in
  match filters with
  | [] => result
  | _ => result +:+ Js.nl +:+ "  " +:+ Js.join (Js.nl +:+ "  ") filters
  end.

(** The subject of a binding row, as [findSubjectsForCondition] reads it. *)
Definition subjectOfRow (row : Row) : option string :=
  let subject := default VUndefined (row !! "subject") in
  if negb (Value.truthy subject) then None
  else
    match subject with
    | VStr s => truthyStr (Some s)
    | _ =>
        match ValueProperty subject with
        | VStr s => truthyStr (Some s)
        | _ => None
        end
    end.

(** [findSubjectsForCondition(condition, table, resourceUrl)] *)
Definition findSubjectsForCondition (condition : QueryCondition) (table : PodTable)
    (resourceUrl : string) : M (list string) :=
  let whereClause := buildWhereClauseForCondition condition table in
  let query :=
    prefixLines (cv_prefixes cv) +:+ Js.nl +:+ "SELECT ?subject WHERE {" +:+ Js.nl
    +:+ whereClause +:+ Js.nl +:+ "}" in
  rows ← executeOnResource resourceUrl
           {| sp_type := SELECT; sp_query := Text query; sp_prefixes := cv_prefixes cv |};
  mret (omap subjectOfRow rows).

(** [buildUpdateQueryForSubject(subject, data, table, columns)] *)
Definition buildUpdateQueryForSubject (subject : string) (data : JsObject) (table : PodTable)
    (columnNames : list string) : option string :=
  let statements :=
    omap (fun '(index, columnName) =>
            column ← getColumn table columnName;
            let predicate := getPredicateForColumn (columnObject column) table in
            let deleteStatement :=
              "DELETE WHERE {" +:+ Js.nl +:+ "  <" +:+ subject +:+ "> <" +:+ predicate
              +:+ "> ?value" +:+ pretty index +:+ " ." +:+ Js.nl +:+ "}" in
            let newValue := Obj.prop data columnName in
            let insertTriple :=
              if Value.isNullish newValue then None
              else
                let literal := formatValue newValue (Some column) in
                if String.eqb literal "NULL" then None
                else Some ("  <" +:+ subject +:+ "> <" +:+ predicate +:+ "> " +:+ literal +:+ " .") in
            Some (deleteStatement, insertTriple))
         (indexed columnNames) in
  let deleteStatements := statements.*1 in
  let insertTriples := omap id (statements.*2) in
  match deleteStatements, insertTriples with
  | [], [] => None
  | _, _ =>
      let parts :=
        match deleteStatements with [] => [] | _ => [Js.join (";" +:+ Js.nl) deleteStatements] end
        ++ match insertTriples with
           | [] => []
           | _ => ["INSERT DATA {" +:+ Js.nl +:+ Js.join Js.nl insertTriples +:+ Js.nl +:+ "}"]
           end in
      Some (prefixLines (cv_prefixes cv) +:+ Js.nl +:+ Js.join (";" +:+ Js.nl) parts)
  end.

Definition successRow (source subject : string) : Row :=
  resultRow [("success", VBool true); ("source", VStr source); ("subject", VStr subject)].

(** [executeComplexUpdate(operation, condition)] *)
Definition executeComplexUpdate (operation : PodOperation) (condition : QueryCondition)
  : M (list Row) :=
  let table := op_table operation in
  let data := default [] (op_data operation) in
  let columnsToUpdate := filter (fun key => Obj.has (columns table) key) (Obj.keys data) in
  match columnsToUpdate with
  | [] => mret []
  | _ =>
      let '(containerUrl, resourceUrl) := resolveTableUrls table in
      _ ← ensureContainerExists containerUrl;
      _ ← ensureResourceExists resourceUrl false;
      subjects ← findSubjectsForCondition condition table resourceUrl;
      forEachM (fun subject =>
                  match buildUpdateQueryForSubject subject data table columnsToUpdate with
                  | None => mret None
                  | Some updateQuery =>
                      _ ← executeOnResource resourceUrl
                            {| sp_type := UPDATE; sp_query := Text updateQuery;
                               sp_prefixes := cv_prefixes cv |};
                      mret (Some (successRow resourceUrl subject))
                  end)
               subjects
  end.

(** [executeComplexDelete(operation, condition)] *)
Definition executeComplexDelete (operation : PodOperation) (condition : QueryCondition)
  : M (list Row) :=
  let table := op_table operation in
  let '(containerUrl, resourceUrl) := resolveTableUrls table in
  _ ← ensureContainerExists containerUrl;
  _ ← ensureResourceExists resourceUrl false;
  subjects ← findSubjectsForCondition condition table resourceUrl;
  forEachM (fun subject =>
              let deleteQuery :=
                prefixLines (cv_prefixes cv) +:+ Js.nl +:+ "DELETE WHERE {" +:+ Js.nl
                +:+ "  <" +:+ subject +:+ "> ?p ?o ." +:+ Js.nl +:+ "}" in
              _ ← executeOnResource resourceUrl
                    {| sp_type := DELETE; sp_query := Text deleteQuery;
                       sp_prefixes := cv_prefixes cv |};
              mret (Some (successRow resourceUrl subject)))
           subjects.

End Dialect.

Section Insert.
Context `{JsHost}.

(** The ids that occur a second time, in [convertInsert]'s scan. *)
Fixpoint duplicateIds (seen : list JsValue) (values : list JsObject) : list JsValue :=
  match values with
  | [] => []
  | record :: rest =>
      let id := Obj.prop record "id" in
      if Value.truthy id then
        if Value.includes seen id then id :: duplicateIds seen rest
        else duplicateIds (id :: seen) rest
      else duplicateIds seen rest
  end.

(** [buildInsertTriples(values, table)] *)
Definition buildInsertTriples (cv : Converter) (values : list JsObject) (table : PodTable)
  : list (Term * Term * Term) :=
  values ≫= fun record =>
    let subject := NamedNode (generateSubjectUri cv record table) in
    (subject, NamedNode rdfType, NamedNode (rdfClass (config table)))
    :: omap (fun '(columnName, value) =>
               if String.eqb columnName "id" || Value.isNullish value then None
               else
                 column ← getColumn table columnName;
                 Some (subject,
                       NamedNode (getPredicateForColumn (columnObject column) table),
                       buildLiteralTerm value))
            record.

(** [convertInsert(values, table)] *)
Definition convertInsert (cv : Converter) (values : list JsObject) (table : PodTable)
  : Res SPARQLQuery :=
  match duplicateIds [] values with
  | (_ :: _) as duplicates =>
      Throw ("Duplicate IDs found in insert data: "
             +:+ Js.join ", " (Value.toString <$> duplicates))
  | [] =>
      Ok {| sp_type := INSERT;
            sp_query := GeneratedInsert (buildInsertTriples cv values table);
            sp_prefixes := cv_prefixes cv |}
  end.
End Insert.

Definition notFoundRow (source : string) : Row :=
  resultRow [("success", VBool true); ("source", VStr source);
             ("status", VNum (PrimFloat.of_uint63 404))].

Section Query.
Context `{JsHost}.
Variable w : World.
Variable cv : Converter.

(** What a case of [query]'s switch leaves: a result returned from inside
    the case, or the statement to run. *)
Definition insertCase (operation : PodOperation) (containerUrl resourceUrl : string)
  : M (list Row + SPARQLQuery) :=
  match op_values operation with
  | Some (ManyRows []) => throw "INSERT operation requires at least one value"
  | Some payload =>
      let values := match payload with ManyRows l => l | OneRow r => [r] end in
      _ ← ensureContainerExists w containerUrl;
      _ ← ensureResourceExists w resourceUrl true;
      canInsert ← checkResourceExistence w cv values (op_table operation) resourceUrl;
      if canInsert : bool then
        q ← liftRes (convertInsert cv values (op_table operation));
        mret (inr q)
      else throw "Resource already exists, INSERT aborted"
  | None =>
      (* [[undefined]]: reading [record.id] fails once the resource has
         been fetched *)
      _ ← ensureContainerExists w containerUrl;
      _ ← ensureResourceExists w resourceUrl true;
      _ ← checkResourceExistence w cv [] (op_table operation) resourceUrl;
      throw "TypeError: Cannot read properties of undefined (reading 'id')"
  end.

Definition updateCase (operation : PodOperation) (containerUrl resourceUrl : string)
  : M (list Row + SPARQLQuery) :=
  match op_data operation with
  | None => throw "UPDATE operation requires data"
  | Some data =>
      match op_where operation with
      | None | Some (WhereMap []) =>
          throw "UPDATE operation requires where conditions to locate target resources"
      | Some whereArg =>
          _ ← ensureContainerExists w containerUrl;
          _ ← ensureResourceExists w resourceUrl false;
          match whereArg with
          | WhereTree condition =>
              rows ← executeComplexUpdate w cv operation condition;
              mret (inl rows)
          | WhereMap m => mret (inr (convertUpdate cv data m (op_table operation)))
          end
      end
  end.

Definition deleteCase (operation : PodOperation) (containerUrl resourceUrl : string)
  : M (list Row + SPARQLQuery) :=
  _ ← ensureContainerExists w containerUrl;
  hasResource ← resourceExists w resourceUrl;
  if hasResource : bool then
    mret (inr (convertDelete cv (whereRecord <$> op_where operation) (op_table operation)))
  else mret (inl [notFoundRow resourceUrl]).

Definition selectCase (operation : PodOperation) : M (list Row + SPARQLQuery) :=
  q ← liftRes (convertSelect cv
                 {| ast_select := op_select operation;
                    ast_where := op_where operation;
                    ast_limit := op_limit operation;
                    ast_offset := op_offset operation;
                    ast_orderBy := op_orderBy operation;
                    ast_distinct := op_distinct operation |}
                 (op_table operation));
  mret (inr q).

(** [PodDialect.query(operation)] *)
Definition query (operation : PodOperation) : M (list Row) :=
  _ ← connect w cv;
  let '(containerUrl, resourceUrl) := resolveTableUrls cv (op_table operation) in
  step ←
    match op_type operation with
    | OpSelect => selectCase operation
    | OpInsert => insertCase operation containerUrl resourceUrl
    | OpUpdate => updateCase operation containerUrl resourceUrl
    | OpDelete => deleteCase operation containerUrl resourceUrl
    end;
  match step with
  | inl results => mret results
  | inr sparqlQuery => executeOnResource w resourceUrl sparqlQuery
  end.

(* ------------------------------------------------------------------- *)
(** ** pod-session.ts: the session *)

(** [PodAsyncSession.execute(operation)]: a typed operation passes the
    three validity tests. *)
Definition session_execute (operation : PodOperation) : M (list Row) := query operation.

Definition blankOperation (type : OpType) (table : PodTable) : PodOperation :=
  {| op_type := type; op_table := table; op_data := None; op_where := None;
     op_select := None; op_values := None; op_limit := None; op_offset := None;
     op_orderBy := None; op_distinct := false |}.

(** [PodAsyncSession.executeComplexUpdate(table, data, condition)] *)
Definition session_executeComplexUpdate (table : PodTable) (data : JsObject)
    (condition : QueryCondition) : M (list Row) :=
  executeComplexUpdate w cv
    {| op_type := OpUpdate; op_table := table; op_data := Some data;
       op_where := Some (WhereTree condition); op_select := None; op_values := None;
       op_limit := None; op_offset := None; op_orderBy := None; op_distinct := false |}
    condition.

(** [PodAsyncSession.executeComplexDelete(table, condition)] *)
Definition session_executeComplexDelete (table : PodTable) (condition : QueryCondition)
  : M (list Row) :=
  executeComplexDelete w cv
    {| op_type := OpDelete; op_table := table; op_data := None;
       op_where := Some (WhereTree condition); op_select := None; op_values := None;
       op_limit := None; op_offset := None; op_orderBy := None; op_distinct := false |}
    condition.

(* ------------------------------------------------------------------- *)
(** ** pod-session.ts: the insert, update and delete builders *)

Record InsertQueryBuilder := {
  ib_table : PodTable;
  insertValues : option InsertValues;
}.

(** [db.insert(table)] *)
Definition insert (table : PodTable) : InsertQueryBuilder :=
  {| ib_table := table; insertValues := None |}.

(** [.values(values)] *)
Definition values (v : InsertValues) (b : InsertQueryBuilder) : InsertQueryBuilder :=
  {| ib_table := ib_table b; insertValues := Some v |}.

(** [InsertQueryBuilder.execute()]: an array, even an empty one, is truthy. *)
Definition insert_execute (b : InsertQueryBuilder) : M (list Row) :=
  match insertValues b with
  | Some v =>
      session_execute
        {| op_type := OpInsert; op_table := ib_table b; op_data := None; op_where := None;
           op_select := None; op_values := Some v; op_limit := None; op_offset := None;
           op_orderBy := None; op_distinct := false |}
  | None => throw "No values specified for INSERT query"
  end.

(** The state the update and the delete builder share. *)
Record WhereState := {
  whereConditions : option JsObject;
  conditionTree : option QueryCondition;
}.

(** [convertQueryConditionToSimple] of [UpdateQueryBuilder] and of
    [DeleteQueryBuilder] (the two are the same text). *)
Definition convertQueryConditionToSimple (condition : QueryCondition) : JsObject :=
  match qc_type condition, truthyStr (qc_column condition), qc_value condition with
  | binary_expr, Some column, VUndefined => []
  | binary_expr, Some column, value => [(column, value)]
  | _, _, _ => []
  end.

(** [.where(conditions)] of the two builders. *)
Definition whereOf (conditions : WhereArg) : WhereState :=
  match conditions with
  | WhereTree c =>
      let simple := convertQueryConditionToSimple c in
      {| conditionTree := Some c;
         whereConditions := match simple with [] => None | _ => Some simple end |}
  | WhereMap m => {| whereConditions := Some m; conditionTree := None |}
  end.

(** [this.whereConditions ?? this.conditionTree] *)
Definition wherePayloadOf (ws : WhereState) : option WhereArg :=
  match whereConditions ws with
  | Some m => Some (WhereMap m)
  | None => WhereTree <$> conditionTree ws
  end.

(** [this.conditionTree && (!this.whereConditions ||
     Object.keys(this.whereConditions).length === 0)]: the tree to hand
    to the complex path. *)
Definition complexTree (ws : WhereState) : option QueryCondition :=
  match conditionTree ws, whereConditions ws with
  | Some tree, (None | Some []) => Some tree
  | _, _ => None
  end.

Record UpdateQueryBuilder := {
  ub_table : PodTable;
  updateData : option JsObject;
  ub_where : WhereState;
}.

(** [db.update(table)] *)
Definition update (table : PodTable) : UpdateQueryBuilder :=
  {| ub_table := table; updateData := None;
     ub_where := {| whereConditions := None; conditionTree := None |} |}.

(** [.set(data)] *)
Definition set (data : JsObject) (b : UpdateQueryBuilder) : UpdateQueryBuilder :=
  {| ub_table := ub_table b; updateData := Some data; ub_where := ub_where b |}.

(** [.where(conditions)] *)
Definition update_where (conditions : WhereArg) (b : UpdateQueryBuilder) : UpdateQueryBuilder :=
  {| ub_table := ub_table b; updateData := updateData b; ub_where := whereOf conditions |}.

(** [UpdateQueryBuilder.execute()] *)
Definition update_execute (b : UpdateQueryBuilder) : M (list Row) :=
  match updateData b with
  | Some data =>
      match complexTree (ub_where b) with
      | Some tree => session_executeComplexUpdate (ub_table b) data tree
      | None =>
          session_execute
            {| op_type := OpUpdate; op_table := ub_table b; op_data := Some data;
               op_where := wherePayloadOf (ub_where b); op_select := None;
               op_values := None; op_limit := None; op_offset := None;
               op_orderBy := None; op_distinct := false |}
      end
  | None => throw "No data specified for UPDATE query"
  end.

Record DeleteQueryBuilder := {
  db_table : PodTable;
  db_where : WhereState;
}.

(** [db.delete(table)] *)
Definition delete_ (table : PodTable) : DeleteQueryBuilder :=
  {| db_table := table; db_where := {| whereConditions := None; conditionTree := None |} |}.

Definition delete_where (conditions : WhereArg) (b : DeleteQueryBuilder) : DeleteQueryBuilder :=
  {| db_table := db_table b; db_where := whereOf conditions |}.

(** [DeleteQueryBuilder.execute()] *)
Definition delete_execute (b : DeleteQueryBuilder) : M (list Row) :=
  match complexTree (db_where b) with
  | Some tree => session_executeComplexDelete (db_table b) tree
  | None =>
      session_execute
        {| op_type := OpDelete; op_table := db_table b; op_data := None;
           op_where := wherePayloadOf (db_where b); op_select := None;
           op_values := None; op_limit := None; op_offset := None;
           op_orderBy := None; op_distinct := false |}
  end.

End Query.

(* ===================================================================== *)
(** * pod-session.ts: the select builder *)
(* ===================================================================== *)

Inductive JoinType := leftJoin | rightJoin | innerJoin | fullJoin.

Definition joinTypeName (t : JoinType) : string :=
  match t with
  | leftJoin => "leftJoin" | rightJoin => "rightJoin"
  | innerJoin => "innerJoin" | fullJoin => "fullJoin"
  end.

Record ColumnReference := {
  cr_table : PodTable;
  cr_alias : string;
  cr_column : string;
}.

Record ResolvedJoinCondition := {
  jc_left : ColumnReference;
  jc_right : ColumnReference;
}.

(** What [resolveColumnReference] may be handed: a column, a string, or
    anything else. *)
Inductive FieldRef :=
| RefColumn (h : ColumnHandle)
| RefName (s : string)
| RefOther (v : JsValue).

Definition fieldRefOf (c : ColumnArg) : FieldRef :=
  match c with ByColumn h => RefColumn h | ByName s => RefName s end.

(** The [condition] argument of a join: an object mapping a key to a column
    reference, in the order of [Object.entries], or a value that is not an
    object. *)
Inductive JoinConditionArg :=
| JoinNotObject (v : JsValue)
| JoinObject (entries : list (string * FieldRef)).

Record JoinEntry := {
  j_type : JoinType;
  j_table : PodTable;
  j_alias : string;
  rawCondition : JoinConditionArg;
  resolvedConditions : list ResolvedJoinCondition;
}.

Record SelectQueryBuilder := {
  selectedTable : option PodTable;
  sb_whereConditions : option JsObject;
  sb_conditionTree : option QueryCondition;
  joins : list JoinEntry;
  limitCount : option float;
  offsetCount : option float;
  orderByClauses : list (string * Direction);
  isDistinct : bool;
  selectedFields : option (list (string * SelectField));
  (** [Map<PodTable, string>], keyed by the table object *)
  tableAliases : gmap nat string;
  aliasToTable : gmap string PodTable;
  aliasUsage : gmap string nat;
  primaryAlias : option string;
  joinFilters : list QueryCondition;
  groupByColumns : list ColumnReference;
}.

(** [session.select(fields)] *)
Definition select (fields : option (list (string * SelectField))) : SelectQueryBuilder :=
  {| selectedTable := None; sb_whereConditions := None; sb_conditionTree := None;
     joins := []; limitCount := None; offsetCount := None; orderByClauses := [];
     isDistinct := false; selectedFields := fields; tableAliases := ∅;
     aliasToTable := ∅; aliasUsage := ∅; primaryAlias := None; joinFilters := [];
     groupByColumns := [] |}.

(** The builder's methods: they mutate the builder, and return or throw. *)
Abbreviation B := (SR SelectQueryBuilder).

Definition modify {S} (f : S → S) : SR S unit := fun st => (Ok (), f st).

(** [for (const x of l) ...] and [l.map(f)] with a body in the monad. *)
Fixpoint mapM {S A C} (f : A → SR S C) (l : list A) : SR S (list C) :=
  match l with
  | [] => mret []
  | x :: rest =>
      y ← f x;
      ys ← mapM f rest;
      mret (y :: ys)
  end.

Definition setAliases (ta : gmap nat string) (at_ : gmap string PodTable)
      (au : gmap string nat) (b : SelectQueryBuilder) : SelectQueryBuilder :=
    {| selectedTable := selectedTable b; sb_whereConditions := sb_whereConditions b;
       sb_conditionTree := sb_conditionTree b; joins := joins b;
       limitCount := limitCount b; offsetCount := offsetCount b;
       orderByClauses := orderByClauses b; isDistinct := isDistinct b;
       selectedFields := selectedFields b; tableAliases := ta; aliasToTable := at_;
       aliasUsage := au; primaryAlias := primaryAlias b; joinFilters := joinFilters b;
       groupByColumns := groupByColumns b |}.

Definition setTable (t : PodTable) (alias : string) (b : SelectQueryBuilder) : SelectQueryBuilder :=
    {| selectedTable := Some t; sb_whereConditions := sb_whereConditions b;
       sb_conditionTree := sb_conditionTree b; joins := joins b;
       limitCount := limitCount b; offsetCount := offsetCount b;
       orderByClauses := orderByClauses b; isDistinct := isDistinct b;
       selectedFields := selectedFields b; tableAliases := tableAliases b;
       aliasToTable := aliasToTable b; aliasUsage := aliasUsage b;
       primaryAlias := Some alias; joinFilters := joinFilters b;
       groupByColumns := groupByColumns b |}.

Definition setJoins (js : list JoinEntry) (b : SelectQueryBuilder) : SelectQueryBuilder :=
    {| selectedTable := selectedTable b; sb_whereConditions := sb_whereConditions b;
       sb_conditionTree := sb_conditionTree b; joins := js;
       limitCount := limitCount b; offsetCount := offsetCount b;
       orderByClauses := orderByClauses b; isDistinct := isDistinct b;
       selectedFields := selectedFields b; tableAliases := tableAliases b;
       aliasToTable := aliasToTable b; aliasUsage := aliasUsage b;
       primaryAlias := primaryAlias b; joinFilters := joinFilters b;
       groupByColumns := groupByColumns b |}.

Definition setWheres (wc : option JsObject) (ct : option QueryCondition)
      (jf : list QueryCondition) (b : SelectQueryBuilder) : SelectQueryBuilder :=
    {| selectedTable := selectedTable b; sb_whereConditions := wc;
       sb_conditionTree := ct; joins := joins b;
       limitCount := limitCount b; offsetCount := offsetCount b;
       orderByClauses := orderByClauses b; isDistinct := isDistinct b;
       selectedFields := selectedFields b; tableAliases := tableAliases b;
       aliasToTable := aliasToTable b; aliasUsage := aliasUsage b;
       primaryAlias := primaryAlias b; joinFilters := jf;
       groupByColumns := groupByColumns b |}.

Definition setModifiers (lim off : option float) (ord : list (string * Direction))
      (dis : bool) (gb : list ColumnReference) (fields : option (list (string * SelectField)))
      (b : SelectQueryBuilder) : SelectQueryBuilder :=
    {| selectedTable := selectedTable b; sb_whereConditions := sb_whereConditions b;
       sb_conditionTree := sb_conditionTree b; joins := joins b;
       limitCount := lim; offsetCount := off;
       orderByClauses := ord; isDistinct := dis;
       selectedFields := fields; tableAliases := tableAliases b;
       aliasToTable := aliasToTable b; aliasUsage := aliasUsage b;
       primaryAlias := primaryAlias b; joinFilters := joinFilters b;
       groupByColumns := gb |}.

(** [ensureAliasForTable(table)] *)
Definition ensureAliasForTable (table : PodTable) : B string := fun b =>
  match truthyStr (tableAliases b !! tbl_ref table) with
  | Some existing => (Ok existing, b)
  | None =>
      let baseName := orElse (tbl_name (config table)) "table" in
      let usage := default 0 (aliasUsage b !! baseName) in
      let nextUsage := S usage in
      let alias := if (usage =? 0)%nat then baseName else baseName +:+ "_" +:+ pretty nextUsage in
      (Ok alias,
       setAliases (<[tbl_ref table := alias]> (tableAliases b))
                    (<[alias := table]> (aliasToTable b))
                    (<[baseName := nextUsage]> (aliasUsage b)) b)
  end.

(** [parseColumnReferenceString(reference)]: [{ alias?, column }] *)
Definition parseColumnReferenceString (reference : string) : option string * string :=
  let trimmed := Js.trim reference in
  if negb (Js.includesChar "."%char trimmed) then (None, trimmed)
  else
    match Js.splitDot2 trimmed with
    | [alias; column] => (Some alias, column)
    | _ => (None, trimmed)
    end.

(** [resolveColumnReference(field)] (no caller passes a fallback alias). *)
Definition resolveColumnReference (field : FieldRef) : B ColumnReference :=
  match field with
  | RefColumn h =>
      match ch_table h with
      | None => throw ("Column " +:+ col_name (ch_column h) +:+ " is not associated with a table")
      | Some table =>
          alias ← ensureAliasForTable table;
          mret {| cr_table := table; cr_alias := alias; cr_column := col_name (ch_column h) |}
      end
  | RefName field =>
      let '(parsedAlias, column) := parseColumnReferenceString field in
      b ← getState;
      let alias := match parsedAlias with Some a => Some a | None => primaryAlias b end in
      match truthyStr alias with
      | None =>
          throw ("Unable to resolve table alias for column reference " +:+ Js.dq +:+ field +:+ Js.dq)
      | Some alias =>
          match aliasToTable b !! alias with
          | None =>
              throw ("Unknown table alias " +:+ Js.dq +:+ alias +:+ Js.dq
                     +:+ " in column reference " +:+ Js.dq +:+ field +:+ Js.dq)
          | Some table => mret {| cr_table := table; cr_alias := alias; cr_column := column |}
          end
      end
  | RefOther _ => throw "Unsupported column reference type"
  end.

(** [resolveJoinConditions(condition, joinAlias)] *)
Definition resolveJoinConditions (condition : JoinConditionArg) (joinAlias : string)
  : B (list ResolvedJoinCondition) :=
  match condition with
  | JoinNotObject _ => throw "JOIN condition must be an object mapping columns"
  | JoinObject [] => throw "JOIN condition cannot be empty"
  | JoinObject entries =>
      mapM (fun '(leftKey, rightKey) =>
              leftRef ← resolveColumnReference (RefName leftKey);
              rightRef ← resolveColumnReference rightKey;
              if negb (String.eqb (cr_alias leftRef) joinAlias)
                 && negb (String.eqb (cr_alias rightRef) joinAlias)
              then throw "JOIN condition must reference the joined table in at least one side"
              else mret {| jc_left := leftRef; jc_right := rightRef |})
           entries
  end.

(** [addJoin(type, table, condition)] *)
Definition addJoin (type : JoinType) (table : PodTable) (condition : JoinConditionArg) : B unit :=
  match type with
  | rightJoin | fullJoin => throw (joinTypeName type +:+ " is not yet supported in Solid dialect")
  | _ =>
      alias ← ensureAliasForTable table;
      resolved ← resolveJoinConditions condition alias;
      modify (fun b =>
                setJoins (joins b ++ [{| j_type := type; j_table := table; j_alias := alias;
                                           rawCondition := condition;
                                           resolvedConditions := resolved |}]) b)
  end.

Definition leftJoin_ table condition := addJoin leftJoin table condition.
Definition rightJoin_ table condition := addJoin rightJoin table condition.
Definition innerJoin_ table condition := addJoin innerJoin table condition.
Definition fullJoin_ table condition := addJoin fullJoin table condition.

(** [.from(table)] *)
Definition from (table : PodTable) : B unit :=
  alias ← ensureAliasForTable table;
  modify (setTable table alias).

(** [createConditionFromLiteral(alias, column, value)] *)
Definition createConditionFromLiteral (alias column : string) (value : JsValue) : QueryCondition :=
  match value with
  | VUndefined | VNull =>
      Cond unary_expr "IS NULL" (LeftColumn column) None (Some column) VUndefined None (Some alias)
  | VArr _ =>
      Cond binary_expr "IN" (LeftColumn column) (Some value) (Some column) value None (Some alias)
  | _ =>
      Cond binary_expr "=" (LeftColumn column) (Some value) (Some column) value None (Some alias)
  end.

(** [result[key] = value] on an object kept in insertion order. *)
Fixpoint assign (o : JsObject) (key : string) (value : JsValue) : JsObject :=
  match o with
  | [] => [(key, value)]
  | (k, v) :: rest =>
      if String.eqb k key then (k, value) :: rest else (k, v) :: assign rest key value
  end.

(** [convertQueryConditionToSimple] of [SelectQueryBuilder]. *)
Fixpoint select_convertQueryConditionToSimple (condition : QueryCondition) : JsObject :=
  match condition with
  | Cond binary_expr operator _ _ column value _ _ =>
      match truthyStr column, value with
      | Some column, VUndefined => []
      | Some column, _ => if String.eqb operator "=" then [(column, value)] else []
      | None, _ => []
      end
  | Cond logical_expr operator _ _ _ _ (Some children) _ =>
      if String.eqb operator "AND" then
        (fix each (l : list QueryCondition) (result : JsObject) : JsObject :=
           match l with
           | [] => result
           | child :: more =>
               match select_convertQueryConditionToSimple child with
               | [] => []
               | childResult =>
                   each more (fold_left (fun acc '(key, value) => assign acc key value)
                                        childResult result)
               end
           end) children []
      else []
  | _ => []
  end.

(** [processQueryCondition(condition)] *)
Definition processQueryCondition (condition : QueryCondition) : B unit :=
  modify (fun b =>
    match truthyStr (qc_table condition) with
    | Some table =>
        if bool_decide (Some table ≠ primaryAlias b) then
          setWheres (sb_whereConditions b) (sb_conditionTree b) (joinFilters b ++ [condition]) b
        else
          let simple := select_convertQueryConditionToSimple condition in
          setWheres (match simple with [] => sb_whereConditions b | _ => Some simple end)
                      (Some condition) (joinFilters b) b
    | None =>
        let simple := select_convertQueryConditionToSimple condition in
        setWheres (match simple with [] => sb_whereConditions b | _ => Some simple end)
                    (Some condition) (joinFilters b) b
    end).

(** [processWhereObject(conditions)] *)
Definition processWhereObject (conditions : JsObject) : B unit :=
  modify (fun b =>
    let '(baseConditions, filters) :=
      fold_left
        (fun '(base, filters) '(rawKey, value) =>
           let '(alias, column) := parseColumnReferenceString rawKey in
           let targetAlias := match alias with Some a => Some a | None => primaryAlias b end in
           match truthyStr targetAlias with
           | Some target =>
               if bool_decide (Some target = primaryAlias b)
                  || negb (bool_decide (is_Some (aliasToTable b !! target)))
               then (assign base column value, filters)
               else (base, filters ++ [createConditionFromLiteral target column value])
           | None => (assign base column value, filters)
           end)
        conditions (default [] (sb_whereConditions b), joinFilters b) in
    setWheres (match baseConditions with [] => None | _ => Some baseConditions end)
                (sb_conditionTree b) filters b).

(** [.where(conditions)] *)
Definition where_ (conditions : WhereArg) : B unit :=
  match conditions with
  | WhereTree c => processQueryCondition c
  | WhereMap m => processWhereObject m
  end.

(** [Number.isInteger(count) && count >= 0] *)
Definition isNonNegativeInteger (count : float) : bool :=
  Js.numberIsInteger count && PrimFloat.leb PrimFloat.zero count.

(** [.limit(count)] *)
Definition limit (count : float) : B unit :=
  if isNonNegativeInteger count then
    modify (fun b => setModifiers (Some count) (offsetCount b) (orderByClauses b)
                                    (isDistinct b) (groupByColumns b) (selectedFields b) b)
  else throw "LIMIT must be a non-negative integer".

(** [.offset(count)] *)
Definition offset (count : float) : B unit :=
  if isNonNegativeInteger count then
    modify (fun b => setModifiers (limitCount b) (Some count) (orderByClauses b)
                                    (isDistinct b) (groupByColumns b) (selectedFields b) b)
  else throw "OFFSET must be a non-negative integer".

(** [.orderBy(column, direction)] *)
Definition orderBy (column : ColumnArg) (direction : Direction) : B unit :=
  let columnName := match column with ByName s => s | ByColumn h => col_name (ch_column h) end in
  if String.eqb columnName "" then throw "ORDER BY requires a valid column name"
  else
    modify (fun b => setModifiers (limitCount b) (offsetCount b)
                                    (orderByClauses b ++ [(columnName, direction)])
                                    (isDistinct b) (groupByColumns b) (selectedFields b) b).

(** [.distinct(enable)] *)
Definition distinct_ (enable : bool) : B unit :=
  modify (fun b => setModifiers (limitCount b) (offsetCount b) (orderByClauses b)
                                  enable (groupByColumns b) (selectedFields b) b).

(** [.groupBy(...fields)] *)
Definition groupBy (fields : list ColumnArg) : B unit :=
  refs ← mapM (fun field => resolveColumnReference (fieldRefOf field)) fields;
  modify (fun b => setModifiers (limitCount b) (offsetCount b) (orderByClauses b)
                                  (isDistinct b) (groupByColumns b ++ refs) (selectedFields b) b).

(** [.columns(fields)] *)
Definition columns_ (fields : list (string * SelectField)) : B unit :=
  modify (fun b => setModifiers (limitCount b) (offsetCount b) (orderByClauses b)
                                  (isDistinct b) (groupByColumns b) (Some fields) b).

(* ===================================================================== *)
(** * pod-session.ts: the in-memory fallback *)
(* ===================================================================== *)

(** [row[key]], [undefined] when the key is absent: the own keys of the
    row.  This is [row[key]] for every key but the few that every object
    inherits ([inheritedNames], below). *)
Definition rowGet (row : Row) (key : string) : JsValue := default VUndefined (row !! key).

(** [`${alias}.${column}`] *)
Definition qualified (alias column : string) : string := alias +:+ "." +:+ column.

(** [values.length] as a number. *)
Definition lengthNumber {A} (l : list A) : float :=
  PrimFloat.of_uint63 (Uint63.of_Z (Z.of_nat (length l))).

(** [Math.min(a, b)] and [Math.max(a, b)] on numbers that are not [NaN]:
    the negative zero is below the positive one. *)
Definition mathMin2 (x y : float) : float :=
  if PrimFloat.ltb y x then y
  else if PrimFloat.ltb x y then x
  else if PrimFloat.get_sign y then y else x.
Definition mathMax2 (x y : float) : float :=
  if PrimFloat.ltb x y then y
  else if PrimFloat.ltb y x then x
  else if PrimFloat.get_sign y then x else y.

(** [Math.min(...values)] and [Math.max(...values)] *)
Definition mathMin (values : list float) : float := fold_left mathMin2 values PrimFloat.infinity.
Definition mathMax (values : list float) : float := fold_left mathMax2 values PrimFloat.neg_infinity.

(** [values.reduce((acc, value) => acc + value, 0)] *)
Definition sumNumbers (values : list float) : float := fold_left PrimFloat.add values PrimFloat.zero.

Section Fallback.
Context `{JsHost}.

(** [getColumnKeyCandidates(column)] *)
Definition getColumnKeyCandidates (primary : option string) (column : ColumnReference)
  : list string :=
  (if bool_decide (Some (cr_alias column) = primary) then [cr_column column] else [])
  ++ [qualified (cr_alias column) (cr_column column)].

(** [getRowValueForColumn(row, column)], with [key in row] read on the own
    keys of the row: so for every column whose name is not one of
    [inheritedNames] (the qualified candidate has a dot and is none). *)
Definition getRowValueForColumn (primary : option string) (row : Row)
    (column : ColumnReference) : JsValue :=
  match List.find (fun key => bool_decide (is_Some (row !! key)))
                  (getColumnKeyCandidates primary column) with
  | Some key => rowGet row key
  | None => VUndefined
  end.

(** [serializeValueForKey(value)] *)
Definition serializeValueForKey (value : JsValue) : string :=
  match value with
  | VNull => "null"
  | VArr _ | VObj _ => JSON_stringify value
  | _ => Value.toString value
  end.

(** The values whose key has not been seen, in their order. *)
Fixpoint dedupByKey {A} (key : A → string) (seen : gset string) (l : list A) : list A :=
  match l with
  | [] => []
  | x :: rest =>
      if bool_decide (key x ∈ seen) then dedupByKey key seen rest
      else x :: dedupByKey key ({[key x]} ∪ seen) rest
  end.

(** [collectValuesForCount(column, rows, distinct)] *)
Definition collectValuesForCount (primary : option string) (column : ColumnReference)
    (rows : list Row) (distinct : bool) : list JsValue :=
  let values :=
    filter (fun value => negb (Value.isNullish value) = true)
           ((fun row => getRowValueForColumn primary row column) <$> rows) in
  if distinct then dedupByKey serializeValueForKey ∅ values else values.

(** The number of a row for [collectNumericValues]: none when the value
    is [undefined], [null] or not a number after [Number]. *)
Definition numericOfRow (primary : option string) (column : ColumnReference) (row : Row)
  : option float :=
  let rawValue := getRowValueForColumn primary row column in
  if Value.isNullish rawValue then None
  else
    let numeric := Value.toNumber rawValue in
    if PrimFloat.is_nan numeric then None else Some numeric.

(** [collectNumericValues(column, rows, distinct)] *)
Definition collectNumericValues (primary : option string) (column : ColumnReference)
    (rows : list Row) (distinct : bool) : list float :=
  let numbers := omap (numericOfRow primary column) rows in
  if distinct then dedupByKey (fun n => serializeValueForKey (VNum n)) ∅ numbers else numbers.

(** [countDistinctRows(rows)] *)
Definition countDistinctRows (rows : list Row) : nat :=
  size (list_to_set (C := gset string) (RowToJSON <$> rows)).

(** [resolveAggregateColumnRef(aggregate)] *)
Definition resolveAggregateColumnRef (aggregate : AggregateExpression)
  : B (option ColumnReference) :=
  match agg_column aggregate with
  | None | Some (ByName "") => mret None
  | Some column =>
      ref ← resolveColumnReference (fieldRefOf column);
      mret (Some ref)
  end.

Definition numberOfNat (n : nat) : JsValue :=
  VNum (PrimFloat.of_uint63 (Uint63.of_Z (Z.of_nat n))).

(** The switch of [computeAggregateValue] once the column is resolved. *)
Definition aggregateOver (primary : option string) (aggregate : AggregateExpression)
    (columnRef : option ColumnReference) (rows : list Row) : JsValue :=
  match columnRef with
  | None =>
      match func aggregate with
      | count =>
          if distinct aggregate then numberOfNat (countDistinctRows rows)
          else numberOfNat (length rows)
      | _ => VNull
      end
  | Some columnRef =>
      match func aggregate with
      | count =>
          numberOfNat (length (collectValuesForCount primary columnRef rows (distinct aggregate)))
      | sum =>
          match collectNumericValues primary columnRef rows (distinct aggregate) with
          | [] => VNull
          | values => VNum (sumNumbers values)
          end
      | avg =>
          match collectNumericValues primary columnRef rows (distinct aggregate) with
          | [] => VNull
          | values => VNum (PrimFloat.div (sumNumbers values) (lengthNumber values))
          end
      | min =>
          match collectNumericValues primary columnRef rows (distinct aggregate) with
          | [] => VNull
          | values => VNum (mathMin values)
          end
      | max =>
          match collectNumericValues primary columnRef rows (distinct aggregate) with
          | [] => VNull
          | values => VNum (mathMax values)
          end
      end
  end.

(** [computeAggregateValue(aggregate, rows)] *)
Definition computeAggregateValue (aggregate : AggregateExpression) (rows : list Row)
  : B JsValue :=
  columnRef ← resolveAggregateColumnRef aggregate;
  b ← getState;
  mret (aggregateOver (primaryAlias b) aggregate columnRef rows).

(** [buildAggregateRow(rows)] *)
Definition buildAggregateRow (rows : list Row) : B Row :=
  b ← getState;
  match selectedFields b with
  | None => mret ∅
  | Some fields =>
      entries ←
        mapM (fun '(alias, field) =>
                match field with
                | FieldAggregate aggregate =>
                    v ← computeAggregateValue aggregate rows;
                    mret (Some (alias, v))
                | _ => mret None
                end)
             fields;
      mret (list_to_map (rev (omap id entries)))
  end.

(** [resolveSelectFieldColumn(field)] *)
Definition resolveSelectFieldColumn (field : SelectField) : B (option ColumnReference) :=
  match field with
  | FieldColumn h => ref ← resolveColumnReference (RefColumn h); mret (Some ref)
  | FieldName s => ref ← resolveColumnReference (RefName s); mret (Some ref)
  | FieldAggregate _ => mret None
  end.

(** [ensureGroupByValidity()] *)
Definition ensureGroupByValidity : B unit :=
  b ← getState;
  match selectedFields b with
  | None => mret ()
  | Some fields =>
      let groupColumns :=
        (fun ref => qualified (cr_alias ref) (cr_column ref)) <$> groupByColumns b in
      _ ← mapM (fun '(_, field) =>
                  if isAggregateExpression field then mret ()
                  else
                    columnRef ← resolveSelectFieldColumn field;
                    match columnRef with
                    | None => mret ()
                    | Some ref =>
                        let identifier := qualified (cr_alias ref) (cr_column ref) in
                        if bool_decide (identifier ∈ groupColumns) then mret ()
                        else throw ("Column " +:+ identifier
                                    +:+ " must appear in GROUP BY clause when mixed with aggregates")
                    end)
               fields;
      mret ()
  end.

(** The key of a row's group: [JSON.stringify] of the serialized group
    values. *)
Definition groupKey (primary : option string) (groupBy : list ColumnReference) (row : Row)
  : string :=
  JSON_stringify
    (VArr ((fun ref => VStr (serializeValueForKey (getRowValueForColumn primary row ref)))
           <$> groupBy)).

(** The [Map] of groups, in the order the keys first occur; the first row
    of a group is the head of its rows. *)
Fixpoint addToGroup (key : string) (row : Row) (groups : list (string * list Row))
  : list (string * list Row) :=
  match groups with
  | [] => [(key, [row])]
  | (k, rows) :: rest =>
      if String.eqb k key then (k, rows ++ [row]) :: rest
      else (k, rows) :: addToGroup key row rest
  end.

Definition groupRows (primary : option string) (groupBy : list ColumnReference)
    (rows : list Row) : list (string * list Row) :=
  fold_left (fun groups row => addToGroup (groupKey primary groupBy row) row groups) rows [].

(** [buildGroupedAggregateRows(rows)] *)
Definition buildGroupedAggregateRows (rows : list Row) : B (list Row) :=
  b ← getState;
  match selectedFields b with
  | None => mret rows
  | Some fields =>
      _ ← ensureGroupByValidity;
      b ← getState;
      let groups := groupRows (primaryAlias b) (groupByColumns b) rows in
      mapM (fun '(_, groupRows) =>
              aggregateValues ← buildAggregateRow groupRows;
              entries ←
                mapM (fun '(key, field) =>
                        if isAggregateExpression field then
                          mret (key, rowGet aggregateValues key)
                        else
                          columnRef ← resolveSelectFieldColumn field;
                          b ← getState;
                          mret (key,
                                match columnRef, groupRows with
                                | Some ref, first :: _ =>
                                    getRowValueForColumn (primaryAlias b) first ref
                                | _, _ => VUndefined
                                end))
                     fields;
              mret (list_to_map (rev entries) : Row))
           groups
  end.

(** The first row of each group, for a [groupBy] without a select list. *)
Fixpoint firstOfEachGroup (primary : option string) (groupBy : list ColumnReference)
    (seen : gset string) (rows : list Row) : list Row :=
  match rows with
  | [] => []
  | row :: rest =>
      let key := groupKey primary groupBy row in
      if bool_decide (key ∈ seen) then firstOfEachGroup primary groupBy seen rest
      else row :: firstOfEachGroup primary groupBy ({[key]} ∪ seen) rest
  end.

(** [handleAggregateFallback(rows)] *)
Definition handleAggregateFallback (rows : list Row) : B (list Row) :=
  b ← getState;
  match selectedFields b, groupByColumns b with
  | None, [] => mret rows
  | None, groupBy => mret (firstOfEachGroup (primaryAlias b) groupBy ∅ rows)
  | Some _, [] => row ← buildAggregateRow rows; mret [row]
  | Some _, _ => buildGroupedAggregateRows rows
  end.

(** [hasMixedAggregateSelection()] *)
Definition hasMixedAggregateSelection (b : SelectQueryBuilder) : bool :=
  match selectedFields b with
  | None => false
  | Some fields =>
      existsb (fun '(_, f) => isAggregateExpression f) fields
      && existsb (fun '(_, f) => negb (isAggregateExpression f)) fields
  end.

(** [shouldUseAggregateFallback()] *)
Definition shouldUseAggregateFallback (b : SelectQueryBuilder) : bool :=
  match groupByColumns b with
  | _ :: _ => true
  | [] =>
      match selectedFields b with
      | None | Some [] => false
      | Some fields => forallb (fun '(_, f) => isAggregateExpression f) fields
      end
  end.

(** [resolveFieldBindingCandidates(alias, field)] *)
Definition resolveFieldBindingCandidates (alias : string) (field : SelectField)
  : B (list string) :=
  match field with
  | FieldName field =>
      let '(refAlias, column) := parseColumnReferenceString field in
      mret ([alias; field; column]
            ++ match truthyStr refAlias with
               | Some a => [qualified a column]
               | None => []
               end)
  | FieldColumn h =>
      columnRef ← resolveColumnReference (RefColumn h);
      mret [alias; col_name (ch_column h); qualified (cr_alias columnRef) (cr_column columnRef)]
  | FieldAggregate _ => mret [alias]
  end.

(** [projectSelectedRow(row)] *)
Definition projectSelectedRow (row : Row) : B Row :=
  b ← getState;
  match selectedFields b with
  | None => mret row
  | Some fields =>
      entries ←
        mapM (fun '(key, field) =>
                if isAggregateExpression field then mret (key, rowGet row key)
                else
                  candidates ← resolveFieldBindingCandidates key field;
                  match List.find (fun candidate =>
                                     negb (Value.isUndefined (rowGet row candidate)))
                                  candidates with
                  | Some candidate => mret (key, rowGet row candidate)
                  | None => mret (key, rowGet row key)
                  end)
             fields;
      mret (list_to_map (rev entries))
  end.

(** The subject of a row for the normalisers: a string to take the id
    from, nothing when the value is falsy, a [TypeError] when it is
    truthy and has no [match] method. *)
Definition subjectValue (row : Row) : Res (option string) :=
  match rowGet row "subject" with
  | VStr s => Ok (truthyStr (Some s))
  | v => if Value.truthy v then Throw "TypeError: subject.match is not a function" else Ok None
  end.

(** [`${alias}.${key}`] for every entry of the row. *)
Definition qualifyEntries (alias : string) (row : Row) : Row :=
  list_to_map ((fun '(key, value) => (qualified alias key, value)) <$> map_to_list row).

(** One row of [normalizeBaseRows]. *)
Definition normalizeBaseRow (alias : string) (row : Row) : Res Row :=
  subject ← subjectValue row;
  let result := qualifyEntries alias row ∪ row in
  mret (match subject with
        | None => result
        | Some subjectValue =>
            let result := <[qualified alias "subject" := VStr subjectValue]> result in
            match extractIdFromSubject (Some subjectValue) with
            | None => result
            | Some derivedId =>
                let result :=
                  if Value.isUndefined (rowGet result "id")
                  then <["id" := VStr derivedId]> result else result in
                <[qualified alias "id" := VStr derivedId]> result
            end
        end).

(** [normalizeBaseRows(rows)] *)
Definition normalizeBaseRows (rows : list Row) : B (list Row) :=
  match rows with
  | [] => mret rows
  | _ =>
      b ← getState;
      alias ←
        match truthyStr (primaryAlias b), selectedTable b with
        | Some alias, _ => mret alias
        | None, Some table => ensureAliasForTable table
        | None, None => throw "TypeError: Cannot read properties of undefined (reading 'config')"
        end;
      liftRes (res_mapM (normalizeBaseRow alias) rows)
  end.

(** One row of [normalizeJoinRows]. *)
Definition normalizeJoinRow (alias : string) (row : Row) : Res Row :=
  subject ← subjectValue row;
  let normalized := qualifyEntries alias row in
  mret (match subject with
        | None => normalized
        | Some subjectValue =>
            let normalized := <[qualified alias "subject" := VStr subjectValue]> normalized in
            match extractIdFromSubject (Some subjectValue) with
            | None => normalized
            | Some id => <[qualified alias "id" := VStr id]> normalized
            end
        end).

(** [normalizeJoinRows(join, rows)] *)
Definition normalizeJoinRows (join : JoinEntry) (rows : list Row) : Res (list Row) :=
  res_mapM (normalizeJoinRow (j_alias join)) rows.

(** The two sides of the first condition: [(joinRef, baseRef)]. *)
Definition joinSides (join : JoinEntry) (primaryCondition : ResolvedJoinCondition)
  : ColumnReference * ColumnReference :=
  if String.eqb (cr_alias (jc_left primaryCondition)) (j_alias join)
  then (jc_left primaryCondition, jc_right primaryCondition)
  else (jc_right primaryCondition, jc_left primaryCondition).

(** [createEmptyJoinRow(join)] *)
Definition createEmptyJoinRow (join : JoinEntry) : Row :=
  <[qualified (j_alias join) "id" := VUndefined]>
    (<[qualified (j_alias join) "subject" := VUndefined]>
       (list_to_map ((fun columnName => (qualified (j_alias join) columnName, VUndefined))
                     <$> Obj.keys (columns (j_table join))))).

(** The [Map] from a join key to the joined rows that carry it. *)
Definition joinValueMap (primary : option string) (joinRef : ColumnReference)
    (joinRows : list Row) : gmap string (list Row) :=
  fold_left
    (fun m joinRow =>
       let value := getRowValueForColumn primary joinRow joinRef in
       if Value.isNullish value then m
       else
         let key := serializeValueForKey value in
         <[key := default [] (m !! key) ++ [joinRow]]> m)
    joinRows ∅.

(** [mergeRowsWithJoin(baseRows, join, joinRows)] *)
Definition mergeRowsWithJoin (primary : option string) (baseRows : list Row)
    (join : JoinEntry) (joinRows : list Row) : list Row :=
  match resolvedConditions join with
  | [] => baseRows
  | primaryCondition :: _ =>
      let '(joinRef, baseRef) := joinSides join primaryCondition in
      let valueMap := joinValueMap primary joinRef joinRows in
      baseRows ≫= fun baseRow =>
        let baseValue := getRowValueForColumn primary baseRow baseRef in
        let key := serializeValueForKey baseValue in
        let matches :=
          if Value.isNullish baseValue then [] else default [] (valueMap !! key) in
        match matches with
        | [] =>
            match j_type join with
            | innerJoin => []
            | _ => [createEmptyJoinRow join ∪ baseRow]
            end
        | _ => (fun match_ => match_ ∪ baseRow) <$> matches
        end
  end.

End Fallback.

(** The select builder's execution: it mutates the builder and drives the
    executor. *)
Abbreviation X := (SR (SelectQueryBuilder * DialectState)).

Definition liftB {A} (m : B A) : X A := fun st =>
  let '(r, b') := m st.1 in (r, (b', st.2)).
Definition liftM {A} (m : M A) : X A := fun st =>
  let '(r, d') := m st.2 in (r, (st.1, d')).

(** A computation of another builder, run against the same executor. *)
Definition runNested {A} (nested : SelectQueryBuilder) (m : X A) : X A := fun st =>
  let '(r, st') := m (nested, st.2) in (r, (st.1, st'.2)).

Section Execute.
Context `{JsHost}.
Variable w : World.
Variable cv : Converter.

(** [`${condition.table ?? this.primaryAlias}.${condition.column}`] *)
Definition conditionReference (b : SelectQueryBuilder) (condition : QueryCondition)
    (column : string) : string :=
  let alias :=
    match qc_table condition with
    | Some t => t
    | None => default "undefined" (primaryAlias b)
    end in
  qualified alias column.

(** The switch of [evaluateBinaryCondition]; it throws when the LIKE
    pattern is not a regular expression. *)
Definition compareBinary (operator : string) (value target : JsValue) : Res bool :=
  let operator := Js.toUpperCase operator in
  if String.eqb operator "=" then Ok (Value.strictEq value target)
  else if String.eqb operator "!=" || String.eqb operator "<>" then
    Ok (negb (Value.strictEq value target))
  else if String.eqb operator ">" then
    Ok (PrimFloat.ltb (Value.toNumber target) (Value.toNumber value))
  else if String.eqb operator ">=" then
    Ok (PrimFloat.leb (Value.toNumber target) (Value.toNumber value))
  else if String.eqb operator "<" then
    Ok (PrimFloat.ltb (Value.toNumber value) (Value.toNumber target))
  else if String.eqb operator "<=" then
    Ok (PrimFloat.leb (Value.toNumber value) (Value.toNumber target))
  else if String.eqb operator "IN" then
    Ok (match target with VArr items => Value.includes items value | _ => false end)
  else if String.eqb operator "NOT IN" then
    Ok (match target with VArr items => negb (Value.includes items value) | _ => false end)
  else if String.eqb operator "LIKE" then
    match value, target with
    | VStr v, VStr pattern =>
        match computeLikeMatch v pattern with
        | Some matched => Ok matched
        | None => Throw "SyntaxError: Invalid regular expression"
        end
    | _, _ => Ok false
    end
  else Ok true.

(** [evaluateCondition(row, condition)], with [evaluateBinaryCondition],
    [evaluateUnaryCondition] and [evaluateLogicalCondition] at their
    cases; [every] and [some] stop at the first child that decides. *)
Fixpoint evaluateCondition (row : Row) (condition : QueryCondition) {struct condition}
  : B bool :=
  match condition with
  | Cond binary_expr operator _ _ column value _ _ =>
      match truthyStr column with
      | None => mret true
      | Some column =>
          b ← getState;
          columnRef ← resolveColumnReference (RefName (conditionReference b condition column));
          liftRes (compareBinary operator
                     (getRowValueForColumn (primaryAlias b) row columnRef) value)
      end
  | Cond unary_expr operator lft _ column _ _ _ =>
      match truthyStr column with
      | None => mret true
      | Some column =>
          b ← getState;
          columnRef ← resolveColumnReference (RefName (conditionReference b condition column));
          let value := getRowValueForColumn (primaryAlias b) row columnRef in
          let operator := Js.toUpperCase operator in
          if String.eqb operator "IS NULL" then mret (Value.isNullish value)
          else if String.eqb operator "IS NOT NULL" then mret (negb (Value.isNullish value))
          else if String.eqb operator "NOT" then
            match lft with
            | LeftCond inner => r ← evaluateCondition row inner; mret (negb r)
            | LeftColumn _ => mret false
            | LeftNone => throw "TypeError: Cannot read properties of undefined (reading 'type')"
            end
          else mret true
      end
  | Cond logical_expr operator _ _ _ _ conditions _ =>
      let operator := Js.toUpperCase operator in
      let every :=
        (fix every (l : list QueryCondition) : B bool :=
           match l with
           | [] => mret true
           | child :: more =>
               r ← evaluateCondition row child;
               if r : bool then every more else mret false
           end) in
      let some :=
        (fix some (l : list QueryCondition) : B bool :=
           match l with
           | [] => mret false
           | child :: more =>
               r ← evaluateCondition row child;
               if r : bool then mret true else some more
           end) in
      match conditions with
      | Some children =>
          if String.eqb operator "AND" then every children
          else if String.eqb operator "OR" then some children
          else mret true
      | None =>
          if String.eqb operator "AND" then mret true
          else if String.eqb operator "OR" then mret false
          else mret true
      end
  end.

(** [this.joinFilters.every((condition) => this.evaluateCondition(row, condition))] *)
Fixpoint passesFilters (row : Row) (filters : list QueryCondition) : B bool :=
  match filters with
  | [] => mret true
  | condition :: more =>
      r ← evaluateCondition row condition;
      if r : bool then passesFilters row more else mret false
  end.

(** [applyJoinFilters(rows)] *)
Definition applyJoinFilters (rows : list Row) : B (list Row) :=
  b ← getState;
  match joinFilters b with
  | [] => mret rows
  | filters =>
      kept ← mapM (fun row =>
                     keep ← passesFilters row filters;
                     mret (if keep : bool then Some row else None))
                  rows;
      mret (omap id kept)
  end.

(** The operation [execute] starts from: everything but the select list. *)
Definition baseOperation (b : SelectQueryBuilder) (table : PodTable) : PodOperation :=
  {| op_type := OpSelect;
     op_table := table;
     op_data := None;
     op_where :=
       match sb_conditionTree b with
       | Some c => Some (WhereTree c)
       | None => WhereMap <$> sb_whereConditions b
       end;
     op_select := None;
     op_values := None;
     op_limit := limitCount b;
     op_offset := offsetCount b;
     op_orderBy := match orderByClauses b with [] => None | clauses => Some clauses end;
     op_distinct := isDistinct b |}.

Definition withSelect (fields : option (list (string * SelectField))) (o : PodOperation)
  : PodOperation :=
  {| op_type := op_type o; op_table := op_table o; op_data := op_data o;
     op_where := op_where o; op_select := fields; op_values := op_values o;
     op_limit := op_limit o; op_offset := op_offset o; op_orderBy := op_orderBy o;
     op_distinct := op_distinct o |}.

(** [applyJoinFallback(rows)] over a way to fetch the rows of a join. *)
Fixpoint applyJoinFallbackWith (fetchJoinRows : JoinEntry → list Row → X (list Row))
    (joinList : list JoinEntry) (combinedRows : list Row) : X (list Row) :=
  match joinList with
  | [] => mret combinedRows
  | join :: more =>
      joinRows ← fetchJoinRows join combinedRows;
      b ← liftB getState;
      applyJoinFallbackWith fetchJoinRows more
        (mergeRowsWithJoin (primaryAlias b) combinedRows join joinRows)
  end.

(** What [execute()] does in memory with the rows of the base select, on
    the path that has joins, grouping or only aggregates. *)
Definition fallbackSteps (fetchJoinRows : JoinEntry → list Row → X (list Row))
    (intermediateRows : list Row) : X (list Row) :=
  b ← liftB getState;
  intermediateRows ←
    match joins b with
    | [] => mret intermediateRows
    | joinList =>
        normalized ← liftB (normalizeBaseRows intermediateRows);
        joined ← applyJoinFallbackWith fetchJoinRows joinList normalized;
        liftB (applyJoinFilters joined)
    end;
  b ← liftB getState;
  if shouldUseAggregateFallback b then liftB (handleAggregateFallback intermediateRows)
  else
    match selectedFields b with
    | Some _ => liftB (mapM projectSelectedRow intermediateRows)
    | None => mret intermediateRows
    end.

(** [hasJoins || this.shouldUseAggregateFallback()]: the request cannot be
    handed to the engine as it is. *)
Definition requiresFallback (b : SelectQueryBuilder) : bool :=
  match joins b with [] => shouldUseAggregateFallback b | _ => true end.

(** [execute()], over a way to fetch the rows of a join. *)
Definition executeWith (fetchJoinRows : JoinEntry → list Row → X (list Row)) : X (list Row) :=
  b ← liftB getState;
  match selectedTable b with
  | None => throw "No table specified for SELECT query"
  | Some table =>
      let operation := baseOperation b table in
      if match groupByColumns b with [] => hasMixedAggregateSelection b | _ => false end then
        throw "Mixed aggregate and non-aggregate selections require groupBy columns"
      else if negb (requiresFallback b) then
        directResults ← liftM (session_execute w cv (withSelect (selectedFields b) operation));
        match selectedFields b with
        | Some _ => liftB (mapM projectSelectedRow directResults)
        | None => mret directResults
        end
      else
        intermediateRows ← liftM (session_execute w cv (withSelect None operation));
        fallbackSteps fetchJoinRows intermediateRows
  end.

(** The [execute()] of the builder that [fetchJoinRows] creates: it has
    no join, so it never fetches the rows of one. *)
Definition executeJoinQuery : X (list Row) := executeWith (fun _ _ => mret []).

(** [fetchJoinRows(join, baseRows)] *)
Definition fetchJoinRows (join : JoinEntry) (baseRows : list Row) : X (list Row) :=
  match resolvedConditions join with
  | [] => mret []
  | primaryCondition :: _ =>
      let '(joinRef, baseRef) := joinSides join primaryCondition in
      b ← liftB getState;
      let uniqueValues :=
        dedupByKey serializeValueForKey ∅
          (filter (fun value => negb (Value.isNullish value) = true)
                  ((fun row => getRowValueForColumn (primaryAlias b) row baseRef) <$> baseRows)) in
      match uniqueValues with
      | [] => mret []
      | valuesArray =>
          let build : B unit :=
            _ ← from (j_table join);
            match getColumn (j_table join) (cr_column joinRef) with
            | Some joinColumnInstance =>
                if negb (String.eqb (cr_column joinRef) "id") then
                  where_ (WhereTree (inArray (ByColumn {| ch_column := joinColumnInstance;
                                                          ch_table := Some (j_table join) |})
                                             valuesArray))
                else mret ()
            | None => mret ()
            end in
          let '(built, joinQuery) := build (select None) in
          _ ← liftRes built;
          joinRows ← runNested joinQuery executeJoinQuery;
          liftRes (normalizeJoinRows join joinRows)
      end
  end.

(** [applyJoinFallback(rows)] *)
Definition applyJoinFallback (rows : list Row) : X (list Row) :=
  b ← liftB getState;
  applyJoinFallbackWith fetchJoinRows (joins b) rows.

(** [SelectQueryBuilder.execute()] *)
Definition execute : X (list Row) := executeWith fetchJoinRows.

End Execute.

(* ===================================================================== *)
(** * A reference host *)
(* ===================================================================== *)

(** A host for closed examples.  It follows ECMAScript where the examples
    go: [String] and [Number] on integers below [10^15], [JSON.stringify] on
    strings, numbers, booleans, [null] and arrays, and [RegExp] on the
    sources the LIKE translation writes (an anchored sequence of literal
    characters, escaped characters and dots, each with an optional [*] or [?]
    and an optional lazy mark), matched without regard to the case of ASCII
    letters.  Elsewhere its answers are placeholders. *)
Module RefHost.

Definition integerOfFloat (x : float) : option Z :=
  match Prim2SF x with
  | S754_zero _ => Some 0%Z
  | S754_finite sign m e =>
      let magnitude :=
        if (0 <=? e)%Z then Some (Z.pos m * 2 ^ e)%Z
        else if (Z.pos m mod 2 ^ (- e) =? 0)%Z then Some (Z.pos m / 2 ^ (- e))%Z
        else None in
      (fun z => if sign then (- z)%Z else z) <$> magnitude
  | _ => None
  end.

Definition numberToString (x : float) : string :=
  if PrimFloat.is_nan x then "NaN"
  else if PrimFloat.eqb x PrimFloat.infinity then "Infinity"
  else if PrimFloat.eqb x PrimFloat.neg_infinity then "-Infinity"
  else
    match integerOfFloat x with
    | Some z => if (Z.abs z <? 10 ^ 21)%Z then pretty z else ""
    | None => ""
    end.

Fixpoint digitsValue (acc : Z) (s : string) : option Z :=
  match s with
  | "" => Some acc
  | String c t =>
      match Ascii.is_nat c with
      | Some d => digitsValue (10 * acc + Z.of_nat d)%Z t
      | None => None
      end
  end.

Definition floatOfNatural (z : Z) : float := PrimFloat.of_uint63 (Uint63.of_Z z).

Definition stringToNumber (s : string) : float :=
  let t := Js.trim s in
  let '(negative, digits) :=
    match t with
    | String "-" rest => (true, rest)
    | String "+" rest => (false, rest)
    | _ => (false, t)
    end in
  if String.eqb t "" then PrimFloat.zero
  else if String.eqb digits "" || (15 <? String.length digits)%nat then PrimFloat.nan
  else
    match digitsValue 0 digits with
    | Some z => if negative : bool then PrimFloat.opp (floatOfNatural z) else floatOfNatural z
    | None => PrimFloat.nan
    end.

Definition elementToString (v : JsValue) : string :=
  match v with
  | VUndefined | VNull => ""
  | VBool true => "true"
  | VBool false => "false"
  | VNum n => numberToString n
  | VStr s => s
  | VArr _ => ""
  | VObj _ => "[object Object]"
  end.

Definition objectToString (v : JsValue) : string :=
  match v with
  | VArr l => Js.join "," (elementToString <$> l)
  | _ => "[object Object]"
  end.

Definition objectToNumber (v : JsValue) : float :=
  match v with
  | VArr l => stringToNumber (objectToString v)
  | _ => PrimFloat.nan
  end.

Definition quoteJSON (s : string) : string :=
  Js.dq
  +:+ Js.replaceEach
        (fun c =>
           if String.eqb (char1 c) Js.dq || Ascii.eqb c "\"%char
           then String "\"%char (char1 c) else char1 c) s
  +:+ Js.dq.

Fixpoint stringifyJSON (v : JsValue) : string :=
  match v with
  | VUndefined | VNull => "null"
  | VBool true => "true"
  | VBool false => "false"
  | VNum n => if PrimFloat.is_finite n then numberToString n else "null"
  | VStr s => quoteJSON s
  | VArr l => "[" +:+ Js.join "," (stringifyJSON <$> l) +:+ "]"
  | VObj _ => "{}"
  end.

Definition rowToJSON (row : gmap string JsValue) : string :=
  "{" +:+ Js.join "," ((fun '(k, v) => quoteJSON k +:+ ":" +:+ stringifyJSON v)
                       <$> map_to_list row) +:+ "}".

(** ** Regular expressions of the LIKE shape *)

Inductive Atom := Lit (c : ascii) | AnyChar.
Inductive Quantifier := Once | Star | Optional.

Inductive ParseState :=
| Start        (* after [^]: nothing to repeat yet *)
| AfterAtom    (* a quantifier may follow *)
| AfterQuant   (* a lazy mark may follow *)
| AfterLazy    (* nothing may repeat *)
| AfterBackslash
| AtEnd.       (* after the closing [$] *)

Definition requantify (q : Quantifier) (items : list (Atom * Quantifier))
  : list (Atom * Quantifier) :=
  match items with
  | (a, _) :: rest => (a, q) :: rest
  | [] => []
  end.

(** One character of the source; the items are kept last first. *)
Definition step (st : option (list (Atom * Quantifier) * ParseState)) (c : ascii)
  : option (list (Atom * Quantifier) * ParseState) :=
  '(items, state) ← st;
  match state with
  | AfterBackslash => Some ((Lit c, Once) :: items, AfterAtom)
  | AtEnd => None
  | _ =>
      if Ascii.eqb c "\"%char then Some (items, AfterBackslash)
      else if Ascii.eqb c "$"%char then Some (items, AtEnd)
      else if Ascii.eqb c "."%char then Some ((AnyChar, Once) :: items, AfterAtom)
      else if Ascii.eqb c "*"%char then
        match state with
        | AfterAtom => Some (requantify Star items, AfterQuant)
        | _ => None
        end
      else if Ascii.eqb c "?"%char then
        match state with
        | AfterAtom => Some (requantify Optional items, AfterQuant)
        | AfterQuant => Some (items, AfterLazy)
        | _ => None
        end
      else if isEscapedChar c then None
      else Some ((Lit c, Once) :: items, AfterAtom)
  end.

Fixpoint steps (st : option (list (Atom * Quantifier) * ParseState)) (s : string)
  : option (list (Atom * Quantifier) * ParseState) :=
  match s with
  | "" => st
  | String c t => steps (step st c) t
  end.

(** [^items$]: the items, or nothing when the source is not of the shape
    (which, for a source the LIKE translation wrote, is when [RegExp]
    throws: a [*] or [?] with nothing to repeat). *)
Definition parse (source : string) : option (list (Atom * Quantifier)) :=
  match source with
  | String "^" body =>
      match steps (Some ([], Start)) body with
      | Some (items, AtEnd) => Some (rev items)
      | _ => None
      end
  | _ => None
  end.

Definition isLineTerminator (c : ascii) : bool :=
  Ascii.eqb c (Ascii.ascii_of_nat 10) || Ascii.eqb c (Ascii.ascii_of_nat 13).

Definition atomMatches (ignoreCase : bool) (a : Atom) (c : ascii) : bool :=
  match a with
  | AnyChar => negb (isLineTerminator c)
  | Lit d =>
      if ignoreCase then Ascii.eqb (Js.upperChar d) (Js.upperChar c) else Ascii.eqb d c
  end.

(** Does the whole of [s] match the items? *)
Fixpoint matchItems (ignoreCase : bool) (items : list (Atom * Quantifier)) (s : string)
  : bool :=
  match items with
  | [] => String.eqb s ""
  | (a, Once) :: rest =>
      match s with
      | String c t => atomMatches ignoreCase a c && matchItems ignoreCase rest t
      | "" => false
      end
  | (a, Optional) :: rest =>
      matchItems ignoreCase rest s
      || match s with
         | String c t => atomMatches ignoreCase a c && matchItems ignoreCase rest t
         | "" => false
         end
  | (a, Star) :: rest =>
      (fix star (s : string) : bool :=
         matchItems ignoreCase rest s
         || match s with
            | String c t => atomMatches ignoreCase a c && star t
            | "" => false
            end) s
  end.

Definition regExpTest (source flags s : string) : option bool :=
  items ← parse source;
  Some (matchItems (Js.includesChar "i"%char flags) items s).

#[export] Instance host : JsHost := {|
  NumberToString := numberToString;
  StringToNumber := stringToNumber;
  ObjectToNumber := objectToNumber;
  ObjectToString := objectToString;
  JSON_stringify := stringifyJSON;
  RowToJSON := rowToJSON;
  ValueProperty := fun _ => VUndefined;
  DateNow := "1700000000000";
  DateToISOString := fun _ => None;
  RegExpTest := regExpTest;
|}.

End RefHost.

(* ===================================================================== *)
(** * Example data *)
(* ===================================================================== *)

(** The table of scenario S1 and a Pod to hold it. *)
Definition column (name dataType : string) (isRequired : bool) (tableName : string)
  : PodColumnBase :=
  {| col_name := name; col_dataType := dataType;
     col_options :=
       {| primaryKey := false; required := isRequired; defaultValue := None;
          predicate := None; referenceTarget := None; notNull := false |};
     col_tableName := Some tableName |}.

Definition profiles : PodTable :=
  {| tbl_ref := 1;
     config := {| tbl_name := "profiles"; containerPath := "/drizzle-tests/T/";
                  rdfClass := "https://schema.org/Person"; namespace := None;
                  autoRegister := false |};
     columns := [ ("id", column "id" "string" true "profiles");
                  ("name", column "name" "string" true "profiles");
                  ("age", column "age" "integer" false "profiles");
                  ("createdAt", column "createdAt" "datetime" true "profiles") ] |}.

Definition alicePod : Converter :=
  {| cv_podUrl := "http://localhost:3000"; cv_userPath := "/alice/";
     cv_prefixes := initialPrefixes |}.


(** The tables of scenario S5. *)
Definition users : PodTable :=
  {| tbl_ref := 2;
     config := {| tbl_name := "users"; containerPath := "/drizzle-tests/users/";
                  rdfClass := "https://schema.org/Person"; namespace := None;
                  autoRegister := false |};
     columns := [ ("id", column "id" "string" true "users");
                  ("name", column "name" "string" true "users") ] |}.

Definition posts : PodTable :=
  {| tbl_ref := 3;
     config := {| tbl_name := "posts"; containerPath := "/drizzle-tests/posts/";
                  rdfClass := "https://schema.org/CreativeWork"; namespace := None;
                  autoRegister := false |};
     columns := [ ("id", column "id" "string" true "posts");
                  ("title", column "title" "string" true "posts");
                  ("authorId", column "authorId" "string" true "posts") ] |}.

(** [select().from(posts)] *)
Definition fromPosts : SelectQueryBuilder := (from posts (select None)).2.

(** [select().from(profiles)] *)
Definition fromProfiles : SelectQueryBuilder := (from profiles (select None)).2.

(** The rows of scenario S4: ages 21, 29 and 42, and a row without an age. *)
Definition aggregateRows : list Row :=
  [ resultRow [("name", VStr "Aggregate Alpha"); ("age", VNum 21)];
    resultRow [("name", VStr "Aggregate Beta"); ("age", VNum 29)];
    resultRow [("name", VStr "Aggregate Gamma"); ("age", VNum 42)];
    resultRow [("name", VStr "Aggregate Missing")] ].

(** [count()] *)
Definition countAll : AggregateExpression :=
  {| func := count; agg_column := None; distinct := false |}.

(** A Pod server for the examples: the URLs of [existing] and those a
    PUT has gone to answer 200 to HEAD and GET, with an empty body; any other
    URL answers 404; a PUT answers 201. *)
Definition exampleFetch (existing : list string) (history : list Event) (rq : Request)
  : Res Response :=
  let created :=
    omap (fun e => match e with
                   | Fetch {| rq_method := PUT; rq_url := url |} => Some url
                   | _ => None
                   end) history in
  match rq_method rq with
  | PUT => Ok {| status := 201; statusText := "Created"; body := "" |}
  | _ =>
      if bool_decide (rq_url rq ∈ existing ++ created)
      then Ok {| status := 200; statusText := "OK"; body := "" |}
      else Ok {| status := 404; statusText := "Not Found"; body := "" |}
  end.

(** [OFFSET] and [LIMIT] as an engine applies them to its rows. *)
Definition natOfNumber (x : float) : nat :=
  match RefHost.integerOfFloat x with Some z => Z.to_nat z | None => 0 end.

Definition window (offset limit : option float) (rows : list Row) : list Row :=
  let rows := match offset with Some o => drop (natOfNumber o) rows | None => rows end in
  match limit with Some l => take (natOfNumber l) rows | None => rows end.

(** A SPARQL engine for the examples: a SELECT on a resource returns the
    rows kept for it, within the offset and the limit of a generated query;
    any other statement returns no row. *)
Definition exampleEngine (data : list (string * list Row)) (history : list Event)
    (resourceUrl : string) (q : SPARQLQuery) : Res (list Row) :=
  match sp_type q with
  | SELECT =>
      let rows := default [] (Obj.get data resourceUrl) in
      Ok (match sp_query q with
          | GeneratedSelect s => window (sq_offset s) (sq_limit s) rows
          | _ => rows
          end)
  | _ => Ok []
  end.

(** A rendering of a filter for the examples, in place of the text the
    sparqljs generator writes. *)
Definition renderTerm (t : Term) : string :=
  match t with
  | Variable_ v => "?" +:+ v
  | NamedNode iri => "<" +:+ iri +:+ ">"
  | Literal v _ => Js.dq +:+ v +:+ Js.dq
  end.

Fixpoint renderExpr (e : Expr) : string :=
  match e with
  | ETerm t => renderTerm t
  | ETerms l => "(" +:+ Js.join ", " (renderTerm <$> l) +:+ ")"
  | EOperation operator args =>
      operator +:+ "(" +:+ Js.join ", " (renderExpr <$> args) +:+ ")"
  end.

Definition exampleWorld (existing : list string) (data : list (string * list Row)) : World :=
  {| w_fetch := exampleFetch existing;
     w_queryContainer := exampleEngine data;
     w_filterToString := fun e => Some ("FILTER(" +:+ renderExpr e +:+ ")") |}.

(** A dialect that has not connected yet and has sent nothing. *)
Definition freshDialect : DialectState := {| connected := false; trace := [] |}.

Definition podRoot : string := "http://localhost:3000".
Definition profilesContainer : string := "http://localhost:3000/alice/drizzle-tests/T/".
Definition profilesResource : string :=
  "http://localhost:3000/alice/drizzle-tests/T/profiles.ttl".
Definition usersContainer : string := "http://localhost:3000/alice/drizzle-tests/users/".
Definition usersResource : string :=
  "http://localhost:3000/alice/drizzle-tests/users/users.ttl".
Definition postsContainer : string := "http://localhost:3000/alice/drizzle-tests/posts/".
Definition postsResource : string :=
  "http://localhost:3000/alice/drizzle-tests/posts/posts.ttl".

(** A Pod in which the profiles container exists and its resource does
    not. *)
Definition emptyPod : World := exampleWorld [podRoot; profilesContainer] [].

(** A Pod that holds the three profiles of scenario S6. *)
Definition profileSubject (id : string) : string :=
  "http://localhost:3000/alice/drizzle-tests/T#" +:+ id.

Definition profilesPod : World :=
  exampleWorld [podRoot; profilesContainer; profilesResource]
    [(profilesResource,
      [ resultRow [("subject", VStr (profileSubject "a")); ("name", VStr "A"); ("age", VNum 20)];
        resultRow [("subject", VStr (profileSubject "c")); ("name", VStr "C"); ("age", VNum 30)] ])].

(** What an event is, without its headers and text. *)
Inductive EventKind :=
| Http (m : Method) (url : string)
| Statement (kind : QueryKind) (resourceUrl : string).

Definition eventKind (e : Event) : EventKind :=
  match e with
  | Fetch rq => Http (rq_method rq) (rq_url rq)
  | Sparql resourceUrl q => Statement (sp_type q) resourceUrl
  end.

(** The text of the statements sent, in order. *)
Definition statementTexts (events : list Event) : list string :=
  omap (fun e => match e with
                 | Sparql _ {| sp_query := Text s |} => Some s
                 | _ => None
                 end) events.

(** [or(eq(name, 'A'), eq(name, 'C'))], the where of scenario S6 *)
Definition nameIsAOrC : QueryCondition :=
  or_ [eq_ (ByName "name") (VStr "A"); eq_ (ByName "name") (VStr "C")].

(** [delete(profiles).where(cond)] and [update(profiles).set(data).where(cond)] *)
Definition deleteProfilesWhere (conditions : WhereArg) : DeleteQueryBuilder :=
  delete_where conditions (delete_ profiles).

Definition setAge99Where (conditions : WhereArg) : UpdateQueryBuilder :=
  update_where conditions (set [("age", VNum 99)] (update profiles)).

(** A Pod that holds the posts and the users of scenario S5: two users,
    and two posts by the first of them. *)
Definition postSubject (id : string) : string :=
  "http://localhost:3000/alice/drizzle-tests/posts#" +:+ id.
Definition userSubject (id : string) : string :=
  "http://localhost:3000/alice/drizzle-tests/users#" +:+ id.

Definition blogPod : World :=
  exampleWorld [podRoot; postsContainer; postsResource; usersContainer; usersResource]
    [(postsResource,
      [ resultRow [("subject", VStr (postSubject "p1")); ("title", VStr "Hello");
                   ("authorId", VStr "u1")];
        resultRow [("subject", VStr (postSubject "p2")); ("title", VStr "World");
                   ("authorId", VStr "u1")] ]);
     (usersResource,
      [ resultRow [("subject", VStr (userSubject "u1")); ("name", VStr "Alice")];
        resultRow [("subject", VStr (userSubject "u2")); ("name", VStr "Bob")] ])].

(** [select().from(posts).innerJoin(users, condition)] *)
Definition postsJoinUsers (condition : list (string * FieldRef)) : SelectQueryBuilder :=
  (innerJoin_ users (JoinObject condition) fromPosts).2.

(** [{'posts.authorId': 'users.id', 'posts.title': 'users.name'}]: no post
    has the name of its author as its title. *)
Definition byAuthorAndTitle : list (string * FieldRef) :=
  [("posts.authorId", RefName "users.id"); ("posts.title", RefName "users.name")].

(** [select().from(users).innerJoin(posts, {'posts.authorId': 'users.id'})
      .orderBy('name').distinct().offset(0).limit(1)] *)
Definition firstAuthorWithPosts : SelectQueryBuilder :=
  ((_ ← from users;
    _ ← innerJoin_ posts (JoinObject [("posts.authorId", RefName "users.id")]);
    _ ← orderBy (ByName "name") asc;
    _ ← distinct_ true;
    _ ← offset 0%float;
    limit 1%float) (select None)).2.

(** The generated selects among the events, each with its resource. *)
Definition selectsSent (events : list Event) : list (string * SelectQueryJson) :=
  omap (fun e => match e with
                 | Sparql resourceUrl {| sp_query := GeneratedSelect s |} => Some (resourceUrl, s)
                 | _ => None
                 end) events.

(** An author merged with one of their posts, as [execute()] returns
    it. *)
Definition authorWithPost (authorId authorName postId title : string) : Row :=
  resultRow [ ("subject", VStr (userSubject authorId)); ("id", VStr authorId);
              ("name", VStr authorName);
              ("users.subject", VStr (userSubject authorId)); ("users.id", VStr authorId);
              ("users.name", VStr authorName);
              ("posts.subject", VStr (postSubject postId)); ("posts.id", VStr postId);
              ("posts.title", VStr title); ("posts.authorId", VStr authorId) ].

(** A post merged with its author, as [execute()] returns it. *)
Definition postWithAuthor (postId title authorId authorName : string) : Row :=
  resultRow [ ("subject", VStr (postSubject postId)); ("id", VStr postId);
              ("title", VStr title); ("authorId", VStr authorId);
              ("posts.subject", VStr (postSubject postId)); ("posts.id", VStr postId);
              ("posts.title", VStr title); ("posts.authorId", VStr authorId);
              ("users.subject", VStr (userSubject authorId)); ("users.id", VStr authorId);
              ("users.name", VStr authorName) ].

(** A column named [name] with no predicate of its own, in a table with no
    namespace. *)
Definition nameColumn : PodColumnBase := column "name" "string" true "profiles".

(** A column the default table does not list. *)
Definition ageColumn : PodColumnBase := column "age" "integer" false "profiles".

(* ===================================================================== *)
(** * The resolutions the specification states *)
(* ===================================================================== *)

(** The predicate of a column in the order the specification gives: the
    explicit predicate, else the namespace URI followed by the name, else the
    built-in default table, else [http://example.org/<name>]. *)
Definition claimedPredicate (c : PodColumnBase) (table : PodTable) : string :=
  match truthyStr (predicate (col_options c)) with
  | Some p => p
  | None =>
      match namespace (config table) with
      | Some ns => ns_uri ns +:+ col_name c
      | None =>
          match Obj.get defaultPredicates (col_name c) with
          | Some uri => uri
          | None => "http://example.org/" +:+ col_name c
          end
      end
  end.

(** What one character of a LIKE pattern becomes in both translations. *)
Definition likeChar (c : ascii) : string :=
  if Ascii.eqb c "%"%char then ".*"
  else if Ascii.eqb c "_"%char then "."
  else escapeChar c.

(** The characters that are operators in a regular expression. *)
Definition isRegexMetaChar (c : ascii) : bool :=
  isEscapedChar c || Ascii.eqb c "*"%char || Ascii.eqb c "?"%char.

(** What one character of a LIKE pattern becomes according to the
    specification: every metacharacter escaped, [%] to [.*], [_] to [.]. *)
Definition claimedLikeChar (c : ascii) : string :=
  if Ascii.eqb c "%"%char then ".*"
  else if Ascii.eqb c "_"%char then "."
  else if isRegexMetaChar c then String "\"%char (char1 c)
  else char1 c.

(** The regular expression source the specification describes. *)
Definition claimedLikeSource (pattern : string) : string :=
  "^" +:+ Js.replaceEach claimedLikeChar pattern +:+ "$".

(** A join with the first of its conditions alone. *)
Definition firstConditionOnly (join : JoinEntry) : JoinEntry :=
  {| j_type := j_type join; j_table := j_table join; j_alias := j_alias join;
     rawCondition := rawCondition join;
     resolvedConditions := take 1 (resolvedConditions join) |}.

(** The builder with another limit, offset, order and distinct flag. *)
Definition withModifiers (lim off : option float) (ord : list (string * Direction))
    (dis : bool) (b : SelectQueryBuilder) : SelectQueryBuilder :=
  setModifiers lim off ord dis (groupByColumns b) (selectedFields b) b.

(** A change of the builder, on the state of [execute()]. *)
Definition onBuilder (f : SelectQueryBuilder → SelectQueryBuilder)
    (st : SelectQueryBuilder * DialectState) : SelectQueryBuilder * DialectState :=
  (f st.1, st.2).

(** * Properties of computations *)

(** A computation keeps a component of the state. *)
Definition keeps {S A T} (proj : S → T) (m : SR S A) : Prop :=
  ∀ st, proj (m st).2 = proj st.

(** [emits tr P m]: running [m] only appends to the events, and what it
    appends satisfies [P]. *)
Definition emits {S A} (tr : S → list Event) (P : Event → Prop) (m : SR S A) : Prop :=
  ∀ st, ∃ post, tr (m st).2 = tr st ++ post ∧ Forall P post.

Definition isFetch (e : Event) : Prop := match e with Fetch _ => True | Sparql _ _ => False end.
Definition anyEvent (e : Event) : Prop := True.

(** [frames f m]: after the change [f] of the state, [m] gives what it
    gives without it, and leaves the change in place: it neither reads nor
    writes what [f] changes. *)
Definition frames {S A} (f : S → S) (m : SR S A) : Prop :=
  ∀ st, m (f st) = ((m st).1, f (m st).2).


(* ===================================================================== *)
(** * Names *)
(* ===================================================================== *)

(** The characters of a plain name: letters, digits and the underscore. *)
Definition isNameChar (c : ascii) : bool :=
  let n := Ascii.nat_of_ascii c in
  ((48 <=? n)%nat && (n <=? 57)%nat) || ((65 <=? n)%nat && (n <=? 90)%nat)
  || ((97 <=? n)%nat && (n <=? 122)%nat) || (n =? 95)%nat.

(** A plain name: a string of such characters, as the names of tables and
    columns usually are. *)
Fixpoint isName (s : string) : bool :=
  match s with
  | "" => true
  | String c t => isNameChar c && isName t
  end.

(* ===================================================================== *)
(** * What is sent to the Pod *)
(* ===================================================================== *)

(** The request that creates [url]: a PUT to it. *)
Definition isPutTo (url : string) (e : Event) : Prop :=
  match e with
  | Fetch rq => rq_method rq = PUT ∧ rq_url rq = url
  | Sparql _ _ => False
  end.

(** A Pod that answers 404 to every request but a PUT. *)
Definition absentPod : World := exampleWorld [] [].

(** The ids of a batch that count as ids: the truthy ones, in order. *)
Definition givenIds (values : list JsObject) : list JsValue :=
  filter (fun id => Value.truthy id = true) ((fun record => Obj.prop record "id") <$> values).

(** No value of the list is the same value as a later one. *)
Fixpoint pairwiseDistinct (ids : list JsValue) : Prop :=
  match ids with
  | [] => True
  | id :: later => Forall (fun other => Value.sameValueZero id other = false) later
                   ∧ pairwiseDistinct later
  end.

(** The rows of an insert payload: an array, or one record. *)
Definition payloadRows (payload : InsertValues) : list JsObject :=
  match payload with ManyRows l => l | OneRow r => [r] end.

(* ===================================================================== *)
(** * The joins and the groups, said directly *)
(* ===================================================================== *)

Section Direct.
Context `{JsHost}.

(** A base row and a joined row belong together: neither key is
    [undefined] or [null], and the two serialize to the same string. *)
Definition joinMatches (primary : option string) (joinRef baseRef : ColumnReference)
    (baseRow joinRow : Row) : bool :=
  let baseValue := getRowValueForColumn primary baseRow baseRef in
  let joinValue := getRowValueForColumn primary joinRow joinRef in
  negb (Value.isNullish baseValue) && negb (Value.isNullish joinValue)
  && String.eqb (serializeValueForKey joinValue) (serializeValueForKey baseValue).

(** The join as a loop over the base rows and, for each, over the joined
    rows. *)
Definition nestedLoopJoin (primary : option string) (baseRows : list Row) (join : JoinEntry)
    (joinRows : list Row) : list Row :=
  match resolvedConditions join with
  | [] => baseRows
  | primaryCondition :: _ =>
      let '(joinRef, baseRef) := joinSides join primaryCondition in
      baseRows ≫= fun baseRow =>
        match filter (fun joinRow =>
                        joinMatches primary joinRef baseRef baseRow joinRow = true)
                     joinRows with
        | [] =>
            match j_type join with
            | innerJoin => []
            | _ => [createEmptyJoinRow join ∪ baseRow]
            end
        | matches => (fun match_ => match_ ∪ baseRow) <$> matches
        end
  end.

(** What an entry [{'alias.column': value}] of a where map asks of a
    merged row: [null] or [undefined] asks for a missing value, an array
    for one of its elements, anything else for that very value. *)
Definition literalHolds (primary : option string) (ref : ColumnReference) (value : JsValue)
    (row : Row) : bool :=
  let found := getRowValueForColumn primary row ref in
  match value with
  | VUndefined | VNull => Value.isNullish found
  | VArr items => Value.includes items found
  | _ => Value.strictEq found value
  end.

End Direct.

(** A join entry with another type. *)
Definition withJoinType (type : JoinType) (join : JoinEntry) : JoinEntry :=
  {| j_type := type; j_table := j_table join; j_alias := j_alias join;
     rawCondition := rawCondition join; resolvedConditions := resolvedConditions join |}.

(** The request of [connect()]: a plain GET of the Pod root.  The other
    requests of the executor are a HEAD, a PUT, or a GET with an [Accept]
    header. *)
Definition connectionCheck (cv : Converter) : Event := Fetch (request GET (cv_podUrl cv)).

Section AfterConnect.
Context `{JsHost}.
Variable w : World.
Variable cv : Converter.

(** What [query] does once [connect()] has returned. *)
Definition afterConnect (operation : PodOperation) : M (list Row) :=
  let '(containerUrl, resourceUrl) := resolveTableUrls cv (op_table operation) in
  step ←
    match op_type operation with
    | OpSelect => selectCase cv operation
    | OpInsert => insertCase w cv operation containerUrl resourceUrl
    | OpUpdate => updateCase w cv operation containerUrl resourceUrl
    | OpDelete => deleteCase w cv operation containerUrl resourceUrl
    end;
  match step with
  | inl results => mret results
  | inr sparqlQuery => executeOnResource w resourceUrl sparqlQuery
  end.

End AfterConnect.

Section Statements.
Context `{JsHost}.
Variable w : World.
Variable cv : Converter.

(** The statement that looks for the subjects of a condition tree. *)
Definition subjectSelect (condition : QueryCondition) (table : PodTable) : SPARQLQuery :=
  {| sp_type := SELECT;
     sp_query :=
       Text (prefixLines (cv_prefixes cv) +:+ Js.nl +:+ "SELECT ?subject WHERE {" +:+ Js.nl
             +:+ buildWhereClauseForCondition w cv condition table +:+ Js.nl +:+ "}");
     sp_prefixes := cv_prefixes cv |}.

(** The statement that deletes every triple of one subject. *)
Definition subjectDelete (subject : string) : SPARQLQuery :=
  {| sp_type := DELETE;
     sp_query :=
       Text (prefixLines (cv_prefixes cv) +:+ Js.nl +:+ "DELETE WHERE {" +:+ Js.nl
             +:+ "  <" +:+ subject +:+ "> ?p ?o ." +:+ Js.nl +:+ "}");
     sp_prefixes := cv_prefixes cv |}.

End Statements.

(** The condition an entry of a where map stands for: [isNull] for
    [null], [eq] for another value. *)
Definition entryCondition (columnName : string) (value : JsValue) : QueryCondition :=
  match value with
  | VNull => isNull (ByName columnName)
  | _ => eq_ (ByName columnName) value
  end.

(** A key that the alias of a join does not qualify: a column of the rows
    the join is applied to. *)
Definition outsideAlias (alias key : string) : Prop := ∀ column, key ≠ qualified alias column.

(** A row has the keys of a select list, and no other. *)
Definition hasKeysOf {A} (fields : list (string * A)) (row : Row) : Prop :=
  ∀ key, is_Some (row !! key) ↔ key ∈ fields.*1.

(** The first row of each group. *)
Definition firstRows (groups : list (string * list Row)) : list Row :=
  omap (fun group => head group.2) groups.

(** A SELECT statement sent for a resource. *)
Definition isSelectOn (resourceUrl : string) (e : Event) : Prop :=
  match e with
  | Sparql url q => url = resourceUrl ∧ sp_type q = SELECT
  | Fetch _ => False
  end.



(* ===================================================================== *)
(** * Where the objects of the model are the objects of the code *)
(* ===================================================================== *)

(** The properties of [Object.prototype] (ECMAScript, with the legacy ones
    of its Annex B).  A row and a where map are plain objects: for these
    names [key in row] holds and [row[key]] is a function, whatever the row
    holds, while [rowGet] and [getRowValueForColumn] look at the own keys.
    The two agree on every other name. *)
Definition inheritedNames : list string :=
  [ "constructor"; "hasOwnProperty"; "isPrototypeOf"; "propertyIsEnumerable";
    "toLocaleString"; "toString"; "valueOf"; "__proto__"; "__defineGetter__";
    "__defineSetter__"; "__lookupGetter__"; "__lookupSetter__" ].

(** A name that no object inherits: looked up in an object, it is found
    among the own keys or not at all. *)
Definition isOwnName (name : string) : bool :=
  forallb (fun inherited => negb (String.eqb inherited name)) inheritedNames.

(** The keys that [projectSelectedRow] reads in a row for one entry of the
    select list, the dotted ones apart (no inherited name has a dot): the
    key of the entry, and for a field given by name or as a column that
    name, whole and without its alias. *)
Definition fieldNames (key : string) (field : SelectField) : list string :=
  key :: match field with
         | FieldName reference => [reference; (parseColumnReferenceString reference).2]
         | FieldColumn h => [col_name (ch_column h)]
         | FieldAggregate _ => []
         end.

(** [isQueryCondition(obj)] on a plain object: the builders and the
    translator take a where map that has both a [type] and an [operator] for
    a condition tree.  [WhereMap] stands for the maps where this is
    [false]. *)
Definition looksLikeCondition (conditions : JsObject) : bool :=
  Obj.has conditions "type" && Obj.has conditions "operator".

Section NoKey.
Context `{JsHost}.

(** No row has a value to join on: the column of the first condition on
    the side of the rows is not a name that the rows inherit, and it is
    [undefined] or [null] in each of them. *)
Definition noJoinKey (primary : option string) (join : JoinEntry) (baseRows : list Row) : Prop :=
  match resolvedConditions join with
  | [] => True
  | primaryCondition :: _ =>
      isOwnName (cr_column (joinSides join primaryCondition).2) = true
      ∧ Forall (fun row =>
                  Value.isNullish
                    (getRowValueForColumn primary row (joinSides join primaryCondition).2) = true)
               baseRows
  end.

End NoKey.

(** A Pod in which everything exists and the resource of the profiles
    already holds the subject of the profile [a]. *)
Definition occupiedPod : World :=
  {| w_fetch := fun _ rq =>
       Ok {| status := 200; statusText := "OK";
             body := "<" +:+ profileSubject "a" +:+ "> a <https://schema.org/Person> ." |};
     w_queryContainer := exampleEngine [];
     w_filterToString := fun e => Some ("FILTER(" +:+ renderExpr e +:+ ")") |}.

(* ===================================================================== *)
(** * Properties *)
(* ===================================================================== *)

(** ** Strings *)

Lemma app_cons (c : ascii) (s t : string) : String c s +:+ t = String c (s +:+ t).
Proof. reflexivity. Qed.

Lemma app_empty_l (t : string) : "" +:+ t = t.
Proof. reflexivity. Qed.

Lemma app_empty_r (s : string) : s +:+ "" = s.
Proof. induction s as [|c s IH]; [reflexivity|]. by rewrite app_cons, IH. Qed.

Lemma app_assoc_string (a b c : string) : (a +:+ b) +:+ c = a +:+ (b +:+ c).
Proof. induction a as [|x a IH]; [reflexivity|]. by rewrite !app_cons, IH. Qed.

Lemma app_not_empty (a : string) (c : ascii) (b : string) : a +:+ String c b ≠ "".
Proof. by destruct a. Qed.

Lemma eqb_empty_false (a : string) (c : ascii) (b : string) :
  String.eqb (a +:+ String c b) "" = false.
Proof. apply String.eqb_neq, app_not_empty. Qed.

Lemma replaceEach_app (f : ascii → string) (a b : string) :
  Js.replaceEach f (a +:+ b) = Js.replaceEach f a +:+ Js.replaceEach f b.
Proof.
  induction a as [|c a IH]; [reflexivity|].
  by rewrite app_cons; simpl; rewrite IH, app_assoc_string.
Qed.

Lemma replaceEach_compose (f g : ascii → string) (s : string) :
  Js.replaceEach g (Js.replaceEach f s) = Js.replaceEach (fun c => Js.replaceEach g (f c)) s.
Proof.
  induction s as [|c s IH]; [reflexivity|].
  simpl. by rewrite replaceEach_app, IH.
Qed.

Lemma replaceEach_ext (f g : ascii → string) (s : string) :
  (∀ c, f c = g c) → Js.replaceEach f s = Js.replaceEach g s.
Proof. intros E. induction s as [|c s IH]; [reflexivity|]. simpl. by rewrite E, IH. Qed.

(** ** The id of a subject URI (C10) *)

Lemma includesChar_cons (c d : ascii) (t : string) :
  Js.includesChar c (String d t) = Ascii.eqb c d || Js.includesChar c t.
Proof. reflexivity. Qed.

Lemma allIdChars_cons (c : ascii) (t : string) :
  allIdChars (String c t) = isIdChar c && allIdChars t.
Proof. reflexivity. Qed.

Lemma allIdChars_no_delimiter (s : string) :
  Js.includesChar "/"%char s = false → Js.includesChar "#"%char s = false →
  allIdChars s = true.
Proof.
  induction s as [|c s IH]; [done|].
  rewrite !includesChar_cons, allIdChars_cons.
  intros [Hc Hs]%orb_false_elim [Hc' Hs']%orb_false_elim.
  rewrite (IH Hs Hs'), andb_true_r. unfold isIdChar.
  rewrite (Ascii.eqb_sym c), Hc, (Ascii.eqb_sym c), Hc'. reflexivity.
Qed.

Lemma allIdChars_fragment (pre post : string) : allIdChars (pre +:+ String "#" post) = false.
Proof.
  induction pre as [|c pre IH]; [reflexivity|].
  by rewrite app_cons, allIdChars_cons, IH, andb_false_r.
Qed.

Lemma matchIdSuffix_fragment (pre id : string) :
  id ≠ "" → allIdChars id = true → matchIdSuffix (pre +:+ String "#" id) = Some id.
Proof.
  intros Hne Hid. induction pre as [|c pre IH].
  - rewrite app_empty_l. destruct id as [|d id]; [done|].
    change (matchIdSuffix (String "#" (String d id)))
      with (if allIdChars (String "#" (String d id)) then Some (String "#" (String d id))
            else matchIdSuffix (String d id)).
    change (allIdChars (String "#" (String d id))) with false.
    cbv iota.
    change (matchIdSuffix (String d id))
      with (if allIdChars (String d id) then Some (String d id) else matchIdSuffix id).
    by rewrite Hid.
  - rewrite app_cons.
    change (matchIdSuffix (String c (pre +:+ String "#" id)))
      with (if allIdChars (String c (pre +:+ String "#" id))
            then Some (String c (pre +:+ String "#" id))
            else matchIdSuffix (pre +:+ String "#" id)).
    rewrite <- app_cons, allIdChars_fragment. exact IH.
Qed.

(** C10.  For every table and every record whose [id] is a non-empty string
    with neither a slash nor a hash in it, the id taken back from the
    generated subject URI is that id:
    [extractIdFromSubject(generateSubjectUri(r, T)) = r.id]. *)
Theorem extractId_of_generated_subject `{JsHost} (cv : Converter) (table : PodTable)
    (record : JsObject) (id : string) :
  Obj.prop record "id" = VStr id →
  id ≠ "" →
  Js.includesChar "/"%char id = false →
  Js.includesChar "#"%char id = false →
  extractIdFromSubject (Some (generateSubjectUri cv record table)) = Some id.
Proof.
  intros Hid Hne Hslash Hhash.
  unfold generateSubjectUri. rewrite Hid. cbn [Value.truthy Value.toString].
  assert (String.eqb id "" = false) as -> by by apply String.eqb_neq.
  cbn [negb].
  set (base := cv_podUrl cv +:+ _).
  change (base +:+ "#" +:+ id) with (base +:+ String "#" id).
  unfold extractIdFromSubject, truthyStr.
  rewrite eqb_empty_false, matchIdSuffix_fragment; [done..|].
  by apply allIdChars_no_delimiter.
Qed.

Lemma extractId_of_generated_subject_witness :
  generateSubjectUri (H := RefHost.host) alicePod [("id", VStr "p1"); ("name", VStr "Alice")] profiles
    = "http://localhost:3000/alice/drizzle-tests/T#p1"
  ∧ extractIdFromSubject
      (Some (generateSubjectUri (H := RefHost.host) alicePod
               [("id", VStr "p1"); ("name", VStr "Alice")] profiles))
    = Some "p1".
Proof.
  split; [reflexivity|].
  apply (extractId_of_generated_subject (H := RefHost.host) alicePod profiles
           [("id", VStr "p1"); ("name", VStr "Alice")] "p1");
    [reflexivity | discriminate | reflexivity | reflexivity].
Defined.

(** ** The predicate of a column (C4) *)

(** For a column of a table, the translator returns what the column's own
    [getPredicate] returns: the branch on [getPredicate] is taken before the
    namespace, the default table and the fallback are looked at. *)
Lemma getPredicateForColumn_of_column (c : PodColumnBase) (table : PodTable) :
  getPredicateForColumn (columnObject c) table = getPredicate c (namespace (config table)).
Proof.
  unfold getPredicateForColumn, columnObject; simpl.
  destruct (truthyStr (predicate (col_options c))) eqn:E;
    unfold getPredicate; by rewrite E.
Qed.

(** So an undeclared column resolves to [https://schema.org/<name>]. *)
Lemma getPredicateForColumn_undeclared (c : PodColumnBase) (table : PodTable) :
  truthyStr (predicate (col_options c)) = None →
  namespace (config table) = None →
  getPredicateForColumn (columnObject c) table = "https://schema.org/" +:+ col_name c.
Proof.
  intros Hp Hns. rewrite getPredicateForColumn_of_column. unfold getPredicate.
  by rewrite Hp, Hns.
Qed.

(** With an explicit predicate or a namespace the translator follows the
    stated order. *)
Lemma getPredicateForColumn_declared (c : PodColumnBase) (table : PodTable) :
  is_Some (truthyStr (predicate (col_options c))) ∨ is_Some (namespace (config table)) →
  getPredicateForColumn (columnObject c) table = claimedPredicate c table.
Proof.
  intros Hdecl. rewrite getPredicateForColumn_of_column.
  unfold getPredicate, claimedPredicate.
  destruct (truthyStr (predicate (col_options c))) as [p|]; [done|].
  destruct (namespace (config table)) as [ns|]; [done|].
  destruct Hdecl as [[? [=]]|[? [=]]].
Qed.

(** A column object without a [getPredicate] method and with no namespace
    on the table reaches the default table and the fallback. *)
Lemma getPredicateForColumn_plain_object (name : string) (table : PodTable) :
  namespace (config table) = None →
  getPredicateForColumn
    {| co_name := name; co_predicate := None; co_options := None; co_getPredicate := None |}
    table
  = match truthyStr (Obj.get defaultPredicates name) with
    | Some uri => uri
    | None => "http://example.org/" +:+ name
    end.
Proof. intros Hns. unfold getPredicateForColumn; simpl. by rewrite Hns. Qed.

(** C4.  The stated order (explicit predicate, namespace URI and name, the
    built-in default table, [http://example.org/<name>]) against the
    translator on the columns [name] and [age] of a table without namespace:
    the translator answers [https://schema.org/name] and
    [https://schema.org/age], where the stated order gives
    [http://xmlns.com/foaf/0.1/name] and [http://example.org/age]. *)
Theorem getPredicateForColumn_skips_default_table :
  getPredicateForColumn (columnObject nameColumn) profiles = "https://schema.org/name"
  ∧ claimedPredicate nameColumn profiles = "http://xmlns.com/foaf/0.1/name"
  ∧ getPredicateForColumn (columnObject ageColumn) profiles = "https://schema.org/age"
  ∧ claimedPredicate ageColumn profiles = "http://example.org/age".
Proof. repeat split; reflexivity. Qed.

(** ** LIKE patterns (C9) *)

Lemma likeChar_composed (c : ascii) :
  Js.replaceEach underscoreChar (Js.replaceEach percentChar (escapeChar c)) = likeChar c.
Proof. destruct c as [[] [] [] [] [] [] [] []]; reflexivity. Qed.

Lemma like_replacements (pattern : string) :
  Js.replaceEach underscoreChar (Js.replaceEach percentChar (Js.replaceEach escapeChar pattern))
  = Js.replaceEach likeChar pattern.
Proof.
  rewrite !replaceEach_compose. apply replaceEach_ext. intros c.
  rewrite <- replaceEach_compose. apply likeChar_composed.
Qed.

(** The SPARQL translation: anchors around the pattern taken character by
    character, and the flag [i]. *)
Lemma convertLikePattern_chars (pattern : string) :
  convertLikePattern pattern = ("^" +:+ Js.replaceEach likeChar pattern +:+ "$", Some "i").
Proof. unfold convertLikePattern. by rewrite like_replacements. Qed.

(** The in-memory fallback builds the same source and passes the same flag. *)
Lemma likeRegExpSource_chars (pattern : string) :
  likeRegExpSource pattern = "^" +:+ Js.replaceEach likeChar pattern +:+ "$".
Proof. unfold likeRegExpSource. by rewrite like_replacements. Qed.

Lemma like_translations_agree `{JsHost} (value pattern : string) :
  computeLikeMatch value pattern
  = RegExpTest (convertLikePattern pattern).1
               (default "" (convertLikePattern pattern).2) value.
Proof.
  unfold computeLikeMatch. by rewrite likeRegExpSource_chars, convertLikePattern_chars.
Qed.

Lemma likeChar_claimed (c : ascii) :
  Ascii.eqb c "*"%char = false → Ascii.eqb c "?"%char = false →
  likeChar c = claimedLikeChar c.
Proof.
  intros Hstar Hq. unfold likeChar, claimedLikeChar, isRegexMetaChar, escapeChar.
  by rewrite Hstar, Hq, !orb_false_r.
Qed.

(** On a pattern with no [*] and no [?] the source is the one the
    specification describes. *)
Lemma likeRegExpSource_claimed (pattern : string) :
  Js.includesChar "*"%char pattern = false →
  Js.includesChar "?"%char pattern = false →
  likeRegExpSource pattern = claimedLikeSource pattern.
Proof.
  intros Hstar Hq. rewrite likeRegExpSource_chars. unfold claimedLikeSource. do 2 f_equal.
  induction pattern as [|c pattern IH]; [reflexivity|].
  rewrite includesChar_cons in Hstar, Hq.
  apply orb_false_elim in Hstar as [Hc Hstar]. apply orb_false_elim in Hq as [Hc' Hq].
  simpl. rewrite (IH Hstar Hq). f_equal. apply likeChar_claimed.
  - by rewrite Ascii.eqb_sym.
  - by rewrite Ascii.eqb_sym.
Qed.

(** C9.  The pattern [a*] against the translation the specification
    describes.  Both translations leave the star as it is: the source is
    [^a*$], not [^a\*$].  So under the reference host the value [a*] does not
    match LIKE 'a*', the value [aaa] does, and LIKE '*' cannot be evaluated
    at all (there is nothing for the star to repeat). *)
Theorem like_leaves_star_unescaped :
  convertLikePattern "a*" = ("^a*$", Some "i")
  ∧ likeRegExpSource "a*" = "^a*$"
  ∧ claimedLikeSource "a*" = "^a\*$"
  ∧ computeLikeMatch (H := RefHost.host) "a*" "a*" = Some false
  ∧ computeLikeMatch (H := RefHost.host) "aaa" "a*" = Some true
  ∧ computeLikeMatch (H := RefHost.host) "x" "*" = None.
Proof. repeat split; reflexivity. Qed.

(** ** Computations that return or throw *)

Lemma bind_ok {S A C} (m : SR S A) (k : A → SR S C) (st st' : S) (a : A) :
  m st = (Ok a, st') → (m ≫= k) st = k a st'.
Proof. intros E. unfold mbind, SR_bind. by rewrite E. Qed.

Lemma bind_throw {S A C} (m : SR S A) (k : A → SR S C) (st st' : S) (msg : string) :
  m st = (Throw msg, st') → (m ≫= k) st = (Throw msg, st').
Proof. intros E. unfold mbind, SR_bind. by rewrite E. Qed.

Lemma bind_inv_ok {S A C} (m : SR S A) (k : A → SR S C) (st st'' : S) (c : C) :
  (m ≫= k) st = (Ok c, st'') → ∃ a st', m st = (Ok a, st') ∧ k a st' = (Ok c, st'').
Proof.
  unfold mbind, SR_bind. destruct (m st) as [[a|msg] st'] eqn:E; [|done].
  intros Hk. by exists a, st'.
Qed.

Lemma mapM_inv_ok {S A C} (f : A → SR S C) (P : C → Prop) (l : list A) :
  (∀ x st y st', f x st = (Ok y, st') → P y) →
  ∀ st ys st', mapM f l st = (Ok ys, st') → length ys = length l ∧ Forall P ys.
Proof.
  intros Hf. induction l as [|x l IH]; intros st ys st' E.
  - injection E as <- <-. by split.
  - simpl in E. apply bind_inv_ok in E as (y & st1 & Ey & E).
    apply bind_inv_ok in E as (ys' & st2 & Eys & E).
    injection E as <- <-. destruct (IH _ _ _ Eys) as [Hlen Hall].
    split; [simpl; by rewrite Hlen|]. constructor; [by eapply Hf | done].
Qed.

Lemma keeps_ret {S A T} (proj : S → T) (a : A) : keeps proj (mret a : SR S A).
Proof. by intros st. Qed.

Lemma keeps_throw {S A T} (proj : S → T) (msg : string) : keeps proj (throw msg : SR S A).
Proof. by intros st. Qed.

Lemma keeps_liftRes {S A T} (proj : S → T) (r : Res A) : keeps proj (liftRes r : SR S A).
Proof. by intros st. Qed.

Lemma keeps_getState {S T} (proj : S → T) : keeps proj (getState : SR S S).
Proof. by intros st. Qed.

Lemma keeps_modify {S T} (proj : S → T) (f : S → S) :
  (∀ st, proj (f st) = proj st) → keeps proj (modify f).
Proof. intros Hf st. apply Hf. Qed.

Lemma keeps_bind {S A C T} (proj : S → T) (m : SR S A) (k : A → SR S C) :
  keeps proj m → (∀ a, keeps proj (k a)) → keeps proj (m ≫= k).
Proof.
  intros Hm Hk st. unfold mbind, SR_bind. specialize (Hm st).
  destruct (m st) as [[a|msg] st']; simpl in *; [|done].
  by rewrite Hk.
Qed.

Lemma keeps_mapM {S A C T} (proj : S → T) (f : A → SR S C) (l : list A) :
  (∀ x, keeps proj (f x)) → keeps proj (mapM f l).
Proof.
  intros Hf. induction l as [|x l IH]; [apply keeps_ret|].
  simpl. apply keeps_bind; [done|]. intros y.
  apply keeps_bind; [done|]. intros ys. apply keeps_ret.
Qed.

(** ** Registering a join (C7) *)

Lemma ensureAliasForTable_ok (table : PodTable) (b : SelectQueryBuilder) :
  ∃ alias, (ensureAliasForTable table b).1 = Ok alias.
Proof.
  unfold ensureAliasForTable.
  destruct (truthyStr (tableAliases b !! tbl_ref table)); eauto.
Qed.

Lemma ensureAliasForTable_keeps {T} (proj : SelectQueryBuilder → T) (table : PodTable) :
  (∀ ta at_ au b, proj (setAliases ta at_ au b) = proj b) →
  keeps proj (ensureAliasForTable table).
Proof.
  intros Hp b. unfold ensureAliasForTable.
  destruct (truthyStr (tableAliases b !! tbl_ref table)); [done|]. apply Hp.
Qed.

Lemma resolveColumnReference_keeps {T} (proj : SelectQueryBuilder → T) (field : FieldRef) :
  (∀ ta at_ au b, proj (setAliases ta at_ au b) = proj b) →
  keeps proj (resolveColumnReference field).
Proof.
  intros Hp. destruct field as [h|s|v]; simpl.
  - destruct (ch_table h); [|apply keeps_throw].
    apply keeps_bind; [by apply ensureAliasForTable_keeps|]. intros. apply keeps_ret.
  - destruct (parseColumnReferenceString s) as [parsed col].
    apply keeps_bind; [apply keeps_getState|]. intros b.
    destruct (truthyStr _); [|apply keeps_throw].
    destruct (aliasToTable b !! _); [apply keeps_ret | apply keeps_throw].
  - apply keeps_throw.
Qed.

Lemma resolveJoinConditions_keeps {T} (proj : SelectQueryBuilder → T)
    (condition : JoinConditionArg) (joinAlias : string) :
  (∀ ta at_ au b, proj (setAliases ta at_ au b) = proj b) →
  keeps proj (resolveJoinConditions condition joinAlias).
Proof.
  intros Hp. destruct condition as [v|[|entry entries]]; try apply keeps_throw.
  unfold resolveJoinConditions. apply keeps_mapM. intros [leftKey rightKey].
  apply keeps_bind; [by apply resolveColumnReference_keeps|]. intros leftRef.
  apply keeps_bind; [by apply resolveColumnReference_keeps|]. intros rightRef.
  destruct (_ && _); [apply keeps_throw | apply keeps_ret].
Qed.

(** An entry that [resolveJoinConditions] lets through names the joined
    alias on its left or on its right. *)
Lemma resolveJoinConditions_sides (condition : JoinConditionArg) (joinAlias : string)
    (b b' : SelectQueryBuilder) (resolved : list ResolvedJoinCondition) :
  resolveJoinConditions condition joinAlias b = (Ok resolved, b') →
  ∃ entries, condition = JoinObject entries ∧ entries ≠ []
    ∧ length resolved = length entries
    ∧ Forall (fun rc => cr_alias (jc_left rc) = joinAlias ∨ cr_alias (jc_right rc) = joinAlias)
             resolved.
Proof.
  destruct condition as [v|[|entry entries]]; [done..|].
  unfold resolveJoinConditions. intros E. exists (entry :: entries).
  split; [done|]. split; [done|].
  eapply mapM_inv_ok; [|exact E].
  intros [leftKey rightKey] st rc st' Ef.
  apply bind_inv_ok in Ef as (leftRef & st1 & _ & Ef).
  apply bind_inv_ok in Ef as (rightRef & st2 & _ & Ef).
  destruct (String.eqb (cr_alias leftRef) joinAlias) eqn:El.
  - injection Ef as <- <-. left. by apply String.eqb_eq.
  - destruct (String.eqb (cr_alias rightRef) joinAlias) eqn:Er; [|done].
    injection Ef as <- <-. right. by apply String.eqb_eq.
Qed.

(** A reference by name with an alias in it resolves to that alias, or
    throws; the builder is as before. *)
Lemma resolveColumnReference_named (field alias : string) (b : SelectQueryBuilder) :
  (parseColumnReferenceString field).1 = Some alias →
  (∃ msg, resolveColumnReference (RefName field) b = (Throw msg, b))
  ∨ (∃ ref, resolveColumnReference (RefName field) b = (Ok ref, b) ∧ cr_alias ref = alias).
Proof.
  intros Hp. unfold resolveColumnReference.
  destruct (parseColumnReferenceString field) as [parsed col]. simpl in Hp. subst parsed.
  rewrite (bind_ok getState _ b b b eq_refl).
  unfold truthyStr. destruct (String.eqb alias ""); [left; by eexists|].
  destruct (aliasToTable b !! alias); [right | left]; by eexists.
Qed.

(** A first entry with an alias on each side, neither of them the joined
    alias, is not let through. *)
Lemma resolveJoinConditions_neither (leftKey rightKey leftAlias rightAlias joinAlias : string)
    (more : list (string * FieldRef)) (b : SelectQueryBuilder) :
  (parseColumnReferenceString leftKey).1 = Some leftAlias →
  (parseColumnReferenceString rightKey).1 = Some rightAlias →
  leftAlias ≠ joinAlias → rightAlias ≠ joinAlias →
  ∃ msg, (resolveJoinConditions (JoinObject ((leftKey, RefName rightKey) :: more)) joinAlias b).1
         = Throw msg.
Proof.
  intros Hl Hr Hnl Hnr. unfold resolveJoinConditions.
  change (mapM ?f ((leftKey, RefName rightKey) :: more))
    with (y ← f (leftKey, RefName rightKey); ys ← mapM f more; mret (y :: ys)).
  cbv beta iota.
  destruct (resolveColumnReference_named leftKey leftAlias b Hl)
    as [[msg El]|(leftRef & El & Hla)].
  { exists msg. erewrite bind_throw; [done|]. by erewrite bind_throw. }
  destruct (resolveColumnReference_named rightKey rightAlias b Hr)
    as [[msg Er]|(rightRef & Er & Hra)].
  { exists msg. erewrite bind_throw; [done|].
    erewrite bind_ok by exact El. by erewrite bind_throw. }
  eexists. erewrite bind_throw; [done|].
  erewrite bind_ok by exact El. erewrite bind_ok by exact Er.
  rewrite Hla, Hra.
  apply String.eqb_neq in Hnl, Hnr. rewrite Hnl, Hnr. reflexivity.
Qed.




(** ** Aggregates of the fallback (C8) *)

(** The loop of [collectNumericValues] without [distinct]: the values of the
    column in row order, those that are [undefined] or [null] dropped, the
    rest coerced by [Number], those that are [NaN] dropped. *)
Lemma collectNumericValues_plain `{JsHost} (primary : option string) (column : ColumnReference)
    (rows : list Row) :
  collectNumericValues primary column rows false
  = filter (fun n => PrimFloat.is_nan n = false)
      (Value.toNumber
       <$> filter (fun v => Value.isNullish v = false)
             ((fun row => getRowValueForColumn primary row column) <$> rows)).
Proof.
  unfold collectNumericValues. induction rows as [|row rows IH]; [reflexivity|].
  rewrite fmap_cons. cbn [omap list_omap]. rewrite IH. unfold numericOfRow.
  destruct (Value.isNullish (getRowValueForColumn primary row column)) eqn:En.
  - rewrite filter_cons_False by (by rewrite En). reflexivity.
  - rewrite filter_cons_True by done. rewrite fmap_cons.
    destruct (PrimFloat.is_nan _) eqn:Enan.
    + rewrite filter_cons_False by (by rewrite Enan). reflexivity.
    + rewrite filter_cons_True by done. reflexivity.
Qed.

Lemma computeAggregateValue_no_column `{JsHost} (aggregate : AggregateExpression)
    (rows : list Row) (b : SelectQueryBuilder) :
  agg_column aggregate = None →
  computeAggregateValue aggregate rows b
  = (Ok (aggregateOver (primaryAlias b) aggregate None rows), b).
Proof.
  intros Hc. unfold computeAggregateValue, resolveAggregateColumnRef. by rewrite Hc.
Qed.

Lemma computeAggregateValue_resolved `{JsHost} (f : AggregateFunction) (column : ColumnArg)
    (d : bool) (rows : list Row) (b b' : SelectQueryBuilder) (ref : ColumnReference) :
  column ≠ ByName "" →
  resolveColumnReference (fieldRefOf column) b = (Ok ref, b') →
  computeAggregateValue {| func := f; agg_column := Some column; distinct := d |} rows b
  = (Ok (aggregateOver (primaryAlias b')
           {| func := f; agg_column := Some column; distinct := d |} (Some ref) rows),
     b').
Proof.
  intros Hne Href. unfold computeAggregateValue, resolveAggregateColumnRef. simpl.
  assert (∀ (k : option ColumnReference → B JsValue),
            (match column with
             | ByName "" => mret None
             | _ => ref ← resolveColumnReference (fieldRefOf column); mret (Some ref)
             end ≫= k) b = k (Some ref) b') as ->; [|reflexivity].
  intros k. destruct column as [h|[|c s]]; [| done |].
  - erewrite bind_ok; [reflexivity|]. by erewrite bind_ok.
  - erewrite bind_ok; [reflexivity|]. by erewrite bind_ok.
Qed.

(** C8.  In the fallback aggregation, for every group of rows: [count()]
    returns the size of the group, 0 for the empty group; [sum], [avg], [min]
    and [max] work on the values of the column coerced by [Number], with
    [undefined], [null] and [NaN] dropped, and return [null] when none is
    left; otherwise [sum] is their sum, [avg] that sum divided by their
    number, [min] and [max] the least and the greatest. *)
Theorem fallback_aggregate_values `{JsHost} (b b' : SelectQueryBuilder) (rows : list Row)
    (column : ColumnArg) (ref : ColumnReference) :
  column ≠ ByName "" →
  resolveColumnReference (fieldRefOf column) b = (Ok ref, b') →
  let aggregate f d := {| func := f; agg_column := Some column; distinct := d |} in
  let collected d := collectNumericValues (primaryAlias b') ref rows d in
  computeAggregateValue countAll rows b = (Ok (numberOfNat (length rows)), b)
  ∧ computeAggregateValue countAll [] b = (Ok (VNum 0), b)
  ∧ collected false
    = filter (fun n => PrimFloat.is_nan n = false)
        (Value.toNumber
         <$> filter (fun v => Value.isNullish v = false)
               ((fun row => getRowValueForColumn (primaryAlias b') row ref) <$> rows))
  ∧ (∀ d, collected d = [] →
       computeAggregateValue (aggregate sum d) rows b = (Ok VNull, b')
       ∧ computeAggregateValue (aggregate avg d) rows b = (Ok VNull, b')
       ∧ computeAggregateValue (aggregate min d) rows b = (Ok VNull, b')
       ∧ computeAggregateValue (aggregate max d) rows b = (Ok VNull, b'))
  ∧ (∀ d, collected d ≠ [] →
       computeAggregateValue (aggregate sum d) rows b
         = (Ok (VNum (sumNumbers (collected d))), b')
       ∧ computeAggregateValue (aggregate avg d) rows b
         = (Ok (VNum (PrimFloat.div (sumNumbers (collected d)) (lengthNumber (collected d)))),
            b')
       ∧ computeAggregateValue (aggregate min d) rows b
         = (Ok (VNum (mathMin (collected d))), b')
       ∧ computeAggregateValue (aggregate max d) rows b
         = (Ok (VNum (mathMax (collected d))), b')).
Proof.
  intros Hne Href aggregate collected.
  split; [by apply computeAggregateValue_no_column|].
  split; [by apply computeAggregateValue_no_column|].
  split; [apply collectNumericValues_plain|].
  split; intros d Hvalues; subst aggregate collected; cbv beta in *;
    rewrite !(computeAggregateValue_resolved _ _ _ _ _ _ _ Hne Href);
    unfold aggregateOver; cbn [func distinct];
    destruct (collectNumericValues (primaryAlias b') ref rows d); done.
Qed.

(** Scenario S4: four rows, ages 21, 29 and 42 and one row without an age. *)
Lemma fallback_aggregate_values_witness :
  resolveColumnReference (RefName "age") fromProfiles
  = (Ok {| cr_table := profiles; cr_alias := "profiles"; cr_column := "age" |}, fromProfiles)
  ∧ computeAggregateValue (H := RefHost.host) countAll aggregateRows fromProfiles
    = (Ok (VNum 4), fromProfiles)
  ∧ computeAggregateValue (H := RefHost.host)
      {| func := avg; agg_column := Some (ByName "age"); distinct := false |}
      aggregateRows fromProfiles
    = (Ok (VNum (PrimFloat.div 92 3)), fromProfiles)
  ∧ computeAggregateValue (H := RefHost.host)
      {| func := max; agg_column := Some (ByName "age"); distinct := false |}
      aggregateRows fromProfiles
    = (Ok (VNum 42), fromProfiles)
  ∧ computeAggregateValue (H := RefHost.host)
      {| func := sum; agg_column := Some (ByName "age"); distinct := false |}
      [] fromProfiles
    = (Ok VNull, fromProfiles).
Proof.
  split; [reflexivity|].
  pose proof (fallback_aggregate_values (H := RefHost.host) fromProfiles fromProfiles
                aggregateRows (ByName "age")
                {| cr_table := profiles; cr_alias := "profiles"; cr_column := "age" |}
                ltac:(discriminate) eq_refl) as (Hcount & _ & _ & _ & Hsome).
  pose proof (fallback_aggregate_values (H := RefHost.host) fromProfiles fromProfiles
                [] (ByName "age")
                {| cr_table := profiles; cr_alias := "profiles"; cr_column := "age" |}
                ltac:(discriminate) eq_refl) as (_ & _ & _ & Hnone & _).
  split; [exact Hcount|].
  destruct (Hsome false ltac:(discriminate)) as (_ & Havg & _ & Hmax).
  split; [exact Havg|]. split; [exact Hmax|].
  exact (proj1 (Hnone false eq_refl)).
Defined.

(** ** The executor: connection and preflight *)

Section ExecutorFacts.
Context `{JsHost}.
Variable w : World.
Variable cv : Converter.

(** [connect()] sends one GET to the Pod root unless the dialect is
    connected; it ends connected or throws. *)
Lemma connect_cases (d : DialectState) :
  trace (connect w cv d).2
  = trace d ++ (if connected d then [] else [Fetch (request GET (cv_podUrl cv))])
  ∧ ((connect w cv d).1 = Ok () ∧ connected (connect w cv d).2 = true
     ∨ (∃ msg, (connect w cv d).1 = Throw msg) ∧ connected (connect w cv d).2 = false).
Proof.
  unfold connect, isConnected, mbind, SR_bind. destruct d as [c tr].
  destruct c; simpl.
  - split; [by rewrite app_nil_r | by left].
  - unfold fetch; simpl. destruct (w_fetch w tr _) as [response|msg]; simpl.
    + destruct (ok response); simpl; [by split; [|left]|].
      split; [done|]. right. split; [by eexists | done].
    + split; [done|]. right. split; [by eexists | done].
Qed.

Lemma connect_connected (d : DialectState) :
  connected d = true → connect w cv d = (Ok (), d).
Proof. intros Hc. unfold connect, isConnected, mbind, SR_bind. by rewrite Hc. Qed.

(** ** Inserting an empty batch (C6) *)

(** C6, as the code has it.  Inserting an empty array of rows returns
    nothing: it throws.  When the connection check passes (or the dialect
    is connected already) the error is [INSERT operation requires at least
    one value]; no preflight request and no SPARQL statement is sent, the
    only request being the connection check of a dialect that has not
    connected yet. *)
Theorem insert_empty_batch_throws (table : PodTable) (d : DialectState) :
  let run := insert_execute w cv (values (ManyRows []) (insert table)) d in
  (∃ msg, run.1 = Throw msg)
  ∧ trace run.2
    = trace d ++ (if connected d then [] else [Fetch (request GET (cv_podUrl cv))])
  ∧ (connected run.2 = true →
     run.1 = Throw "INSERT operation requires at least one value").
Proof.
  cbv zeta. unfold insert_execute, values, insert, session_execute, query; simpl.
  destruct (connect_cases d) as [Htrace Hcases].
  destruct (connect w cv d) as [r d1] eqn:E. simpl in Htrace, Hcases.
  destruct Hcases as [[-> Hc]|[[msg ->] Hc]].
  - rewrite (bind_ok _ _ _ _ _ E).
    destruct (resolveTableUrls cv table) as [containerUrl resourceUrl].
    unfold mbind, SR_bind, insertCase, throw; simpl.
    split; [by eexists|]. by split.
  - rewrite (bind_throw _ _ _ _ _ E). simpl.
    split; [by eexists|]. split; [done|]. by rewrite Hc.
Qed.

End ExecutorFacts.

(** The claim as stated fails: on a Pod that answers every request, the
    insert of an empty batch throws, after the connection check has gone
    out. *)
Lemma insert_empty_batch_counterexample :
  insert_execute (H := RefHost.host) emptyPod alicePod (values (ManyRows []) (insert profiles))
    freshDialect
  = (Throw "INSERT operation requires at least one value",
     {| connected := true; trace := [Fetch (request GET podRoot)] |}).
Proof. reflexivity. Qed.

(** ** What a computation sends *)

Section Emits.
Context {S : Type} (tr : S → list Event) (P : Event → Prop).

Lemma emits_silent {A} (m : SR S A) : (∀ st, tr (m st).2 = tr st) → emits tr P m.
Proof. intros Hm st. exists []. by rewrite app_nil_r. Qed.

Lemma emits_ret {A} (a : A) : emits tr P (mret a).
Proof. by apply emits_silent. Qed.

Lemma emits_throw {A} (msg : string) : emits tr P (throw msg : SR S A).
Proof. by apply emits_silent. Qed.

Lemma emits_liftRes {A} (r : Res A) : emits tr P (liftRes r).
Proof. by apply emits_silent. Qed.

Lemma emits_getState : emits tr P getState.
Proof. by apply emits_silent. Qed.

Lemma emits_bind {A C} (m : SR S A) (k : A → SR S C) :
  emits tr P m → (∀ a, emits tr P (k a)) → emits tr P (m ≫= k).
Proof.
  intros Hm Hk st. unfold mbind, SR_bind. destruct (Hm st) as (post & Hpost & HP).
  destruct (m st) as [[a|msg] st']; simpl in *; [|by exists post].
  destruct (Hk a st') as (post' & Hpost' & HP').
  exists (post ++ post'). rewrite Hpost', Hpost, app_assoc. split; [done|].
  by apply Forall_app.
Qed.

Lemma emits_attempt {A} (m : SR S A) : emits tr P m → emits tr P (attempt m).
Proof.
  intros Hm st. unfold attempt. destruct (Hm st) as (post & Hpost & HP).
  destruct (m st) as [r st']. by exists post.
Qed.

Lemma emits_mapM {A C} (f : A → SR S C) (l : list A) :
  (∀ x, emits tr P (f x)) → emits tr P (mapM f l).
Proof.
  intros Hf. induction l as [|x l IH]; [apply emits_ret|].
  simpl. apply emits_bind; [done|]. intros y.
  apply emits_bind; [done|]. intros ys. apply emits_ret.
Qed.

Lemma emits_forEachM {A C} (f : A → SR S (option C)) (l : list A) :
  (∀ x, emits tr P (f x)) → emits tr P (forEachM f l).
Proof.
  intros Hf. induction l as [|x l IH]; [apply emits_ret|].
  simpl. apply emits_bind; [done|]. intros y.
  apply emits_bind; [done|]. intros ys. apply emits_ret.
Qed.

End Emits.

Lemma emits_weaken {S A} (tr : S → list Event) (P Q : Event → Prop) (m : SR S A) :
  (∀ e, P e → Q e) → emits tr P m → emits tr Q m.
Proof.
  intros HPQ Hm st. destruct (Hm st) as (post & Hpost & HP).
  exists post. split; [done|]. eapply Forall_impl; eauto.
Qed.

(** One step of a proof that a computation only sends what it may. *)
Ltac emits_step :=
  first
    [ apply emits_ret
    | apply emits_throw
    | apply emits_liftRes
    | apply emits_getState
    | apply emits_attempt
    | apply emits_bind; [|intros ?]
    | progress cbv zeta
    | case_match ].

Section ExecutorEmits.
Context `{JsHost}.
Variable w : World.
Variable cv : Converter.

Lemma emits_fetch (P : Event → Prop) (rq : Request) :
  P (Fetch rq) → emits trace P (fetch w rq).
Proof. intros HP d. exists [Fetch rq]. split; [done|]. by constructor. Qed.

Lemma emits_executeOnResource (P : Event → Prop) (resourceUrl : string) (q : SPARQLQuery) :
  P (Sparql resourceUrl q) → emits trace P (executeOnResource w resourceUrl q).
Proof. intros HP d. exists [Sparql resourceUrl q]. split; [done|]. by constructor. Qed.

Lemma emits_setConnected (P : Event → Prop) (c : bool) : emits trace P (setConnected c).
Proof. by apply emits_silent. Qed.

Lemma emits_isConnected (P : Event → Prop) : emits trace P isConnected.
Proof. by apply emits_silent. Qed.

(** The connection check and the preflight send HTTP requests only. *)
Lemma connect_fetches : emits trace isFetch (connect w cv).
Proof.
  unfold connect.
  repeat first [apply emits_isConnected | apply emits_setConnected
                | by apply emits_fetch | emits_step].
Qed.

Lemma resourceExists_fetches (resourceUrl : string) :
  emits trace isFetch (resourceExists w resourceUrl).
Proof. unfold resourceExists. repeat first [by apply emits_fetch | emits_step]. Qed.

Lemma ensureResourceExists_fetches (resourceUrl : string) (createIfMissing : bool) :
  emits trace isFetch (ensureResourceExists w resourceUrl createIfMissing).
Proof.
  unfold ensureResourceExists.
  repeat first [apply resourceExists_fetches | by apply emits_fetch | emits_step].
Qed.

Lemma ensureContainerExists_fetches (containerUrl : string) :
  emits trace isFetch (ensureContainerExists w containerUrl).
Proof. unfold ensureContainerExists. repeat first [by apply emits_fetch | emits_step]. Qed.

Lemma checkResourceExistence_fetches (values : list JsObject) (table : PodTable)
    (containerUrl : string) :
  emits trace isFetch (checkResourceExistence w cv values table containerUrl).
Proof. unfold checkResourceExistence. repeat first [by apply emits_fetch | emits_step]. Qed.

End ExecutorEmits.

(** ** Deleting from a resource that does not exist (C5) *)

Section DeleteFacts.
Context `{JsHost}.
Variable w : World.
Variable cv : Converter.

(** The two builders hand a tree to the complex path exactly when the
    tree does not simplify: when it is not a comparison with a column and a
    value. *)
Lemma complexTree_whereOf (conditions : WhereArg) (tree : QueryCondition) :
  complexTree (whereOf conditions) = Some tree
  ↔ conditions = WhereTree tree ∧ convertQueryConditionToSimple tree = [].
Proof.
  destruct conditions as [c|m]; simpl.
  - unfold complexTree; simpl. destruct (convertQueryConditionToSimple c) eqn:E; simpl.
    + split; [by intros [= <-] | by intros [[= <-] _]].
    + split; [done | intros [[= <-] E']; congruence].
  - unfold complexTree; simpl. split; [done | by intros [? _]].
Qed.

(** The path of a where map, of no where at all, and of a tree that
    simplifies: when the preflight finds the container and not the resource,
    the delete returns [[{success: true, source, status: 404}]] and what
    it has sent is HTTP requests only. *)
Lemma delete_of_missing_resource (operation : PodOperation) (d d1 d2 d3 : DialectState) :
  op_type operation = OpDelete →
  connect w cv d = (Ok (), d1) →
  ensureContainerExists w (resolveTableUrls cv (op_table operation)).1 d1 = (Ok (), d2) →
  resourceExists w (resolveTableUrls cv (op_table operation)).2 d2 = (Ok false, d3) →
  query w cv operation d
  = (Ok [notFoundRow (resolveTableUrls cv (op_table operation)).2], d3)
  ∧ ∃ post, trace d3 = trace d ++ post ∧ Forall isFetch post.
Proof.
  intros Htype Hconnect Hcontainer Hresource. split.
  - unfold query. rewrite (bind_ok _ _ _ _ _ Hconnect), Htype.
    destruct (resolveTableUrls cv (op_table operation)) as [containerUrl resourceUrl].
    simpl in *.
    assert (deleteCase w cv operation containerUrl resourceUrl d1
            = (Ok (inl [notFoundRow resourceUrl]), d3)) as Hcase.
    { unfold deleteCase. erewrite bind_ok by exact Hcontainer.
      erewrite bind_ok by exact Hresource. reflexivity. }
    by rewrite (bind_ok _ _ _ _ _ Hcase).
  - destruct (connect_fetches w cv d) as (p1 & Hp1 & HP1).
    destruct (ensureContainerExists_fetches w (resolveTableUrls cv (op_table operation)).1 d1)
      as (p2 & Hp2 & HP2).
    destruct (resourceExists_fetches w (resolveTableUrls cv (op_table operation)).2 d2)
      as (p3 & Hp3 & HP3).
    rewrite Hconnect in Hp1. rewrite Hcontainer in Hp2. rewrite Hresource in Hp3.
    simpl in *. exists (p1 ++ p2 ++ p3).
    rewrite Hp3, Hp2, Hp1, <- !app_assoc. split; [done|].
    by repeat apply Forall_app_2.
Qed.

(** The path of a tree that does not simplify: the same preflight outcome
    makes the delete throw. *)
Lemma complex_delete_of_missing_resource (operation : PodOperation)
    (condition : QueryCondition) (d d1 d2 : DialectState) :
  ensureContainerExists w (resolveTableUrls cv (op_table operation)).1 d = (Ok (), d1) →
  resourceExists w (resolveTableUrls cv (op_table operation)).2 d1 = (Ok false, d2) →
  executeComplexDelete w cv operation condition d
  = (Throw ("Resource not found: " +:+ (resolveTableUrls cv (op_table operation)).2), d2).
Proof.
  intros Hcontainer Hresource. unfold executeComplexDelete.
  destruct (resolveTableUrls cv (op_table operation)) as [containerUrl resourceUrl].
  simpl in *.
  erewrite bind_ok by exact Hcontainer.
  assert (ensureResourceExists w resourceUrl false d1
          = (Throw ("Resource not found: " +:+ resourceUrl), d2)) as Hensure.
  { unfold ensureResourceExists. erewrite bind_ok by exact Hresource. reflexivity. }
  by rewrite (bind_throw _ _ _ _ _ Hensure).
Qed.

End DeleteFacts.

(** C5.  A delete on a Pod where the container of [profiles] exists and
    its resource does not.  With the where map [{id: 'p1'}] the delete
    returns [[{success: true, source, status: 404}]] after the connection
    check and the two HEAD requests of the preflight.  With the condition
    tree [or(eq(name, 'A'), eq(name, 'C'))] it throws [Resource not found]
    after the same two HEAD requests. *)
Theorem delete_of_missing_resource_by_tree_throws :
  delete_execute (H := RefHost.host) emptyPod alicePod
    (deleteProfilesWhere (WhereMap [("id", VStr "p1")])) freshDialect
  = (Ok [notFoundRow profilesResource],
     {| connected := true;
        trace := [Fetch (request GET podRoot); Fetch (request HEAD profilesContainer);
                  Fetch (request HEAD profilesResource)] |})
  ∧ delete_execute (H := RefHost.host) emptyPod alicePod
      (deleteProfilesWhere (WhereTree nameIsAOrC)) freshDialect
    = (Throw ("Resource not found: " +:+ profilesResource),
       {| connected := false;
          trace := [Fetch (request HEAD profilesContainer);
                    Fetch (request HEAD profilesResource)] |}).
Proof. split; reflexivity. Qed.

(** ** Updates by a condition tree (C1) *)

Section UpdateFacts.
Context `{JsHost}.
Variable w : World.
Variable cv : Converter.

(** A comparison with a column and a value, whatever its operator and its
    column, simplifies to the map [{column: value}]. *)
Lemma convertQueryConditionToSimple_comparison (operator column : string) (value : JsValue)
    (lft : CondLeft) (rgt : option JsValue) (children : option (list QueryCondition))
    (table : option string) :
  column ≠ "" → Value.isUndefined value = false →
  convertQueryConditionToSimple
    (Cond binary_expr operator lft rgt (Some column) value children table)
  = [(column, value)].
Proof.
  intros Hc Hv. unfold convertQueryConditionToSimple, truthyStr; simpl.
  apply String.eqb_neq in Hc. rewrite Hc. by destruct value.
Qed.

(** Any other tree simplifies to the empty map. *)
Lemma convertQueryConditionToSimple_other (condition : QueryCondition) :
  qc_type condition ≠ binary_expr →
  convertQueryConditionToSimple condition = [].
Proof.
  intros Ht. unfold convertQueryConditionToSimple.
  by destruct (qc_type condition).
Qed.

(** So the update of a comparison goes to [query] with the map as its
    where, not to the complex path. *)
Lemma update_by_comparison_is_simple (operator column : string) (value : JsValue)
    (lft : CondLeft) (rgt : option JsValue) (children : option (list QueryCondition))
    (tableName : option string) (table : PodTable) (data : JsObject) :
  column ≠ "" → Value.isUndefined value = false →
  update_execute w cv
    (update_where
       (WhereTree (Cond binary_expr operator lft rgt (Some column) value children tableName))
       (set data (update table)))
  = session_execute w cv
      {| op_type := OpUpdate; op_table := table; op_data := Some data;
         op_where := Some (WhereMap [(column, value)]); op_select := None;
         op_values := None; op_limit := None; op_offset := None;
         op_orderBy := None; op_distinct := false |}.
Proof.
  intros Hc Hv. unfold update_execute, update_where, set, update, whereOf; simpl.
  by rewrite (convertQueryConditionToSimple_comparison _ _ _ _ _ _ _ Hc Hv).
Qed.

(** And the update of any other tree goes to the complex path. *)
Lemma update_by_other_tree_is_complex (condition : QueryCondition) (table : PodTable)
    (data : JsObject) :
  qc_type condition ≠ binary_expr →
  update_execute w cv (update_where (WhereTree condition) (set data (update table)))
  = session_executeComplexUpdate w cv table data condition.
Proof.
  intros Ht. unfold update_execute, update_where, set, update, whereOf, complexTree; simpl.
  by rewrite (convertQueryConditionToSimple_other _ Ht).
Qed.

(** With a map as its where, [query] sends the native UPDATE template once
    the preflight has passed: no SELECT. *)
Lemma update_by_map_is_native (table : PodTable) (data entries : JsObject)
    (d d1 d2 d3 : DialectState) :
  entries ≠ [] →
  connect w cv d = (Ok (), d1) →
  ensureContainerExists w (resolveTableUrls cv table).1 d1 = (Ok (), d2) →
  ensureResourceExists w (resolveTableUrls cv table).2 false d2 = (Ok (), d3) →
  session_execute w cv
    {| op_type := OpUpdate; op_table := table; op_data := Some data;
       op_where := Some (WhereMap entries); op_select := None;
       op_values := None; op_limit := None; op_offset := None;
       op_orderBy := None; op_distinct := false |} d
  = executeOnResource w (resolveTableUrls cv table).2 (convertUpdate cv data entries table) d3.
Proof.
  intros Hne Hconnect Hcontainer Hresource. unfold session_execute, query.
  rewrite (bind_ok _ _ _ _ _ Hconnect). simpl.
  destruct (resolveTableUrls cv table) as [containerUrl resourceUrl]. simpl in *.
  assert (updateCase w cv
            {| op_type := OpUpdate; op_table := table; op_data := Some data;
               op_where := Some (WhereMap entries); op_select := None;
               op_values := None; op_limit := None; op_offset := None;
               op_orderBy := None; op_distinct := false |} containerUrl resourceUrl d1
          = (Ok (inr (convertUpdate cv data entries table)), d3)) as Hcase.
  { unfold updateCase; simpl. destruct entries as [|entry entries]; [done|].
    erewrite bind_ok by exact Hcontainer. by erewrite bind_ok by exact Hresource. }
  by rewrite (bind_ok _ _ _ _ _ Hcase).
Qed.

(** The statements of the complex path after the preflight: the subject
    SELECT, then one UPDATE for each subject it returned (there is
    something to write as soon as one key of the set-map is a column), as
    long as the engine accepts them. *)
Lemma complex_update_statements (table : PodTable) (data : JsObject)
    (condition : QueryCondition) (operation : PodOperation)
    (d d1 d2 : DialectState) (rows : list Row) :
  op_table operation = table → op_data operation = Some data →
  filter (fun key => Obj.has (columns table) key) (Obj.keys data) ≠ [] →
  (∀ history url q, sp_type q = UPDATE → ∃ answer, w_queryContainer w history url q = Ok answer) →
  ensureContainerExists w (resolveTableUrls cv table).1 d = (Ok (), d1) →
  ensureResourceExists w (resolveTableUrls cv table).2 false d1 = (Ok (), d2) →
  w_queryContainer w (trace d2) (resolveTableUrls cv table).2
    {| sp_type := SELECT;
       sp_query :=
         Text (prefixLines (cv_prefixes cv) +:+ Js.nl +:+ "SELECT ?subject WHERE {" +:+ Js.nl
               +:+ buildWhereClauseForCondition w cv condition table +:+ Js.nl +:+ "}");
       sp_prefixes := cv_prefixes cv |}
  = Ok rows →
  eventKind <$> trace (executeComplexUpdate w cv operation condition d).2
  = (eventKind <$> trace d2)
    ++ Statement SELECT (resolveTableUrls cv table).2
       :: ((fun _ => Statement UPDATE (resolveTableUrls cv table).2)
           <$> omap (subjectOfRow) rows).
Proof.
  intros Htable Hdata Hcolumns Hengine Hcontainer Hresource Hselect.
  unfold executeComplexUpdate. rewrite Htable, Hdata. simpl.
  destruct (filter _ (Obj.keys data)) as [|key keys] eqn:Ekeys; [done|].
  destruct (resolveTableUrls cv table) as [containerUrl resourceUrl]. simpl in *.
  erewrite bind_ok by exact Hcontainer.
  erewrite bind_ok by exact Hresource.
  set (d3 := {| connected := connected d2;
                trace := trace d2 ++ [Sparql resourceUrl
                  {| sp_type := SELECT;
                     sp_query :=
                       Text (prefixLines (cv_prefixes cv) +:+ Js.nl +:+ "SELECT ?subject WHERE {"
                             +:+ Js.nl +:+ buildWhereClauseForCondition w cv condition table
                             +:+ Js.nl +:+ "}");
                     sp_prefixes := cv_prefixes cv |}] |}).
  assert (findSubjectsForCondition w cv condition table resourceUrl d2
          = (Ok (omap subjectOfRow rows), d3)) as Hfind.
  { unfold findSubjectsForCondition, executeOnResource, mbind, SR_bind. by rewrite Hselect. }
  erewrite bind_ok by exact Hfind.
  assert (eventKind <$> trace d3
          = (eventKind <$> trace d2) ++ [Statement SELECT resourceUrl]) as Hd3.
  { subst d3; simpl. by rewrite fmap_app. }
  change ((eventKind <$> trace d2) ++ Statement SELECT resourceUrl :: ?l)
    with ((eventKind <$> trace d2) ++ [Statement SELECT resourceUrl] ++ l).
  rewrite app_assoc, <- Hd3. clear Hd3 Hfind.
  generalize d3. clear d3.
  induction (omap subjectOfRow rows) as [|subject subjects IH]; intros d3.
  { simpl. by rewrite app_nil_r. }
  cbn [forEachM fmap list_fmap].
  assert (buildUpdateQueryForSubject cv subject data table (key :: keys) ≠ None) as Hbuilt.
  { unfold buildUpdateQueryForSubject.
    assert (is_Some (getColumn table key)) as [column Hcolumn].
    { assert (key ∈ filter (fun key => Obj.has (columns table) key) (Obj.keys data)) as Hin
        by (rewrite Ekeys; left).
      apply list_elem_of_filter in Hin as [Hin _]. unfold Obj.has in Hin. unfold getColumn.
      destruct (Obj.get (columns table) key); [by eexists | done]. }
    unfold indexed. cbn [imap omap list_omap]. rewrite Hcolumn. simpl. done. }
  destruct (buildUpdateQueryForSubject cv subject data table (key :: keys))
    as [updateQuery|]; [|done].
  destruct (Hengine (trace d3) resourceUrl
              {| sp_type := UPDATE; sp_query := Text updateQuery;
                 sp_prefixes := cv_prefixes cv |} eq_refl) as [answer Hanswer].
  unfold mbind at 1, SR_bind at 1. unfold mbind at 1, SR_bind at 1.
  unfold executeOnResource at 1. rewrite Hanswer. simpl.
  unfold mbind at 1, SR_bind at 1.
  specialize (IH {| connected := connected d3;
                    trace := trace d3 ++ [Sparql resourceUrl
                      {| sp_type := UPDATE; sp_query := Text updateQuery;
                         sp_prefixes := cv_prefixes cv |}] |}).
  destruct (forEachM _ subjects _) as [[results|msg] d4] eqn:Eloop; simpl in *;
    rewrite IH, fmap_app, <- app_assoc; reflexivity.
Qed.

End UpdateFacts.

(** C1.  Two updates of [profiles] whose where is a condition tree that is
    neither an equality nor an IN on [id]: [gt(age, 25)] and
    [eq(name, 'A')].  Neither sends a SELECT: after the connection check
    and the preflight each sends the native UPDATE template at once, on the
    subject the template derives from the where map, which has no [id] and so
    gets the current time as its id.  The tree [or(eq(name, 'A'),
    eq(name, 'C'))] goes the other way: a SELECT, then one UPDATE for each
    subject. *)
Theorem update_by_comparison_skips_select :
  trace (update_execute (H := RefHost.host) profilesPod alicePod
           (setAge99Where (WhereTree (gt (ByName "age") (VNum 25)))) freshDialect).2
  = [Fetch (request GET podRoot); Fetch (request HEAD profilesContainer);
     Fetch (request HEAD profilesResource);
     Sparql profilesResource
       (convertUpdate (H := RefHost.host) alicePod [("age", VNum 99)] [("age", VNum 25)]
          profiles)]
  ∧ trace (update_execute (H := RefHost.host) profilesPod alicePod
             (setAge99Where (WhereTree (eq_ (ByName "name") (VStr "A")))) freshDialect).2
    = [Fetch (request GET podRoot); Fetch (request HEAD profilesContainer);
       Fetch (request HEAD profilesResource);
       Sparql profilesResource
         (convertUpdate (H := RefHost.host) alicePod [("age", VNum 99)] [("name", VStr "A")]
            profiles)]
  ∧ generateSubjectUri (H := RefHost.host) alicePod [("name", VStr "A")] profiles
    = profileSubject (DateNow (JsHost := RefHost.host))
  ∧ eventKind
    <$> trace (update_execute (H := RefHost.host) profilesPod alicePod
                 (setAge99Where (WhereTree nameIsAOrC)) freshDialect).2
    = [Http HEAD profilesContainer; Http HEAD profilesResource;
       Statement SELECT profilesResource; Statement UPDATE profilesResource;
       Statement UPDATE profilesResource].
Proof. repeat split; reflexivity. Qed.

(** ** Joins of more than one condition (C3) *)

Lemma keeps_liftB {A T} (proj : SelectQueryBuilder → T) (m : B A) :
  keeps proj m → keeps (S := SelectQueryBuilder * DialectState) (fun st => proj st.1) (liftB m).
Proof.
  intros Hm [b d]. unfold liftB; simpl. specialize (Hm b).
  by destruct (m b) as [r b'].
Qed.

Lemma keeps_liftM {A T} (proj : SelectQueryBuilder → T) (m : M A) :
  keeps (S := SelectQueryBuilder * DialectState) (fun st => proj st.1) (liftM m).
Proof. intros [b d]. unfold liftM; simpl. by destruct (m d) as [r d']. Qed.

Lemma keeps_runNested {A T} (proj : SelectQueryBuilder → T) (nested : SelectQueryBuilder)
    (m : X A) :
  keeps (fun st => proj st.1) (runNested nested m).
Proof. intros [b d]. unfold runNested; simpl. by destruct (m (nested, d)) as [r st']. Qed.

Section JoinFacts.
Context `{JsHost}.
Variable w : World.
Variable cv : Converter.

Lemma mergeRowsWithJoin_first (primary : option string) (baseRows joinRows : list Row)
    (join : JoinEntry) :
  mergeRowsWithJoin primary baseRows (firstConditionOnly join) joinRows
  = mergeRowsWithJoin primary baseRows join joinRows.
Proof.
  unfold mergeRowsWithJoin, firstConditionOnly; simpl.
  by destruct (resolvedConditions join) as [|primaryCondition more].
Qed.

Lemma fetchJoinRows_first (join : JoinEntry) (baseRows : list Row) :
  fetchJoinRows w cv (firstConditionOnly join) baseRows = fetchJoinRows w cv join baseRows.
Proof.
  unfold fetchJoinRows, firstConditionOnly; simpl.
  by destruct (resolvedConditions join) as [|primaryCondition more].
Qed.

(** The builder comes out of the join stage as it went in: the rows of a
    join are fetched through a builder of their own. *)
Lemma fetchJoinRows_keeps (join : JoinEntry) (baseRows : list Row) :
  keeps fst (fetchJoinRows w cv join baseRows).
Proof.
  unfold fetchJoinRows. destruct (resolvedConditions join) as [|primaryCondition more];
    [apply keeps_ret|].
  destruct (joinSides join primaryCondition) as [joinRef baseRef].
  apply keeps_bind; [apply (keeps_liftB id), keeps_getState|]. intros b.
  destruct (dedupByKey _ _ _); [apply keeps_ret|].
  match goal with |- keeps _ (let '(_, _) := ?m in _) => destruct m as [built joinQuery] end.
  apply keeps_bind; [apply keeps_liftRes|]. intros _.
  apply keeps_bind; [apply (keeps_runNested id)|]. intros joinRows.
  apply keeps_liftRes.
Qed.

Lemma applyJoinFallbackWith_keeps (joinList : list JoinEntry) (rows : list Row) :
  keeps fst (applyJoinFallbackWith (fetchJoinRows w cv) joinList rows).
Proof.
  revert rows. induction joinList as [|join more IH]; intros rows; [apply keeps_ret|].
  simpl. apply keeps_bind; [apply fetchJoinRows_keeps|]. intros joinRows.
  apply keeps_bind; [apply (keeps_liftB id), keeps_getState|]. intros b. apply IH.
Qed.

(** Merging the joins one after the other reads the first condition of
    each and no other. *)
Lemma applyJoinFallbackWith_first (joinList : list JoinEntry) (rows : list Row)
    (st : SelectQueryBuilder * DialectState) :
  applyJoinFallbackWith (fetchJoinRows w cv) (firstConditionOnly <$> joinList) rows st
  = applyJoinFallbackWith (fetchJoinRows w cv) joinList rows st.
Proof.
  revert rows st. induction joinList as [|join more IH]; intros rows st; [done|].
  cbn [fmap list_fmap applyJoinFallbackWith]. rewrite fetchJoinRows_first.
  unfold mbind at 1 3, SR_bind at 1 3.
  destruct (fetchJoinRows w cv join rows st) as [[joinRows|msg] st1]; [|done].
  unfold mbind, SR_bind, liftB, getState; simpl.
  rewrite mergeRowsWithJoin_first. apply IH.
Qed.

(** Registering a join adds no filter. *)
Lemma addJoin_keeps_joinFilters (type : JoinType) (table : PodTable)
    (condition : JoinConditionArg) :
  keeps joinFilters (addJoin type table condition).
Proof.
  unfold addJoin. destruct type; try apply keeps_throw.
  - apply keeps_bind; [by apply ensureAliasForTable_keeps|]. intros alias.
    apply keeps_bind; [by apply resolveJoinConditions_keeps|]. intros resolved.
    by intros b.
  - apply keeps_bind; [by apply ensureAliasForTable_keeps|]. intros alias.
    apply keeps_bind; [by apply resolveJoinConditions_keeps|]. intros resolved.
    by intros b.
Qed.

(** Without a filter the merged rows stay as they are. *)
Lemma applyJoinFilters_none (rows : list Row) (b : SelectQueryBuilder) :
  joinFilters b = [] → applyJoinFilters rows b = (Ok rows, b).
Proof.
  intros Hnone. unfold applyJoinFilters, mbind, SR_bind, getState. by rewrite Hnone.
Qed.


End JoinFacts.



(** ** What the in-memory steps of a select read (C2) *)

Section Frames.
Context {S : Type} (f : S → S).

Lemma frames_ret {A} (a : A) : frames f (mret a).
Proof. by intros st. Qed.

Lemma frames_throw {A} (msg : string) : frames f (throw msg : SR S A).
Proof. by intros st. Qed.

Lemma frames_liftRes {A} (r : Res A) : frames f (liftRes r).
Proof. by intros st. Qed.

Lemma frames_bind {A C} (m : SR S A) (k : A → SR S C) :
  frames f m → (∀ a, frames f (k a)) → frames f (m ≫= k).
Proof.
  intros Hm Hk st. unfold mbind, SR_bind. rewrite Hm.
  destruct (m st) as [[a|msg] st']; simpl; [apply Hk | done].
Qed.

(** Reading the state: what follows must not tell the changed state from
    the state before. *)
Lemma frames_read {A} (k : S → SR S A) :
  (∀ st, k (f st) = k st) → (∀ st, frames f (k st)) → frames f (getState ≫= k).
Proof.
  intros Hsame Hk st. unfold mbind, SR_bind, getState. rewrite Hsame. apply Hk.
Qed.

Lemma frames_mapM {A C} (g : A → SR S C) (l : list A) :
  (∀ x, frames f (g x)) → frames f (mapM g l).
Proof.
  intros Hg. induction l as [|x l IH]; [apply frames_ret|].
  simpl. apply frames_bind; [done|]. intros y.
  apply frames_bind; [done|]. intros ys. apply frames_ret.
Qed.

End Frames.

Section FramesOfExecute.
Variable f : SelectQueryBuilder → SelectQueryBuilder.

Lemma frames_liftB {A} (m : B A) : frames f m → frames (onBuilder f) (liftB m).
Proof.
  intros Hm [b d]. unfold liftB, onBuilder; simpl. rewrite Hm.
  by destruct (m b) as [r b'].
Qed.

Lemma frames_liftM {A} (m : M A) : frames (onBuilder f) (liftM m).
Proof. intros [b d]. unfold liftM, onBuilder; simpl. by destruct (m d) as [r d']. Qed.

Lemma frames_runNested {A} (nested : SelectQueryBuilder) (m : X A) :
  frames (onBuilder f) (runNested nested m).
Proof.
  intros [b d]. unfold runNested, onBuilder; simpl. by destruct (m (nested, d)) as [r st'].
Qed.

End FramesOfExecute.

Section ModifierFrames.
Context `{JsHost}.
Variables (lim off : option float) (ord : list (string * Direction)) (dis : bool).

Local Abbreviation f := (withModifiers lim off ord dis).

Lemma ensureAliasForTable_frames (table : PodTable) : frames f (ensureAliasForTable table).
Proof.
  intros b. unfold ensureAliasForTable; simpl.
  by destruct (truthyStr (tableAliases b !! tbl_ref table)).
Qed.

Lemma resolveColumnReference_frames (field : FieldRef) :
  frames f (resolveColumnReference field).
Proof.
  destruct field as [h|s|v]; simpl.
  - destruct (ch_table h); [|apply frames_throw].
    apply frames_bind; [apply ensureAliasForTable_frames|]. intros. apply frames_ret.
  - destruct (parseColumnReferenceString s) as [parsed col].
    apply frames_read; [done|]. intros b.
    destruct (truthyStr _); [|apply frames_throw].
    destruct (aliasToTable b !! _); [apply frames_ret | apply frames_throw].
  - apply frames_throw.
Qed.

Lemma resolveAggregateColumnRef_frames (aggregate : AggregateExpression) :
  frames f (resolveAggregateColumnRef aggregate).
Proof.
  unfold resolveAggregateColumnRef.
  destruct (agg_column aggregate) as [[h|[|c s]]|]; try apply frames_ret;
    (apply frames_bind; [apply resolveColumnReference_frames|]; intros; apply frames_ret).
Qed.

Lemma computeAggregateValue_frames (aggregate : AggregateExpression) (rows : list Row) :
  frames f (computeAggregateValue aggregate rows).
Proof.
  unfold computeAggregateValue.
  apply frames_bind; [apply resolveAggregateColumnRef_frames|]. intros columnRef.
  apply frames_read; [done|]. intros b. apply frames_ret.
Qed.

Lemma buildAggregateRow_frames (rows : list Row) : frames f (buildAggregateRow rows).
Proof.
  unfold buildAggregateRow. apply frames_read; [done|]. intros b.
  destruct (selectedFields b) as [fields|]; [|apply frames_ret].
  apply frames_bind; [|intros; apply frames_ret].
  apply frames_mapM. intros [alias [h|s|aggregate]]; try apply frames_ret.
  apply frames_bind; [apply computeAggregateValue_frames|]. intros. apply frames_ret.
Qed.

Lemma resolveSelectFieldColumn_frames (field : SelectField) :
  frames f (resolveSelectFieldColumn field).
Proof.
  unfold resolveSelectFieldColumn. destruct field; try apply frames_ret;
    (apply frames_bind; [apply resolveColumnReference_frames|]; intros; apply frames_ret).
Qed.

Lemma ensureGroupByValidity_frames : frames f ensureGroupByValidity.
Proof.
  unfold ensureGroupByValidity. apply frames_read; [done|]. intros b.
  destruct (selectedFields b) as [fields|]; [|apply frames_ret].
  apply frames_bind; [|intros; apply frames_ret].
  apply frames_mapM. intros [alias field].
  destruct (isAggregateExpression field); [apply frames_ret|].
  apply frames_bind; [apply resolveSelectFieldColumn_frames|]. intros [ref|]; [|apply frames_ret].
  case_bool_decide; [apply frames_ret | apply frames_throw].
Qed.

Lemma buildGroupedAggregateRows_frames (rows : list Row) :
  frames f (buildGroupedAggregateRows rows).
Proof.
  unfold buildGroupedAggregateRows. apply frames_read; [done|]. intros b.
  destruct (selectedFields b) as [fields|]; [|apply frames_ret].
  apply frames_bind; [apply ensureGroupByValidity_frames|]. intros _.
  apply frames_read; [done|]. intros b'.
  apply frames_mapM. intros [key groupRows].
  apply frames_bind; [apply buildAggregateRow_frames|]. intros aggregateValues.
  apply frames_bind; [|intros; apply frames_ret].
  apply frames_mapM. intros [alias field].
  destruct (isAggregateExpression field); [apply frames_ret|].
  apply frames_bind; [apply resolveSelectFieldColumn_frames|]. intros columnRef.
  apply frames_read; [done|]. intros b''. apply frames_ret.
Qed.

Lemma handleAggregateFallback_frames (rows : list Row) :
  frames f (handleAggregateFallback rows).
Proof.
  unfold handleAggregateFallback. apply frames_read; [done|]. intros b.
  destruct (selectedFields b) as [fields|], (groupByColumns b) as [|ref refs];
    try apply frames_ret.
  - apply frames_bind; [apply buildAggregateRow_frames|]. intros. apply frames_ret.
  - apply buildGroupedAggregateRows_frames.
Qed.

Lemma resolveFieldBindingCandidates_frames (alias : string) (field : SelectField) :
  frames f (resolveFieldBindingCandidates alias field).
Proof.
  unfold resolveFieldBindingCandidates. destruct field as [h|s|aggregate]; try apply frames_ret.
  - apply frames_bind; [apply resolveColumnReference_frames|]. intros. apply frames_ret.
  - destruct (parseColumnReferenceString s). apply frames_ret.
Qed.

Lemma projectSelectedRow_frames (row : Row) : frames f (projectSelectedRow row).
Proof.
  unfold projectSelectedRow. apply frames_read; [done|]. intros b.
  destruct (selectedFields b) as [fields|]; [|apply frames_ret].
  apply frames_bind; [|intros; apply frames_ret].
  apply frames_mapM. intros [key field].
  destruct (isAggregateExpression field); [apply frames_ret|].
  apply frames_bind; [apply resolveFieldBindingCandidates_frames|]. intros candidates.
  destruct (List.find _ candidates); apply frames_ret.
Qed.

Lemma normalizeBaseRows_frames (rows : list Row) : frames f (normalizeBaseRows rows).
Proof.
  unfold normalizeBaseRows. destruct rows as [|row rows]; [apply frames_ret|].
  apply frames_read; [done|]. intros b.
  apply frames_bind; [|intros; apply frames_liftRes].
  destruct (truthyStr (primaryAlias b)); [apply frames_ret|].
  destruct (selectedTable b); [apply ensureAliasForTable_frames | apply frames_throw].
Qed.

Lemma evaluateCondition_frames (condition : QueryCondition) :
  ∀ row, frames f (evaluateCondition row condition).
Proof.
  revert condition. fix IH 1.
  intros [type operator lft rgt column value conditions table] row.
  destruct type; cbn [evaluateCondition].
  - destruct (truthyStr column) as [name|]; [|apply frames_ret].
    apply frames_read; [done|]. intros b.
    apply frames_bind; [apply resolveColumnReference_frames|]. intros columnRef.
    apply frames_liftRes.
  - destruct (truthyStr column) as [name|]; [|apply frames_ret].
    apply frames_read; [done|]. intros b.
    apply frames_bind; [apply resolveColumnReference_frames|]. intros columnRef.
    destruct (String.eqb _ "IS NULL"); [apply frames_ret|].
    destruct (String.eqb _ "IS NOT NULL"); [apply frames_ret|].
    destruct (String.eqb _ "NOT"); [|apply frames_ret].
    destruct lft as [|name'|inner]; [apply frames_throw | apply frames_ret |].
    apply frames_bind; [apply IH|]. intros. apply frames_ret.
  - destruct conditions as [children|].
    + destruct (String.eqb _ "AND").
      { induction children as [|child more IHmore]; [apply frames_ret|].
        apply frames_bind; [apply IH|]. intros [|]; [apply IHmore | apply frames_ret]. }
      destruct (String.eqb _ "OR"); [|apply frames_ret].
      induction children as [|child more IHmore]; [apply frames_ret|].
      apply frames_bind; [apply IH|]. intros [|]; [apply frames_ret | apply IHmore].
    + destruct (String.eqb _ "AND"); [apply frames_ret|].
      destruct (String.eqb _ "OR"); apply frames_ret.
Qed.

Lemma passesFilters_frames (row : Row) (filters : list QueryCondition) :
  frames f (passesFilters row filters).
Proof.
  induction filters as [|condition more IH]; [apply frames_ret|].
  simpl. apply frames_bind; [apply evaluateCondition_frames|].
  intros [|]; [apply IH | apply frames_ret].
Qed.

Lemma applyJoinFilters_frames (rows : list Row) : frames f (applyJoinFilters rows).
Proof.
  unfold applyJoinFilters. apply frames_read; [done|]. intros b.
  destruct (joinFilters b) as [|condition more]; [apply frames_ret|].
  apply frames_bind; [|intros; apply frames_ret].
  apply frames_mapM. intros row.
  apply frames_bind; [apply passesFilters_frames|]. intros. apply frames_ret.
Qed.

Variable w : World.
Variable cv : Converter.

Lemma frames_readBuilder {A} (k : SelectQueryBuilder → X A) :
  (∀ b, k (f b) = k b) → (∀ b, frames (onBuilder f) (k b)) →
  frames (onBuilder f) (liftB getState ≫= k).
Proof.
  intros Hsame Hk [b d]. unfold mbind, SR_bind, liftB, getState; simpl.
  change (f b, d) with (onBuilder f (b, d)). rewrite Hsame. apply Hk.
Qed.

Lemma fetchJoinRows_frames (join : JoinEntry) (baseRows : list Row) :
  frames (onBuilder f) (fetchJoinRows w cv join baseRows).
Proof.
  unfold fetchJoinRows. destruct (resolvedConditions join) as [|primaryCondition more];
    [apply frames_ret|].
  destruct (joinSides join primaryCondition) as [joinRef baseRef].
  apply frames_readBuilder; [done|]. intros b.
  destruct (dedupByKey _ _ _); [apply frames_ret|].
  match goal with |- frames _ (let '(_, _) := ?m in _) => destruct m as [built joinQuery] end.
  apply frames_bind; [apply frames_liftRes|]. intros _.
  apply frames_bind; [apply frames_runNested|]. intros joinRows.
  apply frames_liftRes.
Qed.

Lemma applyJoinFallbackWith_frames (joinList : list JoinEntry) (rows : list Row) :
  frames (onBuilder f) (applyJoinFallbackWith (fetchJoinRows w cv) joinList rows).
Proof.
  revert rows. induction joinList as [|join more IH]; intros rows; [apply frames_ret|].
  simpl. apply frames_bind; [apply fetchJoinRows_frames|]. intros joinRows.
  apply frames_readBuilder; [done|]. intros b. apply IH.
Qed.

(** The in-memory steps of [execute()] neither read nor write the limit,
    the offset, the order and the distinct flag. *)
Lemma fallbackSteps_frames (rows : list Row) :
  frames (onBuilder f) (fallbackSteps (fetchJoinRows w cv) rows).
Proof.
  unfold fallbackSteps. apply frames_readBuilder; [done|]. intros b.
  apply frames_bind.
  { destruct (joins b) as [|join more]; [apply frames_ret|].
    apply frames_bind; [apply frames_liftB, normalizeBaseRows_frames|]. intros normalized.
    apply frames_bind; [apply applyJoinFallbackWith_frames|]. intros joined.
    apply frames_liftB, applyJoinFilters_frames. }
  intros intermediateRows. apply frames_readBuilder; [done|]. intros b'.
  destruct (shouldUseAggregateFallback b');
    [apply frames_liftB, handleAggregateFallback_frames|].
  destruct (selectedFields b'); [|apply frames_ret].
  apply frames_liftB, frames_mapM. intros row. apply projectSelectedRow_frames.
Qed.

End ModifierFrames.

Section BaseSelect.
Context `{JsHost}.
Variable w : World.
Variable cv : Converter.

(** The statement of a select without a select list: the subject and
    every column but [id], with the limit, the offset, the order and the
    distinct flag of the operation. *)
Lemma convertSelect_unprojected (operation : PodOperation) :
  op_select operation = None →
  ∃ s,
    convertSelect cv
      {| ast_select := op_select operation; ast_where := op_where operation;
         ast_limit := op_limit operation; ast_offset := op_offset operation;
         ast_orderBy := op_orderBy operation; ast_distinct := op_distinct operation |}
      (op_table operation)
    = Ok {| sp_type := SELECT; sp_query := GeneratedSelect s; sp_prefixes := cv_prefixes cv |}
    ∧ sq_variables s
      = SelVar "subject"
        :: (SelVar <$> filter (fun col => col ≠ "id") (Obj.keys (columns (op_table operation))))
    ∧ sq_limit s = op_limit operation
    ∧ sq_offset s = op_offset operation
    ∧ sq_order s
      = (fun '(column, direction) => (column, match direction with desc => true | asc => false end))
        <$> default [] (op_orderBy operation)
    ∧ sq_distinct s = op_distinct operation.
Proof.
  intros Hselect. unfold convertSelect, buildSelectVariables; simpl. rewrite Hselect. simpl.
  eexists. split; [reflexivity|]. by repeat split.
Qed.


End BaseSelect.



(* ===================================================================== *)
(** * Further properties of the code *)
(* ===================================================================== *)

(** ** Strings *)

Lemma rev_app_spec (s acc : string) : String.rev_app s acc = String.rev s +:+ acc.
Proof.
  unfold String.rev. revert acc. induction s as [|c s IH]; intros acc; [done|].
  simpl. rewrite (IH (String c acc)), (IH (String c "")).
  by rewrite app_assoc_string.
Qed.

Lemma rev_cons (c : ascii) (s : string) : String.rev (String c s) = String.rev s +:+ String c "".
Proof. unfold String.rev at 1. simpl. apply rev_app_spec. Qed.

Lemma rev_app_distr (s t : string) : String.rev (s +:+ t) = String.rev t +:+ String.rev s.
Proof.
  induction s as [|c s IH].
  - by rewrite app_empty_l, app_empty_r.
  - rewrite app_cons, !rev_cons, IH. by rewrite app_assoc_string.
Qed.

Lemma rev_involutive (s : string) : String.rev (String.rev s) = s.
Proof.
  induction s as [|c s IH]; [done|].
  by rewrite rev_cons, rev_app_distr, IH.
Qed.

Lemma isName_app (s t : string) : isName (s +:+ t) = isName s && isName t.
Proof.
  induction s as [|c s IH]; [by rewrite app_empty_l|].
  rewrite app_cons. simpl. rewrite IH. by rewrite andb_assoc.
Qed.

Lemma isName_rev (s : string) : isName (String.rev s) = isName s.
Proof.
  induction s as [|c s IH]; [done|].
  rewrite rev_cons, isName_app, IH. simpl. by rewrite andb_true_r, andb_comm.
Qed.

Lemma isNameChar_not_space (c : ascii) : isNameChar c = true → Ascii.is_space c = false.
Proof. by destruct c as [[] [] [] [] [] [] [] []]. Qed.

Lemma isNameChar_not_dot (c : ascii) : isNameChar c = true → Ascii.eqb c "."%char = false.
Proof. by destruct c as [[] [] [] [] [] [] [] []]. Qed.

(** A string that starts with a plain name, if it is not empty, starts with no
    white space. *)
Lemma trimStart_name (s t : string) :
  isName s = true → Js.trimStart t = t → Js.trimStart (s +:+ t) = s +:+ t.
Proof.
  intros Hs Ht. destruct s as [|c s]; [by rewrite app_empty_l|].
  rewrite app_cons. simpl in *. apply andb_true_iff in Hs as [Hc _].
  by rewrite (isNameChar_not_space _ Hc).
Qed.

Lemma splitDot_go_name (s cur rest : string) :
  isName s = true →
  Js.splitDot_go cur (s +:+ rest) = Js.splitDot_go (String.rev s +:+ cur) rest.
Proof.
  revert cur. induction s as [|c s IH]; intros cur Hs; [by rewrite app_empty_l|].
  simpl in Hs. apply andb_true_iff in Hs as [Hc Hs].
  rewrite app_cons. simpl. rewrite (isNameChar_not_dot _ Hc), (IH _ Hs), rev_cons.
  by rewrite app_assoc_string.
Qed.

Lemma includesChar_app (c : ascii) (s t : string) :
  Js.includesChar c (s +:+ t) = Js.includesChar c s || Js.includesChar c t.
Proof.
  induction s as [|d s IH]; [by rewrite app_empty_l|].
  rewrite app_cons, !includesChar_cons, IH. by rewrite orb_assoc.
Qed.

(** [alias.column] is read back as the alias and the column. *)
Lemma parseColumnReferenceString_qualified (alias column : string) :
  isName alias = true → isName column = true →
  parseColumnReferenceString (qualified alias column) = (Some alias, column).
Proof.
  intros Halias Hcolumn. unfold parseColumnReferenceString, qualified.
  assert (Js.trim (alias +:+ "." +:+ column) = alias +:+ "." +:+ column) as ->.
  { unfold Js.trim. rewrite (trimStart_name alias) by done.
    rewrite !rev_app_distr, app_assoc_string.
    rewrite (trimStart_name (String.rev column)); [| by rewrite isName_rev | reflexivity].
    by rewrite !rev_app_distr, !rev_involutive, app_assoc_string. }
  rewrite includesChar_app. change (Js.includesChar "." ("." +:+ column)) with true.
  rewrite orb_true_r. simpl.
  unfold Js.splitDot2, Js.splitDot. rewrite (splitDot_go_name alias) by done.
  rewrite app_empty_r. change ("." +:+ column) with (String "." column).
  cbn [Js.splitDot_go Ascii.eqb Bool.eqb]. rewrite rev_involutive.
  rewrite <- (app_empty_r column) at 1. rewrite (splitDot_go_name column) by done.
  simpl. by rewrite app_empty_r, rev_involutive.
Qed.

(** ** References to columns *)

Lemma resolveColumnReference_names (b : SelectQueryBuilder) (alias column : string)
    (table : PodTable) :
  isName alias = true → alias ≠ "" → isName column = true →
  aliasToTable b !! alias = Some table →
  resolveColumnReference (RefName (qualified alias column)) b
  = (Ok {| cr_table := table; cr_alias := alias; cr_column := column |}, b)
  ∧ (primaryAlias b = Some alias →
     resolveColumnReference (RefName column) b
     = (Ok {| cr_table := table; cr_alias := alias; cr_column := column |}, b)).
Proof.
  intros Halias Hne Hcolumn Htable.
  assert (truthyStr (Some alias) = Some alias) as Htruthy.
  { unfold truthyStr. by apply String.eqb_neq in Hne as ->. }
  split.
  - unfold resolveColumnReference.
    rewrite (parseColumnReferenceString_qualified _ _ Halias Hcolumn).
    rewrite (bind_ok getState _ b b b eq_refl). by rewrite Htruthy, Htable.
  - intros Hprimary. unfold resolveColumnReference, parseColumnReferenceString.
    assert (Js.trim column = column) as ->.
    { unfold Js.trim. rewrite <- (app_empty_r column) at 1.
      rewrite (trimStart_name column "") by done. rewrite app_empty_r.
      rewrite <- (app_empty_r (String.rev column)) at 1.
      rewrite (trimStart_name (String.rev column) ""); [| by rewrite isName_rev | done].
      by rewrite app_empty_r, rev_involutive. }
    assert (Js.includesChar "." column = false) as ->.
    { clear -Hcolumn. induction column as [|c s IH]; [done|].
      simpl in Hcolumn. apply andb_true_iff in Hcolumn as [Hc Hs].
      rewrite includesChar_cons, (IH Hs), orb_false_r.
      rewrite Ascii.eqb_sym. by apply isNameChar_not_dot. }
    simpl. rewrite (bind_ok getState _ b b b eq_refl).
    by rewrite Hprimary, Htruthy, Htable.
Qed.

(** X1.  A reference written [alias.column], with plain names, resolves to the
    table registered under the alias and to the column, and leaves the
    builder as it is; under the primary alias the column alone is the same
    reference. *)
Theorem resolveColumnReference_qualified (b : SelectQueryBuilder) (alias column : string)
    (table : PodTable) :
  isName alias = true → alias ≠ "" → isName column = true →
  aliasToTable b !! alias = Some table →
  resolveColumnReference (RefName (qualified alias column)) b
  = (Ok {| cr_table := table; cr_alias := alias; cr_column := column |}, b)
  ∧ (primaryAlias b = Some alias →
     resolveColumnReference (RefName column) b
     = (Ok {| cr_table := table; cr_alias := alias; cr_column := column |}, b)).
Proof. apply resolveColumnReference_names. Qed.

Lemma resolveColumnReference_qualified_witness :
  resolveColumnReference (RefName (qualified "posts" "title")) fromPosts
  = (Ok {| cr_table := posts; cr_alias := "posts"; cr_column := "title" |}, fromPosts)
  ∧ (primaryAlias fromPosts = Some "posts" →
     resolveColumnReference (RefName "title") fromPosts
     = (Ok {| cr_table := posts; cr_alias := "posts"; cr_column := "title" |}, fromPosts)).
Proof.
  apply (resolveColumnReference_qualified fromPosts "posts" "title" posts);
    [reflexivity | discriminate | reflexivity | reflexivity].
Defined.

(** ** Table aliases *)

Lemma orElse_not_empty (s d : string) : d ≠ "" → orElse s d ≠ "".
Proof. intros Hd. unfold orElse. by destruct (String.eqb_spec s ""). Qed.

(** X2.  Asking twice for the alias of a table gives the alias of the first
    call and changes nothing more: a table has one alias in a builder. *)
Theorem ensureAliasForTable_idempotent (table : PodTable) (b : SelectQueryBuilder) :
  ensureAliasForTable table (ensureAliasForTable table b).2 = ensureAliasForTable table b.
Proof.
  unfold ensureAliasForTable at 2 3.
  destruct (truthyStr (tableAliases b !! tbl_ref table)) as [existing|] eqn:E; simpl.
  { unfold ensureAliasForTable. by rewrite E. }
  unfold ensureAliasForTable; simpl. rewrite lookup_insert_eq.
  set (baseName := orElse (tbl_name (config table)) "table").
  assert (baseName ≠ "") as Hbase by (by apply orElse_not_empty).
  set (alias := if (default 0 (aliasUsage b !! baseName) =? 0)%nat then baseName else _).
  assert (truthyStr (Some alias) = Some alias) as ->; [|done].
  unfold truthyStr. subst alias. destruct (_ =? 0)%nat.
  - by apply String.eqb_neq in Hbase as ->.
  - destruct baseName; [done|]. by rewrite app_cons.
Qed.

(** ** Registering joins *)

(** X3.  A join that is rejected leaves the list of joins as it was; a join
    that is accepted adds one entry at its end, of the type and for the table
    given, with as many resolved conditions as the condition object has
    entries, and at least one.  [rightJoin] and [fullJoin] are rejected
    whatever the table and the condition, and change nothing at all. *)
Theorem addJoin_appends_one_or_nothing (type : JoinType) (table : PodTable)
    (condition : JoinConditionArg) (b : SelectQueryBuilder) :
  match (addJoin type table condition b).1 with
  | Throw _ => joins (addJoin type table condition b).2 = joins b
  | Ok _ =>
      ∃ alias entries resolved,
        joins (addJoin type table condition b).2
        = joins b ++ [{| j_type := type; j_table := table; j_alias := alias;
                         rawCondition := condition; resolvedConditions := resolved |}]
        ∧ condition = JoinObject entries
        ∧ entries ≠ []
        ∧ length resolved = length entries
  end
  ∧ addJoin rightJoin table condition b
    = (Throw "rightJoin is not yet supported in Solid dialect", b)
  ∧ addJoin fullJoin table condition b
    = (Throw "fullJoin is not yet supported in Solid dialect", b).
Proof.
  split; [|by split].
  assert (∀ ta at_ au b', joins (setAliases ta at_ au b') = joins b') as Hjoins by done.
  unfold addJoin. destruct type; try done.
  - pose proof (ensureAliasForTable_keeps joins table Hjoins b) as Halias.
    unfold mbind at 1 3 5, SR_bind at 1 3 5.
    destruct (ensureAliasForTable table b) as [[alias|msg] b1]; simpl in *; [|done].
    pose proof (resolveJoinConditions_keeps joins condition alias Hjoins b1) as Hresolved.
    unfold mbind, SR_bind.
    destruct (resolveJoinConditions condition alias b1) as [[resolved|msg] b2] eqn:E;
      simpl in *; [|congruence].
    destruct condition as [v|[|entry entries]]; try done.
    exists alias, (entry :: entries), resolved. rewrite Hresolved, Halias.
    repeat split; [done|]. unfold resolveJoinConditions in E.
    by apply (mapM_inv_ok _ (fun _ => True)) in E as [Hlen _].
  - pose proof (ensureAliasForTable_keeps joins table Hjoins b) as Halias.
    unfold mbind at 1 3 5, SR_bind at 1 3 5.
    destruct (ensureAliasForTable table b) as [[alias|msg] b1]; simpl in *; [|done].
    pose proof (resolveJoinConditions_keeps joins condition alias Hjoins b1) as Hresolved.
    unfold mbind, SR_bind.
    destruct (resolveJoinConditions condition alias b1) as [[resolved|msg] b2] eqn:E;
      simpl in *; [|congruence].
    destruct condition as [v|[|entry entries]]; try done.
    exists alias, (entry :: entries), resolved. rewrite Hresolved, Halias.
    repeat split; [done|]. unfold resolveJoinConditions in E.
    by apply (mapM_inv_ok _ (fun _ => True)) in E as [Hlen _].
Qed.

(** ** Conditions of a select *)

(** X4.  [where] does not accumulate condition trees.  A tree for the base
    table (one that names no table, or the primary alias) takes the place
    of whatever tree an earlier [where] has left, and it is this tree alone
    that the base select carries; it adds no post-filter. *)
Theorem where_replaces_the_tree (b : SelectQueryBuilder) (earlier latest : QueryCondition)
    (table : PodTable) :
  truthyStr (qc_table latest) = None ∨ qc_table latest = primaryAlias b →
  let b1 := (where_ (WhereTree earlier) b).2 in
  let b2 := (where_ (WhereTree latest) b1).2 in
  sb_conditionTree b2 = Some latest
  ∧ op_where (baseOperation b2 table) = Some (WhereTree latest)
  ∧ joinFilters b2 = joinFilters b1.
Proof.
  intros Hbase b1 b2.
  assert (primaryAlias b1 = primaryAlias b) as Hprimary.
  { subst b1. unfold where_, processQueryCondition, modify; simpl.
    destruct (truthyStr (qc_table earlier)); [case_bool_decide|]; done. }
  assert (sb_conditionTree b2 = Some latest ∧ joinFilters b2 = joinFilters b1) as [Htree Hfilters].
  { subst b2. unfold where_, processQueryCondition, modify; simpl.
    destruct (truthyStr (qc_table latest)) as [name|] eqn:E; [|done].
    destruct Hbase as [Hnone|Hsame]; [done|].
    assert (qc_table latest = Some name) as Hname.
    { unfold truthyStr in E. destruct (qc_table latest) as [t|]; [|done].
      destruct (String.eqb t ""); congruence. }
    rewrite Hprimary, <- Hsame, Hname. by rewrite bool_decide_false by (by intros []). }
  split; [done|]. split; [|done].
  unfold baseOperation; simpl. by rewrite Htree.
Qed.

Lemma where_replaces_the_tree_witness :
  let b1 := (where_ (WhereTree (eq_ (ByName "title") (VStr "Hello"))) fromPosts).2 in
  let b2 := (where_ (WhereTree (gt (ByName "posts.id") (VStr "p1"))) b1).2 in
  sb_conditionTree b2 = Some (gt (ByName "posts.id") (VStr "p1"))
  ∧ op_where (baseOperation b2 posts)
    = Some (WhereTree (gt (ByName "posts.id") (VStr "p1")))
  ∧ joinFilters b2 = joinFilters b1.
Proof.
  apply (where_replaces_the_tree fromPosts (eq_ (ByName "title") (VStr "Hello"))
           (gt (ByName "posts.id") (VStr "p1")) posts).
  right. reflexivity.
Defined.

(** ** What [execute()] refuses *)

Section ExecuteRefusals.
Context `{JsHost}.
Variable w : World.
Variable cv : Converter.

(** X6.  A select without [from], and a select list that mixes aggregates with
    plain fields while nothing is grouped, are refused before anything is
    sent: [execute()] throws, the missing table first, and leaves the builder
    and the dialect as they were. *)
Theorem execute_refuses_before_sending (b : SelectQueryBuilder) (d : DialectState) :
  selectedTable b = None
  ∨ (groupByColumns b = [] ∧ hasMixedAggregateSelection b = true) →
  execute w cv (b, d)
  = (Throw (match selectedTable b with
            | None => "No table specified for SELECT query"
            | Some _ => "Mixed aggregate and non-aggregate selections require groupBy columns"
            end), (b, d)).
Proof.
  intros Hrefused.
  unfold execute, executeWith, mbind, SR_bind, liftB, getState; simpl.
  destruct (selectedTable b) as [table|]; [|done].
  destruct Hrefused as [|[-> ->]]; done.
Qed.

End ExecuteRefusals.

Lemma execute_refuses_before_sending_witness :
  let b := (from posts (select (Some [("n", FieldAggregate countAll);
                                      ("title", FieldName "title")]))).2 in
  execute (H := RefHost.host) blogPod alicePod (b, freshDialect)
  = (Throw "Mixed aggregate and non-aggregate selections require groupBy columns",
     (b, freshDialect)).
Proof.
  apply (execute_refuses_before_sending (H := RefHost.host) blogPod alicePod
           (from posts (select (Some [("n", FieldAggregate countAll);
                                      ("title", FieldName "title")]))).2 freshDialect).
  right. split; reflexivity.
Defined.

(** ** The URLs of a table *)

Lemma endsWith_app_slash (s : string) : Js.endsWith (s +:+ "/") "/" = true.
Proof.
  unfold Js.endsWith. rewrite rev_app_distr.
  change (String.rev "/" +:+ String.rev s) with (String "/" (String.rev s)).
  change (String.rev "/") with "/". simpl.
  destruct (Ascii.ascii_dec "/" "/"); [|done]. by destruct (String.rev s).
Qed.

Lemma endsWith_normalized (u : string) :
  Js.endsWith (if Js.endsWith u "/" then u else u +:+ "/") "/" = true.
Proof. destruct (Js.endsWith u "/") eqn:E; [done | apply endsWith_app_slash]. Qed.

Lemma app_inv_empty_r (s t : string) : s +:+ t = s → t = "".
Proof.
  induction s as [|c s IH]; [done|]. rewrite app_cons. intros [= Hs]. by apply IH.
Qed.

Section TableUrls.
Context `{JsHost}.
Variable cv : Converter.

Lemma resolveTableUrls_parts (table : PodTable) :
  Js.endsWith (resolveTableUrls cv table).1 "/" = true
  ∧ (resolveTableUrls cv table).2
    = (resolveTableUrls cv table).1 +:+ tbl_name (config table) +:+ ".ttl".
Proof.
  unfold resolveTableUrls.
  destruct (Js.startsWith _ "http://" || Js.startsWith _ "https://"); cbv zeta; simpl;
    (split; [apply endsWith_normalized | done]).
Qed.

Lemma resolveTableUrls_distinct (table : PodTable) :
  (resolveTableUrls cv table).1 ≠ (resolveTableUrls cv table).2.
Proof.
  rewrite (proj2 (resolveTableUrls_parts table)). intros Hsame. symmetry in Hsame.
  apply app_inv_empty_r in Hsame. by destruct (tbl_name (config table)).
Qed.

(** X17.  Whatever the container path, the Pod URL and the user path are, the
    container URL of a table ends with a slash, and its resource is the
    file [<name>.ttl] in that container; so the two are never the same
    URL. *)
Theorem resolveTableUrls_shape (table : PodTable) :
  Js.endsWith (resolveTableUrls cv table).1 "/" = true
  ∧ (resolveTableUrls cv table).2
    = (resolveTableUrls cv table).1 +:+ tbl_name (config table) +:+ ".ttl"
  ∧ (resolveTableUrls cv table).1 ≠ (resolveTableUrls cv table).2.
Proof.
  destruct (resolveTableUrls_parts table) as [Hslash Hresource].
  repeat split; [done | done | apply resolveTableUrls_distinct].
Qed.

End TableUrls.

(** ** What the executor sends *)

Ltac not_put := intros [? ?]; simpl in *; first [discriminate | congruence].

Section NeverCreates.
Context `{JsHost}.
Variable w : World.
Variable cv : Converter.

Lemma connect_never_puts (url : string) :
  emits trace (fun e => ¬ isPutTo url e) (connect w cv).
Proof.
  unfold connect.
  repeat first [apply emits_isConnected | apply emits_setConnected
                | apply emits_fetch; not_put | emits_step].
Qed.

Lemma resourceExists_never_puts (url resourceUrl : string) :
  emits trace (fun e => ¬ isPutTo url e) (resourceExists w resourceUrl).
Proof. unfold resourceExists. repeat first [apply emits_fetch; not_put | emits_step]. Qed.

(** The check of a resource that is not to be created sends no PUT. *)
Lemma ensureResourceExists_never_puts (url resourceUrl : string) :
  emits trace (fun e => ¬ isPutTo url e) (ensureResourceExists w resourceUrl false).
Proof.
  unfold ensureResourceExists. simpl.
  repeat first [apply resourceExists_never_puts | emits_step].
Qed.

(** The check of the container sends no PUT to another URL. *)
Lemma ensureContainerExists_puts_container (url containerUrl : string) :
  containerUrl ≠ url →
  emits trace (fun e => ¬ isPutTo url e) (ensureContainerExists w containerUrl).
Proof.
  intros Hne. unfold ensureContainerExists.
  repeat first [apply emits_fetch; not_put | emits_step].
Qed.

Lemma executeOnResource_never_puts (url resourceUrl : string) (q : SPARQLQuery) :
  emits trace (fun e => ¬ isPutTo url e) (executeOnResource w resourceUrl q).
Proof. apply emits_executeOnResource. by intros []. Qed.

Lemma executeComplexUpdate_never_creates (operation : PodOperation)
    (condition : QueryCondition) :
  emits trace (fun e => ¬ isPutTo (resolveTableUrls cv (op_table operation)).2 e)
        (executeComplexUpdate w cv operation condition).
Proof.
  unfold executeComplexUpdate.
  pose proof (resolveTableUrls_distinct cv (op_table operation)) as Hne.
  destruct (resolveTableUrls cv (op_table operation)) as [containerUrl resourceUrl].
  simpl in *. destruct (filter _ _); [apply emits_ret|].
  apply emits_bind; [by apply ensureContainerExists_puts_container|]. intros _.
  apply emits_bind; [apply ensureResourceExists_never_puts|]. intros _.
  apply emits_bind.
  { unfold findSubjectsForCondition.
    apply emits_bind; [apply executeOnResource_never_puts | intros; apply emits_ret]. }
  intros subjects. apply emits_forEachM. intros subject.
  destruct (buildUpdateQueryForSubject _ _ _ _ _); [|apply emits_ret].
  apply emits_bind; [apply executeOnResource_never_puts | intros; apply emits_ret].
Qed.

Lemma executeComplexDelete_never_creates (operation : PodOperation)
    (condition : QueryCondition) :
  emits trace (fun e => ¬ isPutTo (resolveTableUrls cv (op_table operation)).2 e)
        (executeComplexDelete w cv operation condition).
Proof.
  unfold executeComplexDelete.
  pose proof (resolveTableUrls_distinct cv (op_table operation)) as Hne.
  destruct (resolveTableUrls cv (op_table operation)) as [containerUrl resourceUrl].
  simpl in *.
  apply emits_bind; [by apply ensureContainerExists_puts_container|]. intros _.
  apply emits_bind; [apply ensureResourceExists_never_puts|]. intros _.
  apply emits_bind.
  { unfold findSubjectsForCondition.
    apply emits_bind; [apply executeOnResource_never_puts | intros; apply emits_ret]. }
  intros subjects. apply emits_forEachM. intros subject. cbv zeta.
  apply emits_bind; [apply executeOnResource_never_puts | intros; apply emits_ret].
Qed.

(** X19.  Only an insert creates the resource of a table.  A select, an
    update and a delete, on the simple path and on the path of a condition
    tree, have the dialect send no PUT to the resource URL, whatever the Pod
    answers; what its preflight may create is the container.  (What the
    SPARQL executor does with a statement is behind the statement.) *)
Theorem only_insert_creates_the_resource (operation : PodOperation) :
  op_type operation ≠ OpInsert →
  emits trace (fun e => ¬ isPutTo (resolveTableUrls cv (op_table operation)).2 e)
        (query w cv operation)
  ∧ (∀ condition,
       emits trace (fun e => ¬ isPutTo (resolveTableUrls cv (op_table operation)).2 e)
             (executeComplexUpdate w cv operation condition))
  ∧ (∀ condition,
       emits trace (fun e => ¬ isPutTo (resolveTableUrls cv (op_table operation)).2 e)
             (executeComplexDelete w cv operation condition)).
Proof.
  intros Htype.
  split; [|split; intros condition;
           [apply executeComplexUpdate_never_creates | apply executeComplexDelete_never_creates]].
  unfold query. apply emits_bind; [apply connect_never_puts|]. intros _.
  pose proof (resolveTableUrls_distinct cv (op_table operation)) as Hne.
  pose proof (executeComplexUpdate_never_creates operation) as Hcomplex.
  destruct (resolveTableUrls cv (op_table operation)) as [containerUrl resourceUrl].
  simpl in *. apply emits_bind.
  - destruct (op_type operation); [| done | |].
    + unfold selectCase. apply emits_bind; [apply emits_liftRes | intros; apply emits_ret].
    + unfold updateCase. destruct (op_data operation) as [data|]; [|apply emits_throw].
      destruct (op_where operation) as [[condition|[|entry entries]]|];
        try apply emits_throw.
      * apply emits_bind; [by apply ensureContainerExists_puts_container|]. intros _.
        apply emits_bind; [apply ensureResourceExists_never_puts|]. intros _.
        apply emits_bind; [apply Hcomplex | intros; apply emits_ret].
      * apply emits_bind; [by apply ensureContainerExists_puts_container|]. intros _.
        apply emits_bind; [apply ensureResourceExists_never_puts|]. intros _.
        apply emits_ret.
    + unfold deleteCase.
      apply emits_bind; [by apply ensureContainerExists_puts_container|]. intros _.
      apply emits_bind; [apply resourceExists_never_puts|]. intros [|]; apply emits_ret.
  - intros [rows|q]; [apply emits_ret | apply executeOnResource_never_puts].
Qed.

End NeverCreates.

Lemma only_insert_creates_the_resource_witness :
  emits trace (fun e => ¬ isPutTo (resolveTableUrls alicePod profiles).2 e)
        (query (H := RefHost.host) absentPod alicePod (blankOperation OpDelete profiles))
  ∧ (∀ condition,
       emits trace (fun e => ¬ isPutTo (resolveTableUrls alicePod profiles).2 e)
             (executeComplexUpdate (H := RefHost.host) absentPod alicePod
                (blankOperation OpDelete profiles) condition))
  ∧ (∀ condition,
       emits trace (fun e => ¬ isPutTo (resolveTableUrls alicePod profiles).2 e)
             (executeComplexDelete (H := RefHost.host) absentPod alicePod
                (blankOperation OpDelete profiles) condition)).
Proof.
  apply (only_insert_creates_the_resource (H := RefHost.host) absentPod alicePod
           (blankOperation OpDelete profiles)).
  discriminate.
Defined.

(** ** Inserting a batch *)

Lemma includes_false (seen : list JsValue) (id : JsValue) :
  Value.includes seen id = false ↔ Forall (fun x => Value.sameValueZero x id = false) seen.
Proof.
  unfold Value.includes. induction seen as [|x seen IH]; simpl.
  - split; [by constructor | done].
  - rewrite orb_false_iff, IH, Forall_cons. done.
Qed.

Lemma givenIds_cons (record : JsObject) (rest : list JsObject) :
  givenIds (record :: rest)
  = if Value.truthy (Obj.prop record "id") then Obj.prop record "id" :: givenIds rest
    else givenIds rest.
Proof.
  unfold givenIds. rewrite fmap_cons, filter_cons.
  destruct (Value.truthy (Obj.prop record "id")) eqn:E; by case_decide.
Qed.

Section InsertFacts.
Context `{JsHost}.

Lemma duplicateIds_nil (seen : list JsValue) (values : list JsObject) :
  duplicateIds seen values = []
  ↔ Forall (fun id => Forall (fun x => Value.sameValueZero x id = false) seen) (givenIds values)
    ∧ pairwiseDistinct (givenIds values).
Proof.
  revert seen. induction values as [|record rest IH]; intros seen.
  - split; [by split; [constructor|] | done].
  - rewrite givenIds_cons. simpl.
    destruct (Value.truthy (Obj.prop record "id")) eqn:Etruthy; [|apply IH].
    destruct (Value.includes seen (Obj.prop record "id")) eqn:Eseen.
    + split; [done|]. intros [[Hid _]%Forall_cons _].
      apply includes_false in Hid. congruence.
    + rewrite IH. apply includes_false in Eseen. simpl.
      rewrite Forall_cons. setoid_rewrite Forall_cons.
      rewrite Forall_and. tauto.
Qed.

Lemma convertInsert_cases (cv : Converter) (values : list JsObject) (table : PodTable) :
  (pairwiseDistinct (givenIds values)
   ∧ convertInsert cv values table
     = Ok {| sp_type := INSERT;
             sp_query := GeneratedInsert (buildInsertTriples cv values table);
             sp_prefixes := cv_prefixes cv |})
  ∨ (¬ pairwiseDistinct (givenIds values)
     ∧ ∃ message, convertInsert cv values table = Throw message).
Proof.
  unfold convertInsert.
  pose proof (duplicateIds_nil [] values) as Hnil.
  destruct (duplicateIds [] values) as [|id duplicates].
  - left. split; [by apply Hnil | done].
  - right. split; [|by eexists].
    intros Hd. destruct Hnil as [_ Hnil]. discriminate Hnil.
    split; [|done]. apply Forall_forall. intros. constructor.
Qed.

(** X22.  The translator accepts a batch exactly when no id of it comes twice,
    the rows without an id apart; and it throws before it builds a
    triple. *)
Theorem convertInsert_accepts_distinct_ids (cv : Converter) (values : list JsObject)
    (table : PodTable) :
  (pairwiseDistinct (givenIds values)
   ↔ convertInsert cv values table
     = Ok {| sp_type := INSERT;
             sp_query := GeneratedInsert (buildInsertTriples cv values table);
             sp_prefixes := cv_prefixes cv |})
  ∧ (¬ pairwiseDistinct (givenIds values)
     ↔ ∃ message, convertInsert cv values table = Throw message).
Proof.
  destruct (convertInsert_cases cv values table) as [[Hd Hok]|[Hd [message Hthrow]]].
  - split; [done|]. split; [done | intros [? ?]; congruence].
  - split; [split; [done | congruence] | split; [by eexists | done]].
Qed.

End InsertFacts.

Section InsertPipeline.
Context `{JsHost}.
Variable w : World.
Variable cv : Converter.

Lemma insertCase_fetches (operation : PodOperation) (containerUrl resourceUrl : string) :
  emits trace isFetch (insertCase w cv operation containerUrl resourceUrl).
Proof.
  unfold insertCase.
  repeat first [apply ensureContainerExists_fetches | apply ensureResourceExists_fetches
                | apply checkResourceExistence_fetches | emits_step].
Qed.

(** What the insert case hands on when it does not throw: the one
    statement of the whole batch, whose ids do not repeat. *)
Lemma insertCase_ok (operation : PodOperation) (containerUrl resourceUrl : string)
    (d d' : DialectState) (step : list Row + SPARQLQuery) :
  insertCase w cv operation containerUrl resourceUrl d = (Ok step, d') →
  ∃ payload,
    op_values operation = Some payload
    ∧ pairwiseDistinct (givenIds (payloadRows payload))
    ∧ step = inr {| sp_type := INSERT;
                    sp_query := GeneratedInsert
                                  (buildInsertTriples cv (payloadRows payload)
                                     (op_table operation));
                    sp_prefixes := cv_prefixes cv |}.
Proof.
  unfold insertCase. destruct (op_values operation) as [payload|].
  - intros Hcase. exists payload. split; [done|].
    assert ((_ ← ensureContainerExists w containerUrl;
             _ ← ensureResourceExists w resourceUrl true;
             canInsert ← checkResourceExistence w cv (payloadRows payload)
                           (op_table operation) resourceUrl;
             if canInsert : bool then
               q ← liftRes (convertInsert cv (payloadRows payload) (op_table operation));
               mret (inr q)
             else throw "Resource already exists, INSERT aborted") d
            = (Ok step, d')) as Hrun.
    { destruct payload as [r|[|record rest]]; [done | done | done]. }
    clear Hcase.
    apply bind_inv_ok in Hrun as (_ & d1 & _ & Hrun).
    apply bind_inv_ok in Hrun as (_ & d2 & _ & Hrun).
    apply bind_inv_ok in Hrun as (canInsert & d3 & _ & Hrun).
    destruct canInsert; [|done].
    apply bind_inv_ok in Hrun as (q & d4 & Hq & Hrun).
    injection Hrun as <- <-. unfold liftRes in Hq. injection Hq as Hq _.
    destruct (convertInsert_cases cv (payloadRows payload) (op_table operation))
      as [[Hd Hok]|[_ [message Hthrow]]]; [|congruence].
    split; [done|]. congruence.
  - intros Hcase.
    apply bind_inv_ok in Hcase as (_ & d1 & _ & Hcase).
    apply bind_inv_ok in Hcase as (_ & d2 & _ & Hcase).
    by apply bind_inv_ok in Hcase as (_ & d3 & _ & Hcase).
Qed.

(** X21.  An insert sends at most one SPARQL statement, after the HTTP
    requests of its preflight and as the last thing it does: the INSERT of
    the whole batch.  It sends none when an id comes twice in the batch, and
    it has sent it whenever it returns. *)
Theorem insert_sends_one_statement (operation : PodOperation) (d : DialectState) :
  op_type operation = OpInsert →
  ∃ requests statements,
    trace (query w cv operation d).2 = trace d ++ requests ++ statements
    ∧ Forall isFetch requests
    ∧ (statements = []
       ∨ ∃ payload,
           op_values operation = Some payload
           ∧ pairwiseDistinct (givenIds (payloadRows payload))
           ∧ statements
             = [Sparql (resolveTableUrls cv (op_table operation)).2
                  {| sp_type := INSERT;
                     sp_query := GeneratedInsert
                                   (buildInsertTriples cv (payloadRows payload)
                                      (op_table operation));
                     sp_prefixes := cv_prefixes cv |}])
    ∧ (∀ rows, (query w cv operation d).1 = Ok rows → statements ≠ []).
Proof.
  intros Htype. destruct (query w cv operation d) as [result d'] eqn:Hrun. simpl.
  unfold query in Hrun.
  destruct (connect_fetches w cv d) as (p1 & Hp1 & HP1).
  unfold mbind at 1, SR_bind at 1 in Hrun.
  destruct (connect w cv d) as [[[]|message] d1]; simpl in *; cycle 1.
  { injection Hrun as <- <-. exists p1, []. rewrite app_nil_r.
    split; [done|]. split; [done|]. split; [by left | done]. }
  rewrite Htype in Hrun.
  destruct (resolveTableUrls cv (op_table operation)) as [containerUrl resourceUrl].
  simpl in *.
  destruct (insertCase_fetches operation containerUrl resourceUrl d1) as (p2 & Hp2 & HP2).
  pose proof (insertCase_ok operation containerUrl resourceUrl d1) as Hok.
  unfold mbind, SR_bind in Hrun.
  destruct (insertCase w cv operation containerUrl resourceUrl d1)
    as [[step|message] d2]; simpl in *; cycle 1.
  { injection Hrun as <- <-. exists (p1 ++ p2), [].
    rewrite app_nil_r, Hp2, Hp1, app_assoc.
    split; [done|]. split; [by apply Forall_app_2|]. split; [by left | done]. }
  destruct (Hok d2 step eq_refl) as (payload & Hvalues & Hdistinct & ->).
  unfold executeOnResource in Hrun. injection Hrun as <- <-. simpl.
  exists (p1 ++ p2), [Sparql resourceUrl
                        {| sp_type := INSERT;
                           sp_query := GeneratedInsert
                                         (buildInsertTriples cv (payloadRows payload)
                                            (op_table operation));
                           sp_prefixes := cv_prefixes cv |}].
  rewrite Hp2, Hp1, <- !app_assoc.
  split; [done|]. split; [by apply Forall_app_2|]. split; [|done].
  right. by exists payload.
Qed.

End InsertPipeline.

Lemma insert_sends_one_statement_witness :
  let operation :=
    {| op_type := OpInsert; op_table := profiles; op_data := None; op_where := None;
       op_select := None;
       op_values := Some (OneRow [("id", VStr "a"); ("name", VStr "Alice")]);
       op_limit := None; op_offset := None; op_orderBy := None; op_distinct := false |} in
  ∃ requests statements,
    trace (query (H := RefHost.host) emptyPod alicePod operation freshDialect).2
    = trace freshDialect ++ requests ++ statements
    ∧ Forall isFetch requests
    ∧ (statements = []
       ∨ ∃ payload,
           op_values operation = Some payload
           ∧ pairwiseDistinct (givenIds (payloadRows payload))
           ∧ statements
             = [Sparql (resolveTableUrls alicePod (op_table operation)).2
                  {| sp_type := INSERT;
                     sp_query := GeneratedInsert
                                   (buildInsertTriples (H := RefHost.host) alicePod
                                      (payloadRows payload) (op_table operation));
                     sp_prefixes := cv_prefixes alicePod |}])
    ∧ (∀ rows, (query (H := RefHost.host) emptyPod alicePod operation freshDialect).1
               = Ok rows → statements ≠ []).
Proof.
  apply (insert_sends_one_statement (H := RefHost.host) emptyPod alicePod
           {| op_type := OpInsert; op_table := profiles; op_data := None; op_where := None;
              op_select := None;
              op_values := Some (OneRow [("id", VStr "a"); ("name", VStr "Alice")]);
              op_limit := None; op_offset := None; op_orderBy := None;
              op_distinct := false |} freshDialect).
  reflexivity.
Defined.

(** ** Counting *)

Section CountFacts.
Context `{JsHost}.

Lemma dedupByKey_sublist {A} (key : A → string) (seen : gset string) (l : list A) :
  sublist (dedupByKey key seen l) l.
Proof.
  revert seen. induction l as [|x l IH]; intros seen; simpl; [done|].
  case_bool_decide; [by apply sublist_cons | by apply sublist_skip].
Qed.

Lemma dedupByKey_keys {A} (key : A → string) (seen : gset string) (l : list A) :
  NoDup (key <$> dedupByKey key seen l)
  ∧ (∀ x, x ∈ dedupByKey key seen l → key x ∉ seen)
  ∧ (∀ x, x ∈ l → key x ∈ seen ∨ ∃ y, y ∈ dedupByKey key seen l ∧ key y = key x).
Proof.
  revert seen. induction l as [|x l IH]; intros seen; simpl.
  - split; [constructor|]. split; intros x Hx; by apply elem_of_nil in Hx.
  - case_bool_decide as Hseen.
    + destruct (IH seen) as (Hnodup & Hfresh & Hall). split; [done|]. split; [done|].
      intros y [->|Hy]%elem_of_cons; [by left | by apply Hall].
    + destruct (IH ({[key x]} ∪ seen)) as (Hnodup & Hfresh & Hall).
      split; [|split].
      * rewrite fmap_cons. constructor; [|done].
        intros (y & Hkey & Hy)%list_elem_of_fmap. apply Hfresh in Hy. apply Hy.
        apply elem_of_union. left. by apply elem_of_singleton.
      * intros y [->|Hy]%elem_of_cons; [done|]. apply Hfresh in Hy. intros Hk. apply Hy.
        apply elem_of_union. by right.
      * intros y [->|Hy]%elem_of_cons.
        { right. exists x. split; [left | done]. }
        destruct (Hall y Hy) as [[Hk|Hk]%elem_of_union|(z & Hz & Hk)].
        -- right. exists x. split; [left|]. by apply elem_of_singleton in Hk.
        -- by left.
        -- right. exists z. split; [by right | done].
Qed.

Lemma length_filter_nullish {A} (f : A → JsValue) (l : list A) :
  length (filter (fun value => negb (Value.isNullish value) = true) (f <$> l))
  = length (filter (fun x => Value.isNullish (f x) = false) l).
Proof.
  induction l as [|x l IH]; [done|]. rewrite fmap_cons, !filter_cons.
  destruct (decide (negb (Value.isNullish (f x)) = true)) as [Hp|Hp];
    destruct (decide (Value.isNullish (f x) = false)) as [Hq|Hq];
    simpl; rewrite ?IH; try done; by destruct (Value.isNullish (f x)).
Qed.

(** X8.  In the fallback, for a column whose name is not one that every
    object inherits, [count(c)] is the number of the rows where the column
    is neither [undefined] nor [null], and [count(distinct c)] is at most
    [count(c)], which is at most [count()]: the values counted by the first
    are among those counted by the second, one for each serialized value. *)
Theorem count_distinct_le_count (primary : option string) (column : ColumnReference)
    (rows : list Row) :
  isOwnName (cr_column column) = true →
  let plain := collectValuesForCount primary column rows false in
  let distinct := collectValuesForCount primary column rows true in
  length plain
  = length (filter (fun row =>
                      Value.isNullish (getRowValueForColumn primary row column) = false) rows)
  ∧ sublist distinct plain
  ∧ NoDup (serializeValueForKey <$> distinct)
  ∧ (∀ value, value ∈ plain →
       ∃ kept, kept ∈ distinct ∧ serializeValueForKey kept = serializeValueForKey value)
  ∧ length distinct ≤ length plain ≤ length rows
  ∧ aggregateOver primary {| func := count; agg_column := None; distinct := false |}
      None rows = numberOfNat (length rows)
  ∧ (∀ columnArg,
       aggregateOver primary {| func := count; agg_column := columnArg; distinct := false |}
         (Some column) rows = numberOfNat (length plain)
       ∧ aggregateOver primary {| func := count; agg_column := columnArg; distinct := true |}
           (Some column) rows = numberOfNat (length distinct)).
Proof.
  intros _ plain distinct. subst plain distinct. unfold collectValuesForCount.
  split; [apply length_filter_nullish|].
  set (values := filter _ _).
  destruct (dedupByKey_keys serializeValueForKey ∅ values) as (Hnodup & _ & Hall).
  pose proof (dedupByKey_sublist serializeValueForKey ∅ values) as Hsub.
  split; [done|]. split; [done|]. split.
  { intros value Hvalue.
    destruct (Hall value Hvalue) as [Hin|Hkept]; [by apply elem_of_empty in Hin | done]. }
  split.
  { split; [by apply sublist_length|].
    subst values. etrans; [apply length_filter|]. by rewrite length_fmap. }
  split; [done|]. by intros columnArg.
Qed.

End CountFacts.

Lemma count_distinct_le_count_witness :
  let column := {| cr_table := posts; cr_alias := "posts"; cr_column := "authorId" |} in
  let rows := [resultRow [("title", VStr "Hello"); ("authorId", VStr "u1")];
               resultRow [("title", VStr "Draft")];
               resultRow [("title", VStr "World"); ("authorId", VStr "u1")]] in
  let plain := collectValuesForCount (H := RefHost.host) (Some "posts") column rows false in
  let distinct := collectValuesForCount (H := RefHost.host) (Some "posts") column rows true in
  length plain
  = length (filter (fun row =>
                      Value.isNullish (getRowValueForColumn (Some "posts") row column) = false)
                   rows)
  ∧ sublist distinct plain
  ∧ NoDup (serializeValueForKey (H := RefHost.host) <$> distinct)
  ∧ (∀ value, value ∈ plain →
       ∃ kept, kept ∈ distinct
               ∧ serializeValueForKey (H := RefHost.host) kept
                 = serializeValueForKey (H := RefHost.host) value)
  ∧ length distinct ≤ length plain ≤ length rows
  ∧ aggregateOver (H := RefHost.host) (Some "posts")
      {| func := count; agg_column := None; distinct := false |} None rows
    = numberOfNat (length rows)
  ∧ (∀ columnArg,
       aggregateOver (H := RefHost.host) (Some "posts")
         {| func := count; agg_column := columnArg; distinct := false |} (Some column) rows
       = numberOfNat (length plain)
       ∧ aggregateOver (H := RefHost.host) (Some "posts")
           {| func := count; agg_column := columnArg; distinct := true |} (Some column) rows
         = numberOfNat (length distinct)).
Proof.
  apply (count_distinct_le_count (H := RefHost.host) (Some "posts")
           {| cr_table := posts; cr_alias := "posts"; cr_column := "authorId" |}
           [resultRow [("title", VStr "Hello"); ("authorId", VStr "u1")];
            resultRow [("title", VStr "Draft")];
            resultRow [("title", VStr "World"); ("authorId", VStr "u1")]]).
  reflexivity.
Defined.

(** ** Merging a join *)

Lemma filter_none {A} (P : A → Prop) `{∀ x, Decision (P x)} (l : list A) :
  (∀ x, ¬ P x) → filter P l = [].
Proof.
  intros Hnone. induction l as [|x l IH]; [done|].
  rewrite filter_cons. by destruct (decide (P x)); [destruct (Hnone x)|].
Qed.

Section JoinMerge.
Context `{JsHost}.

Lemma joinValueMap_snoc (primary : option string) (joinRef : ColumnReference)
    (joinRows : list Row) (joinRow : Row) :
  joinValueMap primary joinRef (joinRows ++ [joinRow])
  = let m := joinValueMap primary joinRef joinRows in
    let value := getRowValueForColumn primary joinRow joinRef in
    if Value.isNullish value then m
    else <[serializeValueForKey value := default [] (m !! serializeValueForKey value) ++ [joinRow]]> m.
Proof. unfold joinValueMap. by rewrite fold_left_app. Qed.

(** What the map of the join holds under a key: the joined rows whose
    value is there and serializes to the key, in their order. *)
Lemma joinValueMap_lookup (primary : option string) (joinRef : ColumnReference)
    (joinRows : list Row) (key : string) :
  default [] (joinValueMap primary joinRef joinRows !! key)
  = filter (fun joinRow =>
              negb (Value.isNullish (getRowValueForColumn primary joinRow joinRef))
              && String.eqb (serializeValueForKey
                               (getRowValueForColumn primary joinRow joinRef)) key = true)
           joinRows.
Proof.
  induction joinRows as [|joinRow joinRows IH] using rev_ind; [done|].
  rewrite joinValueMap_snoc, filter_app, filter_cons, filter_nil. cbv zeta.
  destruct (Value.isNullish (getRowValueForColumn primary joinRow joinRef)) eqn:Enull; simpl.
  { rewrite IH. try case_decide; try done; by rewrite app_nil_r. }
  destruct (String.eqb_spec
              (serializeValueForKey (getRowValueForColumn primary joinRow joinRef)) key)
    as [Heq|Hne].
  - rewrite Heq, lookup_insert_eq. simpl. rewrite IH. try case_decide; done.
  - rewrite lookup_insert_ne by done. rewrite IH.
    try case_decide; try done; by rewrite app_nil_r.
Qed.

(** X14.  The hash merge is the nested loop: a base row is merged with the
    joined rows whose key, being neither [undefined] nor [null],
    serializes to the same string as its own, in the order of the joined
    rows; with none, an inner join drops the base row and a left join
    keeps it with the joined columns [undefined]. *)
Theorem mergeRowsWithJoin_is_nested_loop (primary : option string) (baseRows : list Row)
    (join : JoinEntry) (joinRows : list Row) :
  mergeRowsWithJoin primary baseRows join joinRows
  = nestedLoopJoin primary baseRows join joinRows.
Proof.
  unfold mergeRowsWithJoin, nestedLoopJoin.
  destruct (resolvedConditions join) as [|primaryCondition more]; [done|].
  destruct (joinSides join primaryCondition) as [joinRef baseRef]. cbv zeta.
  assert (∀ baseRow,
            (if Value.isNullish (getRowValueForColumn primary baseRow baseRef) then []
             else default [] (joinValueMap primary joinRef joinRows
                              !! serializeValueForKey
                                   (getRowValueForColumn primary baseRow baseRef)))
            = filter (fun joinRow =>
                        joinMatches primary joinRef baseRef baseRow joinRow = true) joinRows)
    as Hmatches.
  { intros baseRow. rewrite joinValueMap_lookup. unfold joinMatches.
    destruct (Value.isNullish (getRowValueForColumn primary baseRow baseRef)); simpl.
    - symmetry. by apply filter_none.
    - done. }
  induction baseRows as [|baseRow baseRows IH]; [done|].
  rewrite !bind_cons, IH, (Hmatches baseRow).
  by destruct (filter _ joinRows).
Qed.

(** X15.  A left join keeps every base row: it returns at least as many rows as
    it is given, and among them, in order, all the rows the inner join on the
    same condition returns.  Without joined rows the inner join of a
    registered join returns nothing. *)
Theorem leftJoin_keeps_every_base_row (primary : option string) (baseRows : list Row)
    (join : JoinEntry) (joinRows : list Row) :
  let inner := mergeRowsWithJoin primary baseRows (withJoinType innerJoin join) joinRows in
  let outer := mergeRowsWithJoin primary baseRows (withJoinType leftJoin join) joinRows in
  sublist inner outer
  ∧ length baseRows ≤ length outer
  ∧ mergeRowsWithJoin primary baseRows (withJoinType innerJoin join) []
    = match resolvedConditions join with [] => baseRows | _ => [] end
  ∧ mergeRowsWithJoin primary baseRows (withJoinType leftJoin join) []
    = match resolvedConditions join with
      | [] => baseRows
      | _ => (fun baseRow => createEmptyJoinRow join ∪ baseRow) <$> baseRows
      end.
Proof.
  cbv zeta. unfold mergeRowsWithJoin, withJoinType; simpl.
  destruct (resolvedConditions join) as [|primaryCondition more]; [done|].
  unfold joinSides; simpl.
  destruct (String.eqb (cr_alias (jc_left primaryCondition)) (j_alias join)).
  - split; [|split; [|split]]; induction baseRows as [|baseRow baseRows IH];
      rewrite ?bind_cons; try done.
    + apply sublist_app; [|done].
      destruct (if Value.isNullish _ then [] else _); [apply sublist_nil_l | done].
    + rewrite length_app. simpl.
      destruct (if Value.isNullish _ then [] else _); simpl; lia.
    + rewrite IH. by destruct (Value.isNullish _).
    + rewrite IH, fmap_cons. by destruct (Value.isNullish _).
  - split; [|split; [|split]]; induction baseRows as [|baseRow baseRows IH];
      rewrite ?bind_cons; try done.
    + apply sublist_app; [|done].
      destruct (if Value.isNullish _ then [] else _); [apply sublist_nil_l | done].
    + rewrite length_app. simpl.
      destruct (if Value.isNullish _ then [] else _); simpl; lia.
    + rewrite IH. by destruct (Value.isNullish _).
    + rewrite IH, fmap_cons. by destruct (Value.isNullish _).
Qed.

End JoinMerge.

(** ** Grouping *)

Section GroupFacts.
Context `{JsHost}.

Lemma addToGroup_keys (key : string) (row : Row) (groups : list (string * list Row)) :
  (addToGroup key row groups).*1
  = if bool_decide (key ∈ groups.*1) then groups.*1 else groups.*1 ++ [key].
Proof.
  induction groups as [|[k members] groups IH]; [done|]. cbn [addToGroup].
  destruct (String.eqb_spec k key) as [->|Hne]; rewrite !fmap_cons; cbn [fst].
  - rewrite bool_decide_true; [done | left].
  - rewrite IH. case_bool_decide as Hin.
    + rewrite bool_decide_true; [done | by right].
    + rewrite bool_decide_false; [done|]. by intros [?|?]%elem_of_cons.
Qed.

Lemma addToGroup_members (key : string) (row : Row) (groups : list (string * list Row)) :
  concat (addToGroup key row groups).*2 ≡ₚ concat groups.*2 ++ [row].
Proof.
  induction groups as [|[k members] groups IH]; [done|]. cbn [addToGroup].
  destruct (String.eqb k key); rewrite !fmap_cons, !concat_cons; cbn [snd].
  - rewrite <- !app_assoc. apply Permutation_app_head, Permutation_app_comm.
  - by rewrite IH, app_assoc.
Qed.

Lemma addToGroup_Forall (P : string * list Row → Prop) (key : string) (row : Row)
    (groups : list (string * list Row)) :
  P (key, [row]) → (∀ members, P (key, members) → P (key, members ++ [row])) →
  Forall P groups → Forall P (addToGroup key row groups).
Proof.
  intros Hnew Hmore. induction 1 as [|[k members] groups Hx Hgroups IH]; simpl.
  - by constructor.
  - destruct (String.eqb_spec k key) as [->|Hne]; constructor; auto.
Qed.

Lemma groupRows_snoc (primary : option string) (groupBy : list ColumnReference)
    (rows : list Row) (row : Row) :
  groupRows primary groupBy (rows ++ [row])
  = addToGroup (groupKey primary groupBy row) row (groupRows primary groupBy rows).
Proof. unfold groupRows. by rewrite fold_left_app. Qed.

(** X9.  The groups of the fallback partition the rows: the keys of the groups
    are pairwise different, no group is empty, every row of a group has the
    key of its group, and the groups together hold the rows given, each
    once. *)
Theorem groupRows_partitions (primary : option string) (groupBy : list ColumnReference)
    (rows : list Row) :
  let groups := groupRows primary groupBy rows in
  NoDup groups.*1
  ∧ Forall (fun group =>
              group.2 ≠ []
              ∧ Forall (fun row => groupKey primary groupBy row = group.1) group.2) groups
  ∧ concat groups.*2 ≡ₚ rows.
Proof.
  cbv zeta. induction rows as [|row rows IH] using rev_ind.
  - split; [constructor|]. by split.
  - destruct IH as (Hkeys & Hgroups & Hrows). rewrite groupRows_snoc.
    split; [|split].
    + rewrite addToGroup_keys. case_bool_decide as Hin; [done|].
      apply NoDup_app. split; [done|]. split; [|apply NoDup_singleton].
      intros k Hk ->%list_elem_of_singleton. done.
    + apply addToGroup_Forall; [| |done].
      * split; [done|]. by constructor.
      * intros members [_ Hmembers]. split; [by destruct members|].
        apply Forall_app. split; [done|]. by constructor.
    + by rewrite addToGroup_members, Hrows.
Qed.

End GroupFacts.

(** ** Post-filters *)

Lemma mapM_pure {S A C} (f : A → SR S C) (g : A → C) (l : list A) (st : S) :
  (∀ x, f x st = (Ok (g x), st)) → mapM f l st = (Ok (g <$> l), st).
Proof.
  intros Hf. induction l as [|x l IH]; [done|].
  simpl. rewrite (bind_ok _ _ _ _ _ (Hf x)), (bind_ok _ _ _ _ _ IH). done.
Qed.

Lemma omap_keep {A} (p : A → bool) (l : list A) :
  omap id ((fun x => if p x then Some x else None) <$> l) = filter (fun x => p x = true) l.
Proof.
  induction l as [|x l IH]; [done|].
  rewrite fmap_cons, filter_cons. cbn [omap list_omap]. rewrite IH.
  destruct (p x); by case_decide.
Qed.

Section PostFilters.
Context `{JsHost}.

(** One entry of a where map that names a joined alias. *)
Lemma evaluateCondition_literal (b : SelectQueryBuilder) (ref : ColumnReference)
    (value : JsValue) (row : Row) :
  isName (cr_alias ref) = true → cr_alias ref ≠ "" →
  isName (cr_column ref) = true → cr_column ref ≠ "" →
  aliasToTable b !! cr_alias ref = Some (cr_table ref) →
  evaluateCondition row (createConditionFromLiteral (cr_alias ref) (cr_column ref) value) b
  = (Ok (literalHolds (primaryAlias b) ref value row), b).
Proof.
  intros Halias Hne Hcolumn Hne' Htable.
  destruct (resolveColumnReference_names b _ _ _ Halias Hne Hcolumn Htable) as [Href _].
  assert (truthyStr (Some (cr_column ref)) = Some (cr_column ref)) as Htruthy.
  { unfold truthyStr. by apply String.eqb_neq in Hne' as ->. }
  destruct ref as [table alias column]. cbn [cr_alias cr_column cr_table] in *.
  unfold createConditionFromLiteral, literalHolds.
  destruct value; cbn [evaluateCondition]; rewrite Htruthy;
    rewrite (bind_ok getState _ b b b eq_refl);
    unfold conditionReference; cbn [qc_table];
    rewrite (bind_ok _ _ _ _ _ Href); done.
Qed.

(** X5.  An entry [{'alias.column': value}] of a where map, for a joined alias,
    becomes a post-filter that keeps the merged rows where the column is that
    very value ([===]); with an array, one of its elements; with [null] or
    [undefined], missing.  The rows kept stay in their order. *)
Theorem where_on_joined_alias_filters_by_value (b : SelectQueryBuilder)
    (ref : ColumnReference) (value : JsValue) (rows : list Row) :
  isName (cr_alias ref) = true → cr_alias ref ≠ "" →
  isName (cr_column ref) = true → cr_column ref ≠ "" →
  aliasToTable b !! cr_alias ref = Some (cr_table ref) →
  primaryAlias b ≠ Some (cr_alias ref) →
  joinFilters b = [] →
  let b1 := (where_ (WhereMap [(qualified (cr_alias ref) (cr_column ref), value)]) b).2 in
  joinFilters b1 = [createConditionFromLiteral (cr_alias ref) (cr_column ref) value]
  ∧ default [] (sb_whereConditions b1) = default [] (sb_whereConditions b)
  ∧ applyJoinFilters rows b1
    = (Ok (filter (fun row => literalHolds (primaryAlias b) ref value row = true) rows), b1).
Proof.
  intros Halias Hne Hcolumn Hne' Htable Hprimary Hnone b1.
  assert (truthyStr (Some (cr_alias ref)) = Some (cr_alias ref)) as Htruthy.
  { unfold truthyStr. by apply String.eqb_neq in Hne as ->. }
  assert (joinFilters b1 = [createConditionFromLiteral (cr_alias ref) (cr_column ref) value]
          ∧ default [] (sb_whereConditions b1) = default [] (sb_whereConditions b)
          ∧ aliasToTable b1 = aliasToTable b ∧ primaryAlias b1 = primaryAlias b)
    as (Hfilters & Hwhere & Haliases & Hsame).
  { subst b1. unfold where_, processWhereObject, modify. cbn [fold_left snd].
    rewrite (parseColumnReferenceString_qualified _ _ Halias Hcolumn), Htruthy.
    rewrite bool_decide_false by congruence.
    rewrite bool_decide_true by (by rewrite Htable). simpl.
    rewrite Hnone. by destruct (sb_whereConditions b) as [[|]|]. }
  split; [done|]. split; [done|].
  unfold applyJoinFilters. rewrite (bind_ok getState _ b1 b1 b1 eq_refl), Hfilters.
  erewrite bind_ok; cycle 1.
  { apply (mapM_pure _ (fun row => if literalHolds (primaryAlias b) ref value row
                                    then Some row else None)).
    intros row.
    assert (passesFilters row
              [createConditionFromLiteral (cr_alias ref) (cr_column ref) value] b1
            = (Ok (literalHolds (primaryAlias b) ref value row), b1)) as Hpasses.
    { cbn [passesFilters].
      rewrite (bind_ok _ _ _ _ _
                 (evaluateCondition_literal b1 ref value row Halias Hne Hcolumn Hne'
                    ltac:(by rewrite Haliases))).
      rewrite Hsame. by destruct (literalHolds _ _ _ _). }
    by rewrite (bind_ok _ _ _ _ _ Hpasses). }
  by rewrite omap_keep.
Qed.

End PostFilters.

Lemma where_on_joined_alias_filters_by_value_witness :
  let b := postsJoinUsers [("posts.authorId", RefName "users.id")] in
  let ref := {| cr_table := users; cr_alias := "users"; cr_column := "name" |} in
  let rows := [postWithAuthor "p1" "Hello" "u1" "Alice"; postWithAuthor "p3" "Other" "u2" "Bob"] in
  let b1 := (where_ (WhereMap [("users.name", VStr "Alice")]) b).2 in
  joinFilters b1 = [createConditionFromLiteral "users" "name" (VStr "Alice")]
  ∧ default [] (sb_whereConditions b1) = default [] (sb_whereConditions b)
  ∧ applyJoinFilters (H := RefHost.host) rows b1
    = (Ok (filter (fun row => literalHolds (primaryAlias b) ref
                                (VStr "Alice") row = true) rows), b1).
Proof.
  apply (where_on_joined_alias_filters_by_value (H := RefHost.host)
           (postsJoinUsers [("posts.authorId", RefName "users.id")])
           {| cr_table := users; cr_alias := "users"; cr_column := "name" |}
           (VStr "Alice")
           [postWithAuthor "p1" "Hello" "u1" "Alice"; postWithAuthor "p3" "Other" "u2" "Bob"]).
  - reflexivity.
  - discriminate.
  - reflexivity.
  - discriminate.
  - vm_compute. reflexivity.
  - discriminate.
  - reflexivity.
Defined.

(** ** The connection *)

Lemma keeps_attempt {S A T} (proj : S → T) (m : SR S A) :
  keeps proj m → keeps proj (attempt m).
Proof. intros Hm st. unfold attempt. specialize (Hm st). by destruct (m st). Qed.

Lemma keeps_forEachM {S A C T} (proj : S → T) (f : A → SR S (option C)) (l : list A) :
  (∀ x, keeps proj (f x)) → keeps proj (forEachM f l).
Proof.
  intros Hf. induction l as [|x l IH]; [apply keeps_ret|].
  simpl. apply keeps_bind; [done|]. intros y.
  apply keeps_bind; [done|]. intros ys. apply keeps_ret.
Qed.

(** One step of a proof that a computation keeps a component. *)
Ltac keeps_step :=
  first
    [ apply keeps_ret
    | apply keeps_throw
    | apply keeps_liftRes
    | apply keeps_getState
    | apply keeps_attempt
    | apply keeps_forEachM; intros ?
    | apply keeps_bind; [|intros ?]
    | progress cbv zeta
    | case_match ].

Ltac not_check := unfold connectionCheck; simpl; first [discriminate | congruence].

Section Connection.
Context `{JsHost}.
Variable w : World.
Variable cv : Converter.

Local Abbreviation later := (fun e => e ≠ connectionCheck cv).

Lemma keeps_fetch (rq : Request) : keeps connected (fetch w rq).
Proof. by intros d. Qed.

Lemma keeps_executeOnResource (resourceUrl : string) (q : SPARQLQuery) :
  keeps connected (executeOnResource w resourceUrl q).
Proof. by intros d. Qed.

Ltac stays :=
  repeat first [apply keeps_fetch | apply keeps_executeOnResource | keeps_step].

Ltac sends_later :=
  repeat first [apply emits_fetch; not_check | apply emits_executeOnResource; not_check
                | apply emits_forEachM; intros ? | emits_step].

Lemma resourceExists_connected (resourceUrl : string) :
  keeps connected (resourceExists w resourceUrl)
  ∧ emits trace later (resourceExists w resourceUrl).
Proof. unfold resourceExists. split; [stays | sends_later]. Qed.

Lemma ensureResourceExists_connected (resourceUrl : string) (createIfMissing : bool) :
  keeps connected (ensureResourceExists w resourceUrl createIfMissing)
  ∧ emits trace later (ensureResourceExists w resourceUrl createIfMissing).
Proof.
  unfold ensureResourceExists. split.
  - apply keeps_bind; [apply resourceExists_connected|]. intros ?. stays.
  - apply emits_bind; [apply resourceExists_connected|]. intros ?. sends_later.
Qed.

Lemma ensureContainerExists_connected (containerUrl : string) :
  keeps connected (ensureContainerExists w containerUrl)
  ∧ emits trace later (ensureContainerExists w containerUrl).
Proof. unfold ensureContainerExists. split; [stays | sends_later]. Qed.

Lemma checkResourceExistence_connected (values : list JsObject) (table : PodTable)
    (containerUrl : string) :
  keeps connected (checkResourceExistence w cv values table containerUrl)
  ∧ emits trace later (checkResourceExistence w cv values table containerUrl).
Proof. unfold checkResourceExistence. split; [stays | sends_later]. Qed.

Lemma findSubjectsForCondition_connected (condition : QueryCondition) (table : PodTable)
    (resourceUrl : string) :
  keeps connected (findSubjectsForCondition w cv condition table resourceUrl)
  ∧ emits trace later (findSubjectsForCondition w cv condition table resourceUrl).
Proof. unfold findSubjectsForCondition. split; [stays | sends_later]. Qed.

Lemma executeComplexUpdate_connected (operation : PodOperation) (condition : QueryCondition) :
  keeps connected (executeComplexUpdate w cv operation condition)
  ∧ emits trace later (executeComplexUpdate w cv operation condition).
Proof.
  unfold executeComplexUpdate.
  destruct (resolveTableUrls cv (op_table operation)) as [containerUrl resourceUrl].
  destruct (filter _ _); [split; [apply keeps_ret | apply emits_ret]|]. split.
  - apply keeps_bind; [apply ensureContainerExists_connected|]. intros _.
    apply keeps_bind; [apply ensureResourceExists_connected|]. intros _.
    apply keeps_bind; [apply findSubjectsForCondition_connected|]. intros subjects. stays.
  - apply emits_bind; [apply ensureContainerExists_connected|]. intros _.
    apply emits_bind; [apply ensureResourceExists_connected|]. intros _.
    apply emits_bind; [apply findSubjectsForCondition_connected|]. intros subjects.
    sends_later.
Qed.

Lemma executeComplexDelete_connected (operation : PodOperation) (condition : QueryCondition) :
  keeps connected (executeComplexDelete w cv operation condition)
  ∧ emits trace later (executeComplexDelete w cv operation condition).
Proof.
  unfold executeComplexDelete.
  destruct (resolveTableUrls cv (op_table operation)) as [containerUrl resourceUrl]. split.
  - apply keeps_bind; [apply ensureContainerExists_connected|]. intros _.
    apply keeps_bind; [apply ensureResourceExists_connected|]. intros _.
    apply keeps_bind; [apply findSubjectsForCondition_connected|]. intros subjects. stays.
  - apply emits_bind; [apply ensureContainerExists_connected|]. intros _.
    apply emits_bind; [apply ensureResourceExists_connected|]. intros _.
    apply emits_bind; [apply findSubjectsForCondition_connected|]. intros subjects.
    sends_later.
Qed.

Lemma afterConnect_connected (operation : PodOperation) :
  keeps connected (afterConnect w cv operation) ∧ emits trace later (afterConnect w cv operation).
Proof.
  unfold afterConnect.
  destruct (resolveTableUrls cv (op_table operation)) as [containerUrl resourceUrl].
  pose proof (ensureContainerExists_connected containerUrl) as [? ?].
  pose proof (ensureResourceExists_connected resourceUrl true) as [? ?].
  pose proof (ensureResourceExists_connected resourceUrl false) as [? ?].
  pose proof (resourceExists_connected resourceUrl) as [? ?].
  split.
  - apply keeps_bind; [|intros [rows|q]; [apply keeps_ret | apply keeps_executeOnResource]].
    destruct (op_type operation).
    + unfold selectCase. stays.
    + unfold insertCase.
      destruct (op_values operation) as [[r|[|r l]]|];
        repeat first [apply keeps_throw | apply keeps_bind; [done|intros ?]
                      | apply keeps_bind; [apply checkResourceExistence_connected|intros ?]
                      | keeps_step].
    + unfold updateCase. destruct (op_data operation); [|apply keeps_throw].
      destruct (op_where operation) as [[condition|[|entry entries]]|];
        repeat first [apply keeps_throw | apply keeps_bind; [done|intros ?]
                      | apply keeps_bind; [apply executeComplexUpdate_connected|intros ?]
                      | keeps_step].
    + unfold deleteCase.
      repeat first [apply keeps_bind; [done|intros ?] | keeps_step].
  - apply emits_bind;
      [|intros [rows|q]; [apply emits_ret | apply emits_executeOnResource; not_check]].
    destruct (op_type operation).
    + unfold selectCase. sends_later.
    + unfold insertCase.
      destruct (op_values operation) as [[r|[|r l]]|];
        repeat first [apply emits_throw | apply emits_bind; [done|intros ?]
                      | apply emits_bind; [apply checkResourceExistence_connected|intros ?]
                      | emits_step].
    + unfold updateCase. destruct (op_data operation); [|apply emits_throw].
      destruct (op_where operation) as [[condition|[|entry entries]]|];
        repeat first [apply emits_throw | apply emits_bind; [done|intros ?]
                      | apply emits_bind; [apply executeComplexUpdate_connected|intros ?]
                      | emits_step].
    + unfold deleteCase.
      repeat first [apply emits_bind; [done|intros ?] | emits_step].
Qed.

(** X18.  The dialect checks the connection once.  A dialect that is
    connected sends no connection check; one that is not sends it first, and
    nothing after it unless the Pod answers with a 2xx status.  No later
    request of the dialect is a connection check, and a query that returns
    leaves the dialect connected; one that leaves it unconnected has thrown
    at the check. *)
Theorem query_connects_once (operation : PodOperation) (d : DialectState) :
  ∃ sent,
    trace (query w cv operation d).2
    = trace d ++ (if connected d then [] else [connectionCheck cv]) ++ sent
    ∧ Forall (fun e => e ≠ connectionCheck cv) sent
    ∧ (connected (query w cv operation d).2 = true
       ∨ connected d = false ∧ sent = [] ∧ ∃ message, (query w cv operation d).1 = Throw message).
Proof.
  assert (query w cv operation = (connect w cv ≫= fun _ => afterConnect w cv operation)) as ->.
  { unfold query, afterConnect.
    by destruct (resolveTableUrls cv (op_table operation)). }
  destruct (connect_cases w cv d) as [Htrace Hcases].
  destruct (afterConnect_connected operation) as [Hkeeps Hemits].
  unfold mbind, SR_bind.
  destruct (connect w cv d) as [[[]|message] d1] eqn:Hconnect; simpl in *.
  - destruct Hcases as [[_ Hconnected]|[[msg Hmsg] _]]; [|done].
    destruct (Hemits d1) as (sent & Hsent & Hlater). specialize (Hkeeps d1).
    destruct (afterConnect w cv operation d1) as [result d2]; simpl in *.
    exists sent. rewrite Hsent, Htrace, <- app_assoc.
    split; [done|]. split; [done|]. left. congruence.
  - destruct Hcases as [[Hok _]|[_ Hconnected]]; [done|].
    exists []. rewrite app_nil_r. split; [done|]. split; [done|]. right.
    split; [|split; [done | by eexists]].
    destruct (connected d) eqn:Hd; [|done].
    by rewrite (connect_connected w cv d Hd) in Hconnect.
Qed.

End Connection.

(** ** Deleting by a condition tree *)

Section ComplexDelete.
Context `{JsHost}.
Variable w : World.
Variable cv : Converter.

Lemma deleteEach (resourceUrl : string) (subjects : list string) (d : DialectState) :
  (∀ history url q, sp_type q = DELETE → ∃ answer, w_queryContainer w history url q = Ok answer) →
  forEachM (fun subject =>
              _ ← executeOnResource w resourceUrl (subjectDelete cv subject);
              mret (Some (successRow resourceUrl subject)))
           subjects d
  = (Ok (successRow resourceUrl <$> subjects),
     {| connected := connected d;
        trace := trace d ++ ((fun subject => Sparql resourceUrl (subjectDelete cv subject))
                             <$> subjects) |}).
Proof.
  intros Hengine. revert d.
  induction subjects as [|subject subjects IH]; intros d.
  { simpl. rewrite app_nil_r. by destruct d. }
  cbn [forEachM fmap list_fmap].
  destruct (Hengine (trace d) resourceUrl (subjectDelete cv subject) eq_refl)
    as [answer Hanswer].
  unfold mbind at 1, SR_bind at 1. unfold mbind at 1, SR_bind at 1.
  unfold executeOnResource at 1. rewrite Hanswer. simpl.
  unfold mbind at 1, SR_bind at 1. rewrite IH. simpl.
  by rewrite <- app_assoc.
Qed.

(** X23.  A delete by a condition tree is a SELECT of the subjects and then one
    DELETE for each subject found, in the order found, each deleting every
    triple of its subject; it returns one success row for each.  This is so
    once the preflight has passed and the engine has answered; with no subject
    found the SELECT is all that is sent, and nothing is returned. *)
Theorem complex_delete_statements (operation : PodOperation) (condition : QueryCondition)
    (d d1 d2 : DialectState) (rows : list Row) :
  let table := op_table operation in
  let resourceUrl := (resolveTableUrls cv table).2 in
  let subjects := omap subjectOfRow rows in
  (∀ history url q, sp_type q = DELETE → ∃ answer, w_queryContainer w history url q = Ok answer) →
  ensureContainerExists w (resolveTableUrls cv table).1 d = (Ok (), d1) →
  ensureResourceExists w resourceUrl false d1 = (Ok (), d2) →
  w_queryContainer w (trace d2) resourceUrl (subjectSelect w cv condition table) = Ok rows →
  executeComplexDelete w cv operation condition d
  = (Ok (successRow resourceUrl <$> subjects),
     {| connected := connected d2;
        trace := trace d2
                 ++ Sparql resourceUrl (subjectSelect w cv condition table)
                 :: ((fun subject => Sparql resourceUrl (subjectDelete cv subject))
                     <$> subjects) |}).
Proof.
  intros table resourceUrl subjects Hengine Hcontainer Hresource Hselect.
  subst table resourceUrl subjects. unfold executeComplexDelete.
  destruct (resolveTableUrls cv (op_table operation)) as [containerUrl resourceUrl].
  simpl in *.
  erewrite bind_ok by exact Hcontainer.
  erewrite bind_ok by exact Hresource.
  erewrite bind_ok; cycle 1.
  { unfold findSubjectsForCondition, executeOnResource, mbind, SR_bind.
    unfold subjectSelect in Hselect. by rewrite Hselect. }
  rewrite (deleteEach resourceUrl (omap subjectOfRow rows) _ Hengine). simpl.
  by rewrite <- app_assoc.
Qed.

End ComplexDelete.

Lemma complex_delete_statements_witness :
  let operation := blankOperation OpDelete profiles in
  let d1 := (ensureContainerExists profilesPod profilesContainer freshDialect).2 in
  let d2 := (ensureResourceExists profilesPod profilesResource false d1).2 in
  executeComplexDelete (H := RefHost.host) profilesPod alicePod operation nameIsAOrC freshDialect
  = (Ok [successRow profilesResource (profileSubject "a");
         successRow profilesResource (profileSubject "c")],
     {| connected := false;
        trace := trace d2
                 ++ [Sparql profilesResource
                       (subjectSelect (H := RefHost.host) profilesPod alicePod nameIsAOrC profiles);
                     Sparql profilesResource (subjectDelete alicePod (profileSubject "a"));
                     Sparql profilesResource (subjectDelete alicePod (profileSubject "c"))] |}).
Proof.
  apply (complex_delete_statements (H := RefHost.host) profilesPod alicePod
           (blankOperation OpDelete profiles) nameIsAOrC freshDialect
           (ensureContainerExists profilesPod profilesContainer freshDialect).2
           (ensureResourceExists profilesPod profilesResource false
              (ensureContainerExists profilesPod profilesContainer freshDialect).2).2
           [ resultRow [("subject", VStr (profileSubject "a")); ("name", VStr "A");
                        ("age", VNum 20)];
             resultRow [("subject", VStr (profileSubject "c")); ("name", VStr "C");
                        ("age", VNum 30)] ]).
  - intros history url q Hq. exists []. unfold profilesPod, exampleWorld, exampleEngine; simpl.
    by rewrite Hq.
  - vm_compute. reflexivity.
  - vm_compute. reflexivity.
  - vm_compute. reflexivity.
Defined.

(** ** What the insert, update and delete builders send *)

Section Builders.
Context `{JsHost}.
Variable w : World.
Variable cv : Converter.

Lemma generateSubjectUri_id (record : JsObject) (table : PodTable) :
  generateSubjectUri cv record table
  = generateSubjectUri cv [("id", Obj.prop record "id")] table.
Proof. done. Qed.

Lemma convertUpdate_id (data conditions : JsObject) (table : PodTable) :
  convertUpdate cv data conditions table
  = convertUpdate cv data [("id", Obj.prop conditions "id")] table.
Proof. unfold convertUpdate. by rewrite generateSubjectUri_id. Qed.

Lemma convertDelete_id (conditions : JsObject) (table : PodTable) :
  conditions ≠ [] →
  convertDelete cv (Some conditions) table
  = convertDelete cv (Some [("id", Obj.prop conditions "id")]) table.
Proof. intros Hne. by destruct conditions. Qed.

(** X25.  An update and a delete by a where map look at the [id] of the map
    and at nothing else: whatever other entries the map has, they send what
    they send for [{id}] alone.  The map is one that the builders take for a
    map: it does not have both a [type] and an [operator], which would make
    it a condition tree for them. *)
Theorem update_by_map_addresses_by_id (table : PodTable) (data conditions : JsObject)
    (d : DialectState) :
  looksLikeCondition conditions = false →
  Value.truthy (Obj.prop conditions "id") = true →
  update_execute w cv (update_where (WhereMap conditions) (set data (update table))) d
  = update_execute w cv
      (update_where (WhereMap [("id", Obj.prop conditions "id")]) (set data (update table))) d
  ∧ delete_execute w cv (delete_where (WhereMap conditions) (delete_ table)) d
    = delete_execute w cv
        (delete_where (WhereMap [("id", Obj.prop conditions "id")]) (delete_ table)) d.
Proof.
  intros _ Hid. destruct conditions as [|entry entries]; [done|].
  unfold update_execute, delete_execute, session_execute, query, updateCase, deleteCase.
  cbn -[convertUpdate convertDelete generateSubjectUri Obj.prop].
  rewrite (convertUpdate_id data (entry :: entries) table).
  by rewrite (convertDelete_id (entry :: entries) table).
Qed.

(** X24.  What the builders do with a statement that lacks a part.  An insert
    without values and an update without [set] throw and send nothing.  An
    update without conditions, or with [{}], throws once the connection is
    checked, before any request for the table.  A delete without conditions,
    or with [{}], is not refused: when the resource exists it deletes every
    subject of the class of the table. *)
Theorem incomplete_statements (table : PodTable) (data : JsObject)
    (d d1 d2 d3 : DialectState) :
  connect w cv d = (Ok (), d1) →
  ensureContainerExists w (resolveTableUrls cv table).1 d1 = (Ok (), d2) →
  resourceExists w (resolveTableUrls cv table).2 d2 = (Ok true, d3) →
  let deleteAll :=
    {| sp_type := DELETE;
       sp_query :=
         Text (prefixLines (cv_prefixes cv) +:+ Js.nl +:+ "DELETE WHERE {" +:+ Js.nl
               +:+ "  ?subject rdf:type <" +:+ rdfClass (config table) +:+ "> ." +:+ Js.nl
               +:+ "  ?subject ?p ?o ." +:+ Js.nl +:+ "}");
       sp_prefixes := cv_prefixes cv |} in
  insert_execute w cv (insert table) d = (Throw "No values specified for INSERT query", d)
  ∧ (∀ conditions,
       update_execute w cv (update table) d = (Throw "No data specified for UPDATE query", d)
       ∧ update_execute w cv (update_where conditions (update table)) d
         = (Throw "No data specified for UPDATE query", d))
  ∧ update_execute w cv (set data (update table)) d
    = (Throw "UPDATE operation requires where conditions to locate target resources", d1)
  ∧ update_execute w cv (update_where (WhereMap []) (set data (update table))) d
    = (Throw "UPDATE operation requires where conditions to locate target resources", d1)
  ∧ delete_execute w cv (delete_ table) d
    = executeOnResource w (resolveTableUrls cv table).2 deleteAll d3
  ∧ delete_execute w cv (delete_where (WhereMap []) (delete_ table)) d
    = executeOnResource w (resolveTableUrls cv table).2 deleteAll d3.
Proof.
  intros Hconnect Hcontainer Hresource deleteAll.
  split; [done|]. split; [done|].
  unfold update_execute, delete_execute, session_execute, query; simpl.
  rewrite !(bind_ok _ _ _ _ _ Hconnect).
  destruct (resolveTableUrls cv table) as [containerUrl resourceUrl]. simpl in *.
  split; [done|]. split; [done|].
  unfold deleteCase; simpl.
  split.
  - erewrite bind_ok; cycle 1.
    { erewrite bind_ok by exact Hcontainer. erewrite bind_ok by exact Hresource. done. }
    done.
  - erewrite bind_ok; cycle 1.
    { erewrite bind_ok by exact Hcontainer. erewrite bind_ok by exact Hresource. done. }
    done.
Qed.

End Builders.

Lemma update_by_map_addresses_by_id_witness :
  let data := [("age", VNum 99)] in
  let conditions := [("name", VStr "A"); ("id", VStr "a")] in
  update_execute (H := RefHost.host) profilesPod alicePod
    (update_where (WhereMap conditions) (set data (update profiles))) freshDialect
  = update_execute (H := RefHost.host) profilesPod alicePod
      (update_where (WhereMap [("id", Obj.prop conditions "id")]) (set data (update profiles)))
      freshDialect
  ∧ delete_execute (H := RefHost.host) profilesPod alicePod
      (delete_where (WhereMap conditions) (delete_ profiles)) freshDialect
    = delete_execute (H := RefHost.host) profilesPod alicePod
        (delete_where (WhereMap [("id", Obj.prop conditions "id")]) (delete_ profiles))
        freshDialect.
Proof.
  apply (update_by_map_addresses_by_id (H := RefHost.host) profilesPod alicePod profiles
           [("age", VNum 99)] [("name", VStr "A"); ("id", VStr "a")] freshDialect).
  - reflexivity.
  - reflexivity.
Defined.

Lemma incomplete_statements_witness :
  let d1 := (connect profilesPod alicePod freshDialect).2 in
  let d2 := (ensureContainerExists profilesPod profilesContainer d1).2 in
  let d3 := (resourceExists profilesPod profilesResource d2).2 in
  let deleteAll :=
    {| sp_type := DELETE;
       sp_query :=
         Text (prefixLines (cv_prefixes alicePod) +:+ Js.nl +:+ "DELETE WHERE {" +:+ Js.nl
               +:+ "  ?subject rdf:type <" +:+ rdfClass (config profiles) +:+ "> ." +:+ Js.nl
               +:+ "  ?subject ?p ?o ." +:+ Js.nl +:+ "}");
       sp_prefixes := cv_prefixes alicePod |} in
  insert_execute (H := RefHost.host) profilesPod alicePod (insert profiles) freshDialect
  = (Throw "No values specified for INSERT query", freshDialect)
  ∧ (∀ conditions,
       update_execute (H := RefHost.host) profilesPod alicePod (update profiles) freshDialect
       = (Throw "No data specified for UPDATE query", freshDialect)
       ∧ update_execute (H := RefHost.host) profilesPod alicePod
           (update_where conditions (update profiles)) freshDialect
         = (Throw "No data specified for UPDATE query", freshDialect))
  ∧ update_execute (H := RefHost.host) profilesPod alicePod
      (set [("age", VNum 99)] (update profiles)) freshDialect
    = (Throw "UPDATE operation requires where conditions to locate target resources", d1)
  ∧ update_execute (H := RefHost.host) profilesPod alicePod
      (update_where (WhereMap []) (set [("age", VNum 99)] (update profiles))) freshDialect
    = (Throw "UPDATE operation requires where conditions to locate target resources", d1)
  ∧ delete_execute (H := RefHost.host) profilesPod alicePod (delete_ profiles) freshDialect
    = executeOnResource profilesPod (resolveTableUrls alicePod profiles).2 deleteAll d3
  ∧ delete_execute (H := RefHost.host) profilesPod alicePod
      (delete_where (WhereMap []) (delete_ profiles)) freshDialect
    = executeOnResource profilesPod (resolveTableUrls alicePod profiles).2 deleteAll d3.
Proof.
  apply (incomplete_statements (H := RefHost.host) profilesPod alicePod profiles
           [("age", VNum 99)] freshDialect
           (connect profilesPod alicePod freshDialect).2
           (ensureContainerExists profilesPod profilesContainer
              (connect profilesPod alicePod freshDialect).2).2
           (resourceExists profilesPod profilesResource
              (ensureContainerExists profilesPod profilesContainer
                 (connect profilesPod alicePod freshDialect).2).2).2).
  - vm_compute. reflexivity.
  - vm_compute. reflexivity.
  - vm_compute. reflexivity.
Defined.

(** ** Where maps and condition trees *)

Section WhereMaps.
Context `{JsHost}.
Variable cv : Converter.

Lemma resolveColumnAndTable_plain (columnName : string) :
  Js.includesChar "." columnName = false →
  resolveColumnAndTable (ByName columnName) = (columnName, None).
Proof. intros Hplain. unfold resolveColumnAndTable. by rewrite Hplain. Qed.

(** X26.  A where map filters as the conditions [eq] and [isNull] do.  Each
    entry of the map whose value is not [undefined] gives the FILTER that
    [eq(column, value)] gives on its own, or [isNull(column)] for [null],
    one FILTER for each entry, in the order of the map; an entry with
    [undefined] gives none.  The keys are plain column names, and the map is
    one that the translator takes for a map: it does not have both a [type]
    and an [operator]. *)
Theorem where_map_filters_as_eq (conditions : JsObject) (table : PodTable) :
  looksLikeCondition conditions = false →
  Forall (fun entry => Js.includesChar "." entry.1 = false) conditions →
  buildFilterPatterns cv (Some (WhereMap conditions)) table
  = conditions ≫= fun entry =>
      match entry.2 with
      | VUndefined => []
      | value =>
          buildFilterPatterns cv (Some (WhereTree (entryCondition entry.1 value))) table
      end.
Proof.
  intros _ Hplain. unfold buildFilterPatterns.
  induction Hplain as [|[columnName value] conditions Hname _ IH]; [done|].
  rewrite bind_cons. cbn [omap list_omap]. rewrite IH. clear IH.
  generalize (conditions ≫= fun entry =>
                match entry.2 with
                | VUndefined => []
                | value =>
                    match buildConditionExpression cv (entryCondition entry.1 value) table with
                    | Some e => [e]
                    | None => []
                    end
                end).
  intros filters. cbn [fst snd] in *.
  unfold entryCondition, eq_, isNull, createBinaryCondition, createUnaryCondition.
  rewrite (resolveColumnAndTable_plain _ Hname).
  destruct value; try done;
    [|by destruct (buildConditionExpression _ _ _)..].
  cbn [buildConditionExpression]. unfold conditionColumnName, truthyStr.
  cbn [qc_column qc_left leftColumn].
  destruct (String.eqb columnName ""); [done|].
  by repeat case_match.
Qed.

End WhereMaps.

Lemma where_map_filters_as_eq_witness :
  buildFilterPatterns (H := RefHost.host) alicePod
    (Some (WhereMap [("name", VStr "A"); ("age", VNull); ("createdAt", VUndefined)])) profiles
  = [("name", VStr "A"); ("age", VNull); ("createdAt", VUndefined)] ≫= fun entry =>
      match entry.2 with
      | VUndefined => []
      | value =>
          buildFilterPatterns (H := RefHost.host) alicePod
            (Some (WhereTree (entryCondition entry.1 value))) profiles
      end.
Proof.
  apply (where_map_filters_as_eq (H := RefHost.host) alicePod
           [("name", VStr "A"); ("age", VNull); ("createdAt", VUndefined)] profiles).
  - reflexivity.
  - repeat constructor.
Defined.

(** ** What a join leaves of the base rows *)

Section JoinKeys.
Context `{JsHost}.

Lemma res_mapM_Forall {A C} (f : A → Res C) (P : C → Prop) (l : list A) (ys : list C) :
  (∀ x y, f x = Ok y → P y) → res_mapM f l = Ok ys → Forall P ys.
Proof.
  intros Hf. revert ys. induction l as [|x l IH]; intros ys Hys.
  - injection Hys as <-. constructor.
  - simpl in Hys. destruct (f x) as [y|] eqn:Ey; [|done].
    destruct (res_mapM f l) as [ys'|]; [|done]. injection Hys as <-.
    constructor; [by eapply Hf | by apply IH].
Qed.

Lemma qualifyEntries_keys (alias : string) (row : Row) (key : string) :
  is_Some (qualifyEntries alias row !! key) → ∃ column, key = qualified alias column.
Proof.
  intros [value Hvalue]. unfold qualifyEntries in Hvalue.
  apply elem_of_list_to_map_2 in Hvalue.
  apply list_elem_of_fmap in Hvalue as ([column value'] & Heq & _).
  injection Heq as -> _. by exists column.
Qed.

Lemma normalizeJoinRow_keys (alias : string) (row normalized : Row) (key : string) :
  normalizeJoinRow alias row = Ok normalized →
  is_Some (normalized !! key) → ∃ column, key = qualified alias column.
Proof.
  unfold normalizeJoinRow. destruct (subjectValue row) as [subject|]; [|done].
  simpl. intros Hnormalized Hkey. injection Hnormalized as <-.
  destruct subject as [subject|]; [|by apply (qualifyEntries_keys alias row)].
  destruct (extractIdFromSubject (Some subject)) as [id|].
  - apply lookup_insert_is_Some in Hkey as [<-|[_ Hkey]]; [by eexists|].
    apply lookup_insert_is_Some in Hkey as [<-|[_ Hkey]]; [by eexists|].
    by apply (qualifyEntries_keys alias row).
  - apply lookup_insert_is_Some in Hkey as [<-|[_ Hkey]]; [by eexists|].
    by apply (qualifyEntries_keys alias row).
Qed.

Lemma createEmptyJoinRow_keys (join : JoinEntry) (key : string) :
  is_Some (createEmptyJoinRow join !! key) → ∃ column, key = qualified (j_alias join) column.
Proof.
  unfold createEmptyJoinRow. intros Hkey.
  apply lookup_insert_is_Some in Hkey as [<-|[_ Hkey]]; [by eexists|].
  apply lookup_insert_is_Some in Hkey as [<-|[_ Hkey]]; [by eexists|].
  destruct Hkey as [value Hvalue]. apply elem_of_list_to_map_2 in Hvalue.
  apply list_elem_of_fmap in Hvalue as (column & Heq & _).
  injection Heq as -> _. by exists column.
Qed.

Lemma union_outside (alias : string) (joined baseRow : Row) (key : string) :
  (∀ k, is_Some (joined !! k) → ∃ column, k = qualified alias column) →
  outsideAlias alias key → (joined ∪ baseRow) !! key = baseRow !! key.
Proof.
  intros Hkeys Houtside. rewrite lookup_union_r; [done|].
  destruct (joined !! key) eqn:E; [|done].
  destruct (Hkeys key) as [column ->]; [by eexists|]. by destruct (Houtside column).
Qed.

(** X13.  A join changes no column of the rows it is applied to.  Every row it
    returns is one of the rows given with the same value under every key that
    the alias of the join does not qualify; the joined table comes in under
    [alias.column] keys only. *)
Theorem join_keeps_base_columns (primary : option string) (baseRows fetched joinRows : list Row)
    (join : JoinEntry) :
  normalizeJoinRows join fetched = Ok joinRows →
  Forall (fun merged =>
            ∃ baseRow, baseRow ∈ baseRows
                       ∧ ∀ key, outsideAlias (j_alias join) key → merged !! key = baseRow !! key)
         (mergeRowsWithJoin primary baseRows join joinRows).
Proof.
  intros Hnormalized.
  assert (Forall (fun joined => ∀ k, is_Some (joined !! k) →
                                     ∃ column, k = qualified (j_alias join) column) joinRows)
    as Hqualified.
  { apply (res_mapM_Forall _ _ _ _ (fun row normalized E k =>
                                      normalizeJoinRow_keys (j_alias join) row normalized k E)
             Hnormalized). }
  apply Forall_forall. intros merged Hmerged. unfold mergeRowsWithJoin in Hmerged.
  destruct (resolvedConditions join) as [|primaryCondition more]; [by exists merged|].
  destruct (joinSides join primaryCondition) as [joinRef baseRef]. cbv zeta in Hmerged.
  apply list_elem_of_bind in Hmerged as (baseRow & Hmerged & HbaseRow).
  exists baseRow. split; [done|]. intros key Houtside.
  set (matches := if Value.isNullish _ then [] else _) in Hmerged.
  assert (Forall (fun joined => joined ∈ joinRows) matches) as Hmatches.
  { subst matches. destruct (Value.isNullish _); [constructor|].
    rewrite joinValueMap_lookup. apply Forall_forall.
    by intros joined [_ Hin]%list_elem_of_filter. }
  destruct matches as [|first others].
  - destruct (j_type join);
      try (apply list_elem_of_singleton in Hmerged as ->;
           apply (union_outside (j_alias join)); [apply createEmptyJoinRow_keys | done]).
    by apply elem_of_nil in Hmerged.
  - apply list_elem_of_fmap in Hmerged as (joined & -> & Hjoined).
    apply (union_outside (j_alias join)); [|done].
    rewrite Forall_forall in Hqualified, Hmatches. apply Hqualified. by apply Hmatches.
Qed.

End JoinKeys.

Lemma join_keeps_base_columns_witness :
  let join := {| j_type := leftJoin; j_table := users; j_alias := "users";
                 rawCondition := JoinObject [("posts.authorId", RefName "users.id")];
                 resolvedConditions :=
                   [{| jc_left := {| cr_table := posts; cr_alias := "posts";
                                     cr_column := "authorId" |};
                       jc_right := {| cr_table := users; cr_alias := "users";
                                      cr_column := "id" |} |}] |} in
  let baseRows := [resultRow [("id", VStr "p1"); ("authorId", VStr "u1")];
                   resultRow [("id", VStr "p2"); ("authorId", VStr "u9")]] in
  let joinRows := [resultRow [("users.subject", VStr (userSubject "u1"));
                              ("users.id", VStr "u1"); ("users.name", VStr "Alice")]] in
  Forall (fun merged =>
            ∃ baseRow, baseRow ∈ baseRows
                       ∧ ∀ key, outsideAlias "users" key → merged !! key = baseRow !! key)
         (mergeRowsWithJoin (H := RefHost.host) (Some "posts") baseRows join joinRows).
Proof.
  apply (join_keeps_base_columns (H := RefHost.host) (Some "posts")
           [resultRow [("id", VStr "p1"); ("authorId", VStr "u1")];
            resultRow [("id", VStr "p2"); ("authorId", VStr "u9")]]
           [resultRow [("subject", VStr (userSubject "u1")); ("name", VStr "Alice")]]
           [resultRow [("users.subject", VStr (userSubject "u1"));
                       ("users.id", VStr "u1"); ("users.name", VStr "Alice")]]
           {| j_type := leftJoin; j_table := users; j_alias := "users";
              rawCondition := JoinObject [("posts.authorId", RefName "users.id")];
              resolvedConditions :=
                [{| jc_left := {| cr_table := posts; cr_alias := "posts";
                                  cr_column := "authorId" |};
                    jc_right := {| cr_table := users; cr_alias := "users";
                                   cr_column := "id" |} |}] |}).
  vm_compute. reflexivity.
Defined.

(** ** The id of any subject *)

Lemma matchIdSuffix_cons (c : ascii) (t : string) :
  matchIdSuffix (String c t)
  = if allIdChars (String c t) then Some (String c t) else matchIdSuffix t.
Proof. reflexivity. Qed.

(** What the regular expression finds: the longest suffix without a slash
    or a hash, when the subject does not end with one. *)
Lemma matchIdSuffix_spec (s : string) :
  match matchIdSuffix s with
  | Some id =>
      id ≠ "" ∧ allIdChars id = true
      ∧ ∃ pre, s = pre +:+ id
               ∧ (pre = "" ∨ ∃ pre' c, pre = pre' +:+ String c "" ∧ isIdChar c = false)
  | None => ∀ pre c t, s = pre +:+ String c t → allIdChars (String c t) = false
  end.
Proof.
  induction s as [|c s IH].
  { simpl. intros pre d t Hs. symmetry in Hs. by apply app_not_empty in Hs. }
  rewrite matchIdSuffix_cons. destruct (allIdChars (String c s)) eqn:Hall.
  { split; [done|]. split; [done|]. exists "". split; [done | by left]. }
  destruct (matchIdSuffix s) as [id|].
  - destruct IH as (Hne & Hid & pre & -> & Hpre). split; [done|]. split; [done|].
    exists (String c pre). split; [done|]. right.
    destruct Hpre as [->|(pre' & d & -> & Hd)].
    + exists "", c. split; [done|].
      rewrite app_empty_l, allIdChars_cons, Hid, andb_true_r in Hall. done.
    + exists (String c pre'), d. by rewrite app_cons.
  - intros pre d t Hs. destruct pre as [|e pre].
    + rewrite app_empty_l in Hs. by injection Hs as <- <-.
    + rewrite app_cons in Hs. injection Hs as _ Hs. by apply (IH pre).
Qed.

(** X16.  The id of a subject is a suffix of it, and is not empty.  It has no
    slash and no hash, and starts right after the last one of the subject,
    unless the subject ends with one: then it is the whole subject.  Taking
    the id of an id gives the id again.  Only the empty subject has no
    id. *)
Theorem extractIdFromSubject_is_a_suffix (subject : string) :
  match extractIdFromSubject (Some subject) with
  | None => subject = ""
  | Some id =>
      id ≠ ""
      ∧ (∃ pre, subject = pre +:+ id
                ∧ (id = subject
                   ∨ allIdChars id = true
                     ∧ (pre = ""
                        ∨ ∃ pre' c, pre = pre' +:+ String c "" ∧ isIdChar c = false)))
      ∧ extractIdFromSubject (Some id) = Some id
  end.
Proof.
  unfold extractIdFromSubject at 1. unfold truthyStr.
  destruct (String.eqb_spec subject "") as [->|Hne]; [done|].
  pose proof (matchIdSuffix_spec subject) as Hspec.
  destruct (matchIdSuffix subject) as [id|].
  - destruct Hspec as (Hid & Hall & pre & -> & Hpre).
    split; [done|]. split; [exists pre; split; [done | by right]|].
    unfold extractIdFromSubject, truthyStr.
    apply String.eqb_neq in Hid as ->.
    destruct id as [|c id]; [done|]. by rewrite matchIdSuffix_cons, Hall.
  - split; [done|]. split; [exists ""; split; [done | by left]|].
    unfold extractIdFromSubject, truthyStr.
    apply String.eqb_neq in Hne as ->.
    destruct (matchIdSuffix subject) as [id|] eqn:E; [|done].
    pose proof (matchIdSuffix_spec subject) as Hspec'. rewrite E in Hspec'.
    destruct Hspec' as (Hid & Hall & pre & Hsubject & _).
    destruct id as [|c id]; [done|]. by rewrite (Hspec pre c id Hsubject) in Hall.
Qed.

(** ** The keys of the rows returned *)

Lemma mapM_inv_Forall2 {S A C} (f : A → SR S C) (R : A → C → Prop) (l : list A) :
  (∀ x st y st', f x st = (Ok y, st') → R x y) →
  ∀ st ys st', mapM f l st = (Ok ys, st') → Forall2 R l ys.
Proof.
  intros Hf. induction l as [|x l IH]; intros st ys st' E.
  - injection E as <- <-. constructor.
  - simpl in E. apply bind_inv_ok in E as (y & st1 & Ey & E).
    apply bind_inv_ok in E as (ys' & st2 & Eys & E).
    injection E as <- <-. constructor; [by eapply Hf | by eapply IH].
Qed.

Lemma Forall2_keys {A} (fields : list (string * A)) (entries : list (string * JsValue)) :
  Forall2 (fun field entry => entry.1 = field.1) fields entries → entries.*1 = fields.*1.
Proof.
  induction 1 as [|field entry fields entries Hkey _ IH]; [done|].
  by rewrite !fmap_cons, IH, Hkey.
Qed.

Lemma elem_of_rev {A} (x : A) (l : list A) : x ∈ rev l ↔ x ∈ l.
Proof. rewrite !list_elem_of_In. symmetry. apply in_rev. Qed.

Lemma fmap_rev_list {A C} (g : A → C) (l : list A) : g <$> rev l = rev (g <$> l).
Proof. apply map_rev. Qed.

Lemma list_to_map_rev_keys {A} (fields : list (string * A))
    (entries : list (string * JsValue)) :
  entries.*1 = fields.*1 → hasKeysOf fields (list_to_map (rev entries) : Row).
Proof.
  intros Hkeys key. rewrite <- Hkeys. split.
  - intros [value Hvalue]. apply elem_of_list_to_map_2 in Hvalue.
    apply list_elem_of_fmap. exists (key, value). split; [done|].
    by rewrite elem_of_rev in Hvalue.
  - intros Hkey. apply not_eq_None_Some. intros Hnone.
    apply not_elem_of_list_to_map_2 in Hnone. apply Hnone.
    by rewrite fmap_rev_list, elem_of_rev.
Qed.

Section SelectedKeys.
Context `{JsHost}.

Lemma rowGet_from_row (row : Row) (key : string) :
  rowGet row key = VUndefined ∨ ∃ k, row !! k = Some (rowGet row key).
Proof. unfold rowGet. destruct (row !! key) eqn:E; [right; by exists key | by left]. Qed.


Lemma resolveSelectFieldColumn_keeps {T} (proj : SelectQueryBuilder → T) (field : SelectField) :
  (∀ ta at_ au b, proj (setAliases ta at_ au b) = proj b) →
  keeps proj (resolveSelectFieldColumn field).
Proof.
  intros Hp. unfold resolveSelectFieldColumn. destruct field; try apply keeps_ret;
    (apply keeps_bind; [by apply resolveColumnReference_keeps|]; intros; apply keeps_ret).
Qed.

Lemma ensureGroupByValidity_keeps {T} (proj : SelectQueryBuilder → T) :
  (∀ ta at_ au b, proj (setAliases ta at_ au b) = proj b) →
  keeps proj ensureGroupByValidity.
Proof.
  intros Hp. unfold ensureGroupByValidity.
  apply keeps_bind; [apply keeps_getState|]. intros b.
  destruct (selectedFields b) as [fields|]; [|apply keeps_ret].
  apply keeps_bind; [|intros; apply keeps_ret].
  apply keeps_mapM. intros [alias field].
  destruct (isAggregateExpression field); [apply keeps_ret|].
  apply keeps_bind; [by apply resolveSelectFieldColumn_keeps|].
  intros [ref|]; [|apply keeps_ret].
  case_bool_decide; [apply keeps_ret | apply keeps_throw].
Qed.


End SelectedKeys.



(** ** A [groupBy] without a select list *)

Section FirstRows.
Context `{JsHost}.

Lemma addToGroup_firstRows (key : string) (row : Row) (groups : list (string * list Row)) :
  Forall (fun group => group.2 ≠ []) groups →
  firstRows (addToGroup key row groups)
  = firstRows groups ++ (if bool_decide (key ∈ groups.*1) then [] else [row]).
Proof.
  unfold firstRows. induction 1 as [|[k members] groups Hmembers _ IH]; [done|].
  cbn [addToGroup]. rewrite fmap_cons. cbn [fst snd] in *.
  destruct (String.eqb_spec k key) as [->|Hne]; cbn [omap list_omap snd].
  - rewrite bool_decide_true by left. rewrite app_nil_r.
    by destruct members.
  - rewrite IH. destruct (head members).
    + case_bool_decide as Hin.
      * rewrite bool_decide_true by (by right). done.
      * rewrite bool_decide_false; [done|]. by intros [?|?]%elem_of_cons.
    + case_bool_decide as Hin.
      * rewrite bool_decide_true by (by right). done.
      * rewrite bool_decide_false; [done|]. by intros [?|?]%elem_of_cons.
Qed.

Lemma firstOfEachGroup_from (primary : option string) (groupBy : list ColumnReference)
    (rows : list Row) (groups : list (string * list Row)) (seen : gset string) :
  (∀ key, key ∈ seen ↔ key ∈ groups.*1) →
  Forall (fun group => group.2 ≠ []) groups →
  firstRows (fold_left (fun groups row => addToGroup (groupKey primary groupBy row) row groups)
                       rows groups)
  = firstRows groups ++ firstOfEachGroup primary groupBy seen rows.
Proof.
  revert groups seen. induction rows as [|row rows IH]; intros groups seen Hseen Hgroups.
  { simpl. by rewrite app_nil_r. }
  cbn [fold_left firstOfEachGroup].
  rewrite (IH _ (if bool_decide (groupKey primary groupBy row ∈ seen) then seen
                 else {[groupKey primary groupBy row]} ∪ seen)).
  - rewrite addToGroup_firstRows by done.
    rewrite (bool_decide_ext _ _ (Hseen (groupKey primary groupBy row))).
    case_bool_decide; [by rewrite app_nil_r | by rewrite <- app_assoc].
  - intros key. rewrite addToGroup_keys.
    rewrite (bool_decide_ext _ _ (Hseen (groupKey primary groupBy row))).
    case_bool_decide as Hin; [apply Hseen|].
    rewrite elem_of_union, elem_of_singleton, elem_of_app, list_elem_of_singleton, Hseen.
    tauto.
  - apply addToGroup_Forall; [done | | done].
    intros members _. by destruct members.
Qed.

(** X11.  A [groupBy] without a select list returns the first row of each group
    that a [groupBy] with a select list forms, in the order of the groups:
    the two loops of the fallback agree on what a group is. *)
Theorem groupBy_alone_returns_first_rows (primary : option string)
    (groupBy : list ColumnReference) (rows : list Row) :
  firstOfEachGroup primary groupBy ∅ rows = firstRows (groupRows primary groupBy rows).
Proof.
  unfold groupRows. rewrite (firstOfEachGroup_from primary groupBy rows [] ∅); [done| |done].
  intros key. split; [by intros ?%elem_of_empty | by intros ?%elem_of_nil].
Qed.

End FirstRows.

(** ** What a select sends *)

Section SelectTraffic.
Context `{JsHost}.
Variable w : World.
Variable cv : Converter.

Lemma convertSelect_type (ast : SelectAst) (table : PodTable) (q : SPARQLQuery) :
  convertSelect cv ast table = Ok q → sp_type q = SELECT.
Proof.
  unfold convertSelect. destruct (buildSelectVariables ast table); [|done].
  simpl. by intros [= <-].
Qed.

(** X20.  A select does no preflight.  Apart from the connection check of
    a dialect that has not connected, the dialect sends no HTTP request of
    its own: it neither looks for the container or the resource of the table
    nor creates them.  It sends at most one statement, a SELECT for the
    resource of the table, and it has sent it whenever it returns. *)
Theorem select_sends_no_preflight (operation : PodOperation) (d : DialectState) :
  op_type operation = OpSelect →
  ∃ statements,
    trace (query w cv operation d).2
    = trace d ++ (if connected d then [] else [connectionCheck cv]) ++ statements
    ∧ Forall (isSelectOn (resolveTableUrls cv (op_table operation)).2) statements
    ∧ length statements ≤ 1
    ∧ (∀ rows, (query w cv operation d).1 = Ok rows → length statements = 1).
Proof.
  intros Htype. destruct (query w cv operation d) as [result d'] eqn:Hrun. simpl.
  unfold query in Hrun.
  destruct (connect_cases w cv d) as [Htrace Hcases].
  unfold mbind at 1, SR_bind at 1 in Hrun.
  destruct (connect w cv d) as [[[]|message] d1]; simpl in *; cycle 1.
  { injection Hrun as <- <-. exists []. rewrite app_nil_r.
    split; [done|]. split; [done|]. split; [simpl; lia | done]. }
  rewrite Htype in Hrun.
  destruct (resolveTableUrls cv (op_table operation)) as [containerUrl resourceUrl].
  unfold selectCase, mbind, SR_bind, liftRes in Hrun. simpl in *.
  destruct (convertSelect cv _ (op_table operation)) as [q|message] eqn:Hq; simpl in *.
  - unfold executeOnResource in Hrun. injection Hrun as <- <-. simpl.
    exists [Sparql resourceUrl q]. rewrite Htrace, <- app_assoc.
    split; [done|]. split; [|split; [simpl; lia | done]].
    constructor; [|done]. split; [done | by eapply convertSelect_type].
  - injection Hrun as <- <-. exists []. rewrite app_nil_r.
    split; [done|]. split; [done|]. split; [simpl; lia | done].
Qed.

End SelectTraffic.

Lemma select_sends_no_preflight_witness :
  ∃ statements,
    trace (query (H := RefHost.host) absentPod alicePod (blankOperation OpSelect profiles)
             freshDialect).2
    = trace freshDialect ++ [connectionCheck alicePod] ++ statements
    ∧ Forall (isSelectOn (resolveTableUrls alicePod profiles).2) statements
    ∧ length statements ≤ 1
    ∧ (∀ rows, (query (H := RefHost.host) absentPod alicePod
                  (blankOperation OpSelect profiles) freshDialect).1 = Ok rows →
               length statements = 1).
Proof.
  apply (select_sends_no_preflight (H := RefHost.host) absentPod alicePod
           (blankOperation OpSelect profiles) freshDialect).
  reflexivity.
Defined.

(** ** Normalizing the rows of the base table *)

Section BaseRows.
Context `{JsHost}.

Lemma includesChar_app_r (c : ascii) (s t : string) :
  Js.includesChar c t = true → Js.includesChar c (s +:+ t) = true.
Proof.
  intros Ht. induction s as [|d s IH]; [done|].
  rewrite app_cons, includesChar_cons, IH. by destruct (Ascii.eqb c d).
Qed.

Lemma id_outsideAlias (alias : string) : outsideAlias alias "id".
Proof.
  intros column Hid.
  assert (Js.includesChar "." (qualified alias column) = true) as Hdot.
  { unfold qualified. by apply includesChar_app_r. }
  by rewrite <- Hid in Hdot.
Qed.

(** X12.  Normalizing a row of the base table changes no column of it: the
    copies it adds are under [alias.column] keys.  The one key it may add
    without the alias is [id], and only when the row has none. *)
Theorem normalizeBaseRow_keeps_columns (alias : string) (row result : Row) :
  normalizeBaseRow alias row = Ok result →
  (∀ key, outsideAlias alias key → key ≠ "id" → result !! key = row !! key)
  ∧ (Value.isUndefined (rowGet row "id") = false → result !! "id" = row !! "id").
Proof.
  unfold normalizeBaseRow. destruct (subjectValue row) as [subject|]; [|done].
  simpl. intros Hresult. injection Hresult as <-.
  assert (∀ key, outsideAlias alias key →
                 (qualifyEntries alias row ∪ row) !! key = row !! key) as Hbase.
  { intros key Hkey. apply (union_outside alias); [apply qualifyEntries_keys | done]. }
  pose proof (id_outsideAlias alias) as Hid.
  destruct subject as [subject|]; [|split; [by auto | by intros; apply Hbase]].
  assert (rowGet (<[qualified alias "subject" := VStr subject]>
                    (qualifyEntries alias row ∪ row)) "id" = rowGet row "id") as Hsame.
  { unfold rowGet. rewrite lookup_insert_ne by (by intros E; destruct (Hid "subject")).
    by rewrite Hbase. }
  destruct (extractIdFromSubject (Some subject)) as [derivedId|].
  - rewrite Hsame. split.
    + intros key Hkey Hne. rewrite lookup_insert_ne by (by intros E; destruct (Hkey "id")).
      destruct (Value.isUndefined (rowGet row "id")).
      * rewrite lookup_insert_ne by done.
        rewrite lookup_insert_ne by (by intros E; destruct (Hkey "subject")). by apply Hbase.
      * rewrite lookup_insert_ne by (by intros E; destruct (Hkey "subject")). by apply Hbase.
    + intros ->. rewrite lookup_insert_ne by (by intros E; destruct (Hid "id")).
      rewrite lookup_insert_ne by (by intros E; destruct (Hid "subject")). by apply Hbase.
  - split.
    + intros key Hkey Hne.
      rewrite lookup_insert_ne by (by intros E; destruct (Hkey "subject")). by apply Hbase.
    + intros _. rewrite lookup_insert_ne by (by intros E; destruct (Hid "subject")).
      by apply Hbase.
Qed.

End BaseRows.

Lemma normalizeBaseRow_keeps_columns_witness :
  let row := resultRow [("subject", VStr (postSubject "p1")); ("title", VStr "Hello")] in
  let result := resultRow [("subject", VStr (postSubject "p1")); ("title", VStr "Hello");
                           ("id", VStr "p1"); ("posts.subject", VStr (postSubject "p1"));
                           ("posts.title", VStr "Hello"); ("posts.id", VStr "p1")] in
  (∀ key, outsideAlias "posts" key → key ≠ "id" → result !! key = row !! key)
  ∧ (Value.isUndefined (rowGet row "id") = false → result !! "id" = row !! "id").
Proof.
  apply (normalizeBaseRow_keeps_columns "posts"
           (resultRow [("subject", VStr (postSubject "p1")); ("title", VStr "Hello")])
           (resultRow [("subject", VStr (postSubject "p1")); ("title", VStr "Hello");
                       ("id", VStr "p1"); ("posts.subject", VStr (postSubject "p1"));
                       ("posts.title", VStr "Hello"); ("posts.id", VStr "p1")])).
  vm_compute. reflexivity.
Defined.


(** ** What a join fetches *)

Section JoinTraffic.
Context `{JsHost}.
Variable w : World.
Variable cv : Converter.

Lemma filter_nullish (values : list JsValue) :
  Forall (fun value => Value.isNullish value = true) values →
  filter (fun value => negb (Value.isNullish value) = true) values = [].
Proof.
  induction 1 as [|first values Hfirst _ IH]; [done|].
  rewrite filter_cons, IH. case_decide as Hkept; [|done]. by rewrite Hfirst in Hkept.
Qed.

Lemma fetchJoinRows_no_key (join : JoinEntry) (baseRows : list Row)
    (st : SelectQueryBuilder * DialectState) :
  noJoinKey (primaryAlias st.1) join baseRows →
  fetchJoinRows w cv join baseRows st = (Ok [], st).
Proof.
  unfold noJoinKey, fetchJoinRows.
  destruct (resolvedConditions join) as [|primaryCondition more]; [by destruct st|].
  destruct (joinSides join primaryCondition) as [joinRef baseRef]. simpl.
  intros [_ Hnull]. destruct st as [b d]. unfold mbind, SR_bind, liftB, getState. simpl in *.
  rewrite filter_nullish; [done|]. by apply Forall_fmap.
Qed.

Lemma fetchJoinRows_no_row (join : JoinEntry) (st : SelectQueryBuilder * DialectState) :
  fetchJoinRows w cv join [] st = (Ok [], st).
Proof.
  unfold fetchJoinRows.
  destruct (resolvedConditions join) as [|primaryCondition more]; [by destruct st|].
  destruct (joinSides join primaryCondition) as [joinRef baseRef].
  by destruct st as [b d].
Qed.

(** X27.  A join fetches nothing when no row it is applied to has a value
    to join on, the column to join on not being a name that the rows inherit:
    no statement is sent for the joined table, and the builder and the
    dialect stay as they are.  And over no rows at all, a chain of joins,
    whatever they are, returns no row and sends nothing. *)
Theorem join_without_keys_fetches_nothing (join : JoinEntry) (baseRows : list Row)
    (st : SelectQueryBuilder * DialectState) :
  noJoinKey (primaryAlias st.1) join baseRows →
  fetchJoinRows w cv join baseRows st = (Ok [], st)
  ∧ ∀ joinList, applyJoinFallbackWith (fetchJoinRows w cv) joinList [] st = (Ok [], st).
Proof.
  intros Hnull. split; [by apply fetchJoinRows_no_key|].
  intros joinList. clear Hnull. induction joinList as [|next more IH]; [done|].
  cbn [applyJoinFallbackWith].
  rewrite (bind_ok _ _ _ _ _ (fetchJoinRows_no_row next st)).
  destruct st as [b d]. unfold mbind at 1, SR_bind at 1, liftB, getState. simpl.
  assert (mergeRowsWithJoin (primaryAlias b) [] next [] = []) as ->; [|exact IH].
  unfold mergeRowsWithJoin. destruct (resolvedConditions next); [done|].
  by destruct (joinSides next _).
Qed.

End JoinTraffic.

Lemma join_without_keys_fetches_nothing_witness :
  let join := {| j_type := leftJoin; j_table := users; j_alias := "users";
                 rawCondition := JoinObject [("posts.authorId", RefName "users.id")];
                 resolvedConditions :=
                   [{| jc_left := {| cr_table := posts; cr_alias := "posts";
                                     cr_column := "authorId" |};
                       jc_right := {| cr_table := users; cr_alias := "users";
                                      cr_column := "id" |} |}] |} in
  let baseRows := [resultRow [("id", VStr "p1"); ("title", VStr "Hello")];
                   resultRow [("id", VStr "p2"); ("authorId", VNull)]] in
  let st := (postsJoinUsers [("posts.authorId", RefName "users.id")], freshDialect) in
  fetchJoinRows (H := RefHost.host) blogPod alicePod join baseRows st = (Ok [], st)
  ∧ ∀ joinList,
      applyJoinFallbackWith (H := RefHost.host)
        (fetchJoinRows (H := RefHost.host) blogPod alicePod) joinList [] st
      = (Ok [], st).
Proof.
  apply (join_without_keys_fetches_nothing (H := RefHost.host) blogPod alicePod
           {| j_type := leftJoin; j_table := users; j_alias := "users";
              rawCondition := JoinObject [("posts.authorId", RefName "users.id")];
              resolvedConditions :=
                [{| jc_left := {| cr_table := posts; cr_alias := "posts";
                                  cr_column := "authorId" |};
                    jc_right := {| cr_table := users; cr_alias := "users";
                                   cr_column := "id" |} |}] |}
           [resultRow [("id", VStr "p1"); ("title", VStr "Hello")];
            resultRow [("id", VStr "p2"); ("authorId", VNull)]]
           (postsJoinUsers [("posts.authorId", RefName "users.id")], freshDialect)).
  unfold noJoinKey. simpl. split; [reflexivity | repeat constructor].
Defined.

(** ** Inserting what is there *)

Section ExistingSubject.
Context `{JsHost}.
Variable w : World.
Variable cv : Converter.

Lemma forallb_refuses {A} (p : A → bool) (l : list A) (x : A) :
  x ∈ l → p x = false → forallb p l = false.
Proof.
  intros Hin Hx. induction l as [|y l IH]; [by apply elem_of_nil in Hin|].
  simpl. apply elem_of_cons in Hin as [<-|Hin]; [by rewrite Hx|].
  by rewrite IH, andb_false_r.
Qed.

(** X28.  An insert is refused when the resource already holds the subject
    of one of its rows.  Once the preflight has passed, if the Turtle of the
    resource contains the subject URI of a row of the batch, the insert
    throws [Resource already exists, INSERT aborted], and no statement is
    sent: the read of the resource is the last thing the dialect does.  The
    row has an id; the subject of a row without one is made from the
    clock. *)
Theorem insert_of_existing_subject_is_refused (operation : PodOperation)
    (payload : InsertValues) (record : JsObject) (d d1 d2 d3 : DialectState)
    (response : Response) :
  let table := op_table operation in
  let resourceUrl := (resolveTableUrls cv table).2 in
  op_type operation = OpInsert →
  op_values operation = Some payload →
  record ∈ payloadRows payload →
  Value.truthy (Obj.prop record "id") = true →
  connect w cv d = (Ok (), d1) →
  ensureContainerExists w (resolveTableUrls cv table).1 d1 = (Ok (), d2) →
  ensureResourceExists w resourceUrl true d2 = (Ok (), d3) →
  w_fetch w (trace d3) (acceptTurtle resourceUrl) = Ok response →
  ok response = true →
  Js.includes (body response) (generateSubjectUri cv record table) = true →
  query w cv operation d
  = (Throw "Resource already exists, INSERT aborted",
     {| connected := connected d3; trace := trace d3 ++ [Fetch (acceptTurtle resourceUrl)] |}).
Proof.
  intros table resourceUrl Htype Hvalues Hrecord Hid Hconnect Hcontainer Hresource
    Hfetch Hok Hincludes.
  subst table resourceUrl. unfold query.
  rewrite (bind_ok _ _ _ _ _ Hconnect), Htype.
  destruct (resolveTableUrls cv (op_table operation)) as [containerUrl resourceUrl].
  simpl in *.
  assert (insertCase w cv operation containerUrl resourceUrl d1
          = (Throw "Resource already exists, INSERT aborted",
             {| connected := connected d3;
                trace := trace d3 ++ [Fetch (acceptTurtle resourceUrl)] |})) as Hcase.
  { unfold insertCase. rewrite Hvalues.
    assert (((_ ← ensureContainerExists w containerUrl;
             _ ← ensureResourceExists w resourceUrl true;
             canInsert ← checkResourceExistence w cv (payloadRows payload)
                           (op_table operation) resourceUrl;
             if canInsert : bool then
               q ← liftRes (convertInsert cv (payloadRows payload) (op_table operation));
               mret (inr q)
             else throw "Resource already exists, INSERT aborted")
              : M (list Row + SPARQLQuery)) d1
            = (Throw "Resource already exists, INSERT aborted",
               {| connected := connected d3;
                  trace := trace d3 ++ [Fetch (acceptTurtle resourceUrl)] |})) as Hrun.
    { rewrite (bind_ok _ _ _ _ _ Hcontainer), (bind_ok _ _ _ _ _ Hresource).
      assert (checkResourceExistence w cv (payloadRows payload) (op_table operation)
                resourceUrl d3
              = (Ok false, {| connected := connected d3;
                              trace := trace d3 ++ [Fetch (acceptTurtle resourceUrl)] |}))
        as Hcheck.
      { unfold checkResourceExistence, fetch, mbind, SR_bind. rewrite Hfetch. simpl.
        rewrite Hok. simpl.
        by rewrite (forallb_refuses _ _ record Hrecord) by (by rewrite Hincludes). }
      by rewrite (bind_ok _ _ _ _ _ Hcheck). }
    destruct payload as [r|[|r l]]; [exact Hrun | by apply elem_of_nil in Hrecord | exact Hrun]. }
  by rewrite (bind_throw _ _ _ _ _ Hcase).
Qed.

End ExistingSubject.

Lemma insert_of_existing_subject_is_refused_witness :
  let operation :=
    {| op_type := OpInsert; op_table := profiles; op_data := None; op_where := None;
       op_select := None;
       op_values := Some (ManyRows [[("id", VStr "b"); ("name", VStr "B")];
                                    [("id", VStr "a"); ("name", VStr "A")]]);
       op_limit := None; op_offset := None; op_orderBy := None; op_distinct := false |} in
  let d1 := (connect occupiedPod alicePod freshDialect).2 in
  let d2 := (ensureContainerExists occupiedPod profilesContainer d1).2 in
  let d3 := (ensureResourceExists occupiedPod profilesResource true d2).2 in
  query (H := RefHost.host) occupiedPod alicePod operation freshDialect
  = (Throw "Resource already exists, INSERT aborted",
     {| connected := connected d3;
        trace := trace d3 ++ [Fetch (acceptTurtle profilesResource)] |}).
Proof.
  apply (insert_of_existing_subject_is_refused (H := RefHost.host) occupiedPod alicePod
           {| op_type := OpInsert; op_table := profiles; op_data := None; op_where := None;
              op_select := None;
              op_values := Some (ManyRows [[("id", VStr "b"); ("name", VStr "B")];
                                           [("id", VStr "a"); ("name", VStr "A")]]);
              op_limit := None; op_offset := None; op_orderBy := None;
              op_distinct := false |}
           (ManyRows [[("id", VStr "b"); ("name", VStr "B")];
                      [("id", VStr "a"); ("name", VStr "A")]])
           [("id", VStr "a"); ("name", VStr "A")]
           freshDialect
           (connect occupiedPod alicePod freshDialect).2
           (ensureContainerExists occupiedPod profilesContainer
              (connect occupiedPod alicePod freshDialect).2).2
           (ensureResourceExists occupiedPod profilesResource true
              (ensureContainerExists occupiedPod profilesContainer
                 (connect occupiedPod alicePod freshDialect).2).2).2
           {| status := 200; statusText := "OK";
              body := "<" +:+ profileSubject "a" +:+ "> a <https://schema.org/Person> ." |}).
  - reflexivity.
  - reflexivity.
  - simpl. right. left.
  - reflexivity.
  - vm_compute. reflexivity.
  - vm_compute. reflexivity.
  - vm_compute. reflexivity.
  - reflexivity.
  - reflexivity.
  - vm_compute. reflexivity.
Defined.
